(** * fgssl: the retrying mail dispatcher and the payment webhook router

    A shallow embedding of [src/lib/email.ts] (the metrics record,
    [updateDeliveryRate], [sendWithRetry] and the mail functions the webhook
    calls) and of the payment webhook route ([POST] and its handlers,
    [getPaymentMethodType], [saveDonationRecord]).

    Modelling conventions.
    - The process state that the code mutates (the module-level
      [emailMetrics], the two storage tables) is threaded explicitly through
      a state-and-exception monad [Js]; a JavaScript [throw] is the [Thrown]
      completion and state changes made before a throw are kept.
    - Everything outside the repository (mail transport, [Math.random], the
      clock, the payment processor's API, signature verification, template
      and PDF rendering, storage faults) is an oracle of the environment
      record; every call to an external collaborator is appended to the
      [effects] log of the world, so that "no call was made" is a statement
      about that log.  Console output is not modelled.
    - Counters, cent amounts and timestamps are integers ([Z]); JavaScript
      numbers that can take fractional values (the delivery rate, delays,
      currency amounts) are exact rationals ([Q]): the rounding of IEEE
      doubles is not modelled.  Properties of such numbers are stated with
      the expression of the source, in its order of evaluation, or as
      bounds that rounding keeps; none rests on reassociating an
      expression.
    - Every promise that the code awaits settles (it is fulfilled or
      rejected); a collaborator that never answers is not modelled. *)

From Stdlib Require Import ZArith QArith Qpower Qring Ascii String List Lia Bool.
From stdpp Require Import gmap strings.

Local Open Scope string_scope.
Local Open Scope Z_scope.

(** ** JavaScript values that cross the modelled code *)

(** A thrown or caught value ([unknown] in the source): [null], an
    [Error] with its message, or an error of another class ([TypeError],
    [RangeError], the error classes of a client library) with its name and
    message. *)
Inductive JsValue : Type :=
| JsNull
| JsError (message : string)
| JsErrorOf (name message : string).

(** [Date] as milliseconds since the epoch.  A value is a valid time (the
    handlers make their dates from the processor's timestamps): the invalid
    date, on which [toISOString] throws, is not a value of the model. *)
Definition Date : Type := Z.

(** The outcome of an awaited promise of an external collaborator. *)
Inductive Settled (A : Type) : Type :=
| Fulfilled (value : A)
| Rejected (reason : JsValue).
Arguments Fulfilled {A} value.
Arguments Rejected {A} reason.

(** Truthiness of a possibly missing string: [undefined], [null] and the
    empty string are falsy. *)
Definition truthy (s : option string) : bool :=
  match s with
  | Some s' => negb (String.eqb s' "")
  | None => false
  end.

(** [a || b] with a string default. *)
Definition orElse (a : option string) (b : string) : string :=
  match a with
  | Some s => if String.eqb s "" then b else s
  | None => b
  end.

(** [a || b] where [b] may be missing as well. *)
Definition orOpt (a b : option string) : option string :=
  if truthy a then a else b.

(** ** email.ts: data *)

Record LastFailed : Type := {
  emailType : string;
  recipient : string;
  error : JsValue;
  timestamp : Date
}.

Record EmailMetrics : Type := {
  totalSent : Z;
  totalFailed : Z;
  lastFailed : option LastFailed;
  deliveryRate : Q
}.

(** The fields of [nodemailer.SendMailOptions] that the callers set. *)
Record MailOptions : Type := {
  from : string;
  to : string;
  subject : string;
  html : string;
  attachments : list string
}.

Record SentMessageInfo : Type := { info_messageId : string }.

(** The object returned by [sendWithRetry]. *)
Record SendResult : Type := {
  success : bool;
  messageId : string;
  attempts : Z
}.

(** ** The webhook route: data *)

Record DonorRecord : Type := {
  name : option string;
  email : string;
  phone : option string;
  totalDonations : option Q;
  lastDonationDate : option Date;
  donationFrequency : option string
}.

Record DonationRecord : Type := {
  amount : Q;
  currency : string;
  donationType : string;
  frequency : option string;
  donorName : string;
  donorEmail : string;
  donorPhone : option string;
  paymentMethod : string;
  paymentStatus : string;
  isRecurring : bool;
  stripePaymentIntentId : option string;
  stripeChargeId : option string;
  stripeSubscriptionId : option string;
  receiptUrl : option string;
  date : Date
}.

(** ** Calls to external collaborators *)

Inductive Effect : Type :=
| TransporterSendMail (mailOptions : MailOptions)
| SetTimeout (delay : Q)
| ChargesRetrieve (id : string)
| SubscriptionsRetrieve (id : string)
| CustomersRetrieve (id : string)
| PaymentIntentsRetrieve (id : string)
| DonorsGetFirst (email : string)
| DonorsUpdate (id : string)
| DonorsCreate (email : string)
| DonationsCreate (record : DonationRecord)
| SendDonationEmail (to : string)
| SendPaymentFailedEmail (to : string).

(** ** The world and the [Js] monad *)

Record World : Type := {
  emailMetrics : EmailMetrics;
  donors : gmap string DonorRecord;
  donations : list DonationRecord;
  effects : list Effect
}.

(** The metrics object at module load (email.ts, lines 51-55). *)
Definition initialMetrics : EmailMetrics :=
  {| totalSent := 0; totalFailed := 0; lastFailed := None; deliveryRate := 100%Q |}.

Definition initialWorld : World :=
  {| emailMetrics := initialMetrics; donors := ∅; donations := []; effects := [] |}.

Inductive Completion (A : Type) : Type :=
| Normal (value : A)
| Thrown (exn : JsValue)
| OutOfFuel.
Arguments Normal {A} value.
Arguments Thrown {A} exn.
Arguments OutOfFuel {A}.

Definition Js (A : Type) : Type := World -> Completion A * World.

Definition ret {A} (a : A) : Js A := fun w => (Normal a, w).

Definition bind {A B} (c : Js A) (k : A -> Js B) : Js B := fun w =>
  match c w with
  | (Normal a, w') => k a w'
  | (Thrown e, w') => (Thrown e, w')
  | (OutOfFuel, w') => (OutOfFuel, w')
  end.

Definition throw {A} (e : JsValue) : Js A := fun w => (Thrown e, w).

Definition outOfFuel {A} : Js A := fun w => (OutOfFuel, w).

(** [try { body } catch (e) { handler e }]. *)
Definition tryCatch {A} (body : Js A) (handler : JsValue -> Js A) : Js A := fun w =>
  match body w with
  | (Thrown e, w') => handler e w'
  | r => r
  end.

Definition perform (e : Effect) : Js unit := fun w =>
  (Normal tt,
   {| emailMetrics := emailMetrics w; donors := donors w;
      donations := donations w; effects := effects w ++ [e] |}).

Definition getMetrics : Js EmailMetrics := fun w => (Normal (emailMetrics w), w).

Definition setMetrics (m : EmailMetrics) : Js unit := fun w =>
  (Normal tt,
   {| emailMetrics := m; donors := donors w;
      donations := donations w; effects := effects w |}).

(** Awaiting a settled promise: a rejection is thrown. *)
Definition await {A} (p : Settled A) : Js A :=
  match p with
  | Fulfilled a => ret a
  | Rejected e => throw e
  end.

Notation "'let*' x ':=' c1 'in' c2" := (bind c1 (fun x => c2))
  (at level 10, x name, c1 at level 100, c2 at level 200).
Notation "c1 ;; c2" := (bind c1 (fun _ => c2))
  (at level 100, c2 at level 200, right associativity).

(** ** email.ts: the retrying sender *)

(** What the environment answers during one call of [sendWithRetry]:
    the transport's answer to the attempt made when the local variable
    [attempt] has the given value, the value drawn by [Math.random()] at
    that point, and the clock read by [new Date()]. *)
Record MailEnv : Type := {
  sendMail : Z -> Settled SentMessageInfo;
  mathRandom : Z -> Q;
  now : Date
}.

(** [updateDeliveryRate] (email.ts, lines 133-138).  The quotient and the
    product are taken as exact rationals, in the order of the source; the
    source rounds each of them to a double.  The properties of the rate
    below are therefore stated with this very expression at the counters
    (which is what is stored under either reading), or are bounds that
    rounding keeps; no property rests on reassociating it. *)
Definition updateDeliveryRate : Js unit :=
  let* m := getMetrics in
  let totalAttempts := totalSent m + totalFailed m in
  setMetrics {| totalSent := totalSent m; totalFailed := totalFailed m;
                lastFailed := lastFailed m;
                deliveryRate := if 0 <? totalAttempts
                                then (inject_Z (totalSent m) / inject_Z totalAttempts * 100)%Q
                                else 100%Q |}.

(** [emailMetrics.totalSent++] *)
Definition incrTotalSent : Js unit :=
  let* m := getMetrics in
  setMetrics {| totalSent := totalSent m + 1; totalFailed := totalFailed m;
                lastFailed := lastFailed m; deliveryRate := deliveryRate m |}.

(** [emailMetrics.totalFailed++] *)
Definition incrTotalFailed : Js unit :=
  let* m := getMetrics in
  setMetrics {| totalSent := totalSent m; totalFailed := totalFailed m + 1;
                lastFailed := lastFailed m; deliveryRate := deliveryRate m |}.

(** [emailMetrics.lastFailed = ...] *)
Definition setLastFailed (lf : LastFailed) : Js unit :=
  let* m := getMetrics in
  setMetrics {| totalSent := totalSent m; totalFailed := totalFailed m;
                lastFailed := Some lf; deliveryRate := deliveryRate m |}.

(** How one iteration of the [while] loop ends: by the [return] inside the
    [try] block, or by falling through to the next test of the loop guard. *)
Inductive LoopStep : Type :=
| Return (result : SendResult)
| Continue (attempt : Z) (lastError : JsValue).

Section SendWithRetry.

Variable env : MailEnv.
Variable mailOptions : MailOptions.
Variable emailType : string.
Variable maxRetries : Z.
Variable baseDelay : Q.

(** [await transporter.sendMail(mailOptions)] *)
Definition transporterSendMail (attempt : Z) : Js SentMessageInfo :=
  perform (TransporterSendMail mailOptions) ;;
  await (sendMail env attempt).

(** The delay of line 112, computed after [attempt++]. *)
Definition backoffDelay (attempt : Z) : Q :=
  (baseDelay * 2 ^ (attempt - 1) + mathRandom env (attempt - 1) * 500)%Q.

(** The body of the loop (lines 102-116). *)
Definition attemptOnce (attempt : Z) (lastError : JsValue) : Js LoopStep :=
  tryCatch
    (let* info := transporterSendMail attempt in
     incrTotalSent ;;
     updateDeliveryRate ;;
     ret (Return {| success := true; messageId := info_messageId info;
                    attempts := attempt + 1 |}))
    (fun error =>
       let lastError := error in
       let attempt := attempt + 1 in
       (if attempt <? maxRetries
        then perform (SetTimeout (backoffDelay attempt))
        else ret tt) ;;
       ret (Continue attempt lastError)).

(** [while (attempt < maxRetries) { ... }] (lines 101-117).  The result is
    [inl r] when the function returned [r] from inside the loop and
    [inr lastError] when the guard failed. *)
Fixpoint retryLoop (fuel : nat) (attempt : Z) (lastError : JsValue)
  : Js (SendResult + JsValue) :=
  match fuel with
  | O => outOfFuel
  | S fuel' =>
      if attempt <? maxRetries then
        let* s := attemptOnce attempt lastError in
        match s with
        | Return r => ret (inl r)
        | Continue attempt' lastError' => retryLoop fuel' attempt' lastError'
        end
      else ret (inr lastError)
  end.

(** [sendWithRetry] (lines 92-131).  The guard is tested at most
    [maxRetries + 1] times, which is the fuel given to the loop. *)
Definition sendWithRetry : Js SendResult :=
  let* r := retryLoop (S (Z.to_nat maxRetries)) 0 JsNull in
  match r with
  | inl result => ret result
  | inr lastError =>
      incrTotalFailed ;;
      updateDeliveryRate ;;
      setLastFailed (Build_LastFailed emailType (to mailOptions) lastError (now env)) ;;
      throw lastError
  end.

End SendWithRetry.

(** The callers never pass the optional parameters: [maxRetries = 3],
    [baseDelay = 1000]. *)
Definition defaultMaxRetries : Z := 3.
Definition defaultBaseDelay : Q := 1000%Q.

(** ** The payment processor's objects, as far as the handlers read them *)

Module Charge.
Record Card : Type := { brand : string; last4 : string }.
Record PaymentMethodDetails : Type := { card : option Card; type : option string }.
Record BillingDetails : Type := { email : option string; phone : option string }.
Record t : Type := {
  id : string;
  billing_details : option BillingDetails;
  receipt_url : option string;
  payment_method_details : option PaymentMethodDetails
}.
End Charge.

Module PaymentIntent.
Record t : Type := {
  id : string;
  metadata : gmap string string;
  invoice : option string;
  latest_charge : option string;
  amount : Z;
  currency : string;
  created : Z
}.
End PaymentIntent.

Module Invoice.
Record t : Type := {
  id : option string;
  subscription : option string;
  customer : string;
  customer_email : option string;
  payment_intent : option string;
  amount_paid : Z;
  amount_due : Z;
  currency : string;
  hosted_invoice_url : option string;
  created : Z;
  next_payment_attempt : option Z;
  billing_reason : option string
}.
End Invoice.

Module Subscription.
Record t : Type := {
  id : string;
  status : string;
  customer : string;
  metadata : gmap string string
}.
End Subscription.

Module Customer.
Record t : Type := {
  email : option string;
  name : option string;
  phone : option string
}.
End Customer.

(** [stripe.customers.retrieve] answers a customer or a deleted customer. *)
Inductive CustomerResult : Type :=
| LiveCustomer (c : Customer.t)
| DeletedCustomer.

(** ** Events and routing *)

(** The arms of the [switch] in [POST]. *)
Inductive Handler : Type :=
| HandlePaymentIntentSucceeded
| HandleInvoicePaymentSucceeded
| HandleSubscriptionCreated
| HandleSubscriptionUpdated
| HandleSubscriptionDeleted
| HandlePaymentFailed
| HandlePaymentActionRequired
| HandleSubscriptionPastDue
| HandleSubscriptionUnpaid
| Unhandled.

(** [switch (event.type as string)] (route, lines 67-90). *)
Definition route (type : string) : Handler :=
  if String.eqb type "payment_intent.succeeded" then HandlePaymentIntentSucceeded
  else if String.eqb type "invoice.payment_succeeded" then HandleInvoicePaymentSucceeded
  else if String.eqb type "customer.subscription.created" then HandleSubscriptionCreated
  else if String.eqb type "customer.subscription.updated" then HandleSubscriptionUpdated
  else if String.eqb type "customer.subscription.deleted" then HandleSubscriptionDeleted
  else if String.eqb type "invoice.payment_failed" then HandlePaymentFailed
  else if String.eqb type "invoice.payment_action_required" then HandlePaymentActionRequired
  else if String.eqb type "customer.subscription.past_due" then HandleSubscriptionPastDue
  else if String.eqb type "customer.subscription.unpaid" then HandleSubscriptionUnpaid
  else Unhandled.

(** The type that each handler casts [event.data.object] to.  The default
    arm never reads the object. *)
Definition Payload (h : Handler) : Type :=
  match h with
  | HandlePaymentIntentSucceeded => PaymentIntent.t
  | HandleInvoicePaymentSucceeded => Invoice.t
  | HandleSubscriptionCreated => Subscription.t
  | HandleSubscriptionUpdated => Subscription.t
  | HandleSubscriptionDeleted => Subscription.t
  | HandlePaymentFailed => Invoice.t
  | HandlePaymentActionRequired => Invoice.t
  | HandleSubscriptionPastDue => Subscription.t
  | HandleSubscriptionUnpaid => Subscription.t
  | Unhandled => unit
  end.

(** A decoded event: its type string and the object of the shape that the
    processor sends with that type (the handlers' unchecked casts are
    therefore always right). *)
Record Event : Type := {
  type : string;
  object : Payload (route type)
}.

(** The fixed set of handled type strings. *)
Definition handledTypes : list string :=
  [ "payment_intent.succeeded"; "invoice.payment_succeeded";
    "customer.subscription.created"; "customer.subscription.updated";
    "customer.subscription.deleted"; "invoice.payment_failed";
    "invoice.payment_action_required"; "customer.subscription.past_due";
    "customer.subscription.unpaid" ].

(** What [POST] reads of the request, each behind an [await]: the body
    ([req.text()]) and the signature header
    ([(await headers()).get('stripe-signature')]). *)
Record Request : Type := {
  text : Settled string;
  stripe_signature : Settled (option string)
}.

Inductive ResponseBody : Type :=
| Received (error : option string)
| Failure (error : string).

Record Response : Type := {
  body : ResponseBody;
  status : Z
}.

(** [NextResponse.json(body)]: the status defaults to 200. *)
Definition json (b : ResponseBody) : Response := {| body := b; status := 200 |}.
Definition jsonWithStatus (b : ResponseBody) (s : Z) : Response := {| body := b; status := s |}.

(** ** The environment of one webhook request *)

Inductive StorageOp : Type :=
| OpDonorsGetFirst
| OpDonorsUpdate
| OpDonorsCreate
| OpDonationsCreate.

Record Env : Type := {
  endpointSecret : string;
  siteUrl : string;
  fromEmail : option string;
  (** [stripe.webhooks.constructEvent]: throws when verification fails *)
  constructEvent : string -> string -> string -> Settled Event;
  chargesRetrieve : string -> Settled Charge.t;
  subscriptionsRetrieve : string -> Settled Subscription.t;
  customersRetrieve : string -> Settled CustomerResult;
  (** [stripe.paymentIntents.retrieve] with [latest_charge] expanded; only
      that field is read *)
  paymentIntentsRetrieve : string -> Settled (option Charge.t);
  (** a storage operation that is rejected by the database, with its error *)
  storageFault : StorageOp -> option JsValue;
  generateDonationReceiptPDF : Settled string;
  renderTemplate : string -> Settled string;
  receiptNumber : string;
  mail : MailEnv
}.

(** ** Small helpers *)

(** [String.prototype.toUpperCase] on ASCII letters (currency codes). *)
Definition upperAscii (c : ascii) : ascii :=
  let n := nat_of_ascii c in
  if ((97 <=? n) && (n <=? 122))%nat then ascii_of_nat (n - 32) else c.

Fixpoint toUpperCase (s : string) : string :=
  match s with
  | EmptyString => EmptyString
  | String c s' => String (upperAscii c) (toUpperCase s')
  end.

(** [Error.prototype.toString]: the name, a colon and the message; the
    name alone when the message is empty, the message alone when the name
    is. *)
Definition errorToString (name message : string) : string :=
  if String.eqb name "" then message
  else if String.eqb message "" then name
  else name ++ ": " ++ message.

(** The string that a template literal makes of a caught value. *)
Definition toString (e : JsValue) : string :=
  match e with
  | JsNull => "null"
  | JsError m => errorToString "Error" m
  | JsErrorOf n m => errorToString n m
  end.

(** [!x] for a number: only zero is falsy (NaN does not arise). *)
Definition falsyNumber (x : Q) : bool := Qeq_bool x 0.

(** [x || 0] for a possibly missing number. *)
Definition numberOrZero (x : option Q) : Q :=
  match x with
  | Some q => q
  | None => 0%Q
  end.

(** [getPaymentMethodType] (route, lines 424-434). *)
Definition getPaymentMethodType (charge : option Charge.t) : string :=
  match charge with
  | None => "card"
  | Some charge =>
      match Charge.payment_method_details charge with
      | Some details =>
          match Charge.card details with
          | Some card => Charge.brand card ++ " •••• " ++ Charge.last4 card
          | None => orElse (Charge.type details) "card"
          end
      | None => "card"
      end
  end.

(** The argument of [saveDonationRecord]. *)
Module DonationData.
Record t : Type := {
  email : string;
  name : string;
  phone : option string;
  amount : Q;
  currency : string;
  donationType : string;
  frequency : option string;
  paymentMethod : string;
  isRecurring : bool;
  stripePaymentIntentId : option string;
  stripeChargeId : option string;
  stripeSubscriptionId : option string;
  receiptUrl : option string;
  created : Date
}.
End DonationData.

(** [Partial<DonorRecord>] as built by [saveDonationRecord]. *)
Module DonorUpdate.
Record t : Type := {
  name : option string;
  phone : option string;
  totalDonations : option Q;
  lastDonationDate : option Date;
  donationFrequency : option string
}.
End DonorUpdate.

Module DonationEmailParams.
Record t : Type := {
  to : string;
  donorName : string;
  amount : Q;
  donationType : string;
  receiptUrl : option string;
  createdDate : option Date;
  paymentMethod : option string;
  currency : option string;
  frequency : option string;
  isRecurring : bool;
  unsubscribeLink : option string
}.
End DonationEmailParams.

Module PaymentFailedEmailParams.
Record t : Type := {
  to : string;
  donorName : string;
  amount : Q;
  currency : string;
  invoiceId : string;
  hostedInvoiceUrl : option string;
  billingReason : string;
  retryLink : option string;
  nextRetryDate : Date;
  updatePaymentUrl : string
}.
End PaymentFailedEmailParams.

(** ** The storage collaborator *)

Definition setDonors (d : gmap string DonorRecord) : Js unit := fun w =>
  (Normal tt,
   {| emailMetrics := emailMetrics w; donors := d;
      donations := donations w; effects := effects w |}).

Definition getDonors : Js (gmap string DonorRecord) := fun w => (Normal (donors w), w).

Definition pushDonation (r : DonationRecord) : Js unit := fun w =>
  (Normal tt,
   {| emailMetrics := emailMetrics w; donors := donors w;
      donations := donations w ++ [r]; effects := effects w |}).

(** A field of a partial update replaces the stored one when it is defined. *)
Definition patched {A} (new old : option A) : option A :=
  match new with
  | Some _ => new
  | None => old
  end.

Definition applyUpdate (d : DonorRecord) (u : DonorUpdate.t) : DonorRecord :=
  {| name := patched (DonorUpdate.name u) (name d);
     email := email d;
     phone := patched (DonorUpdate.phone u) (phone d);
     totalDonations := patched (DonorUpdate.totalDonations u) (totalDonations d);
     lastDonationDate := patched (DonorUpdate.lastDonationDate u) (lastDonationDate d);
     donationFrequency := patched (DonorUpdate.donationFrequency u) (donationFrequency d) |}.

Section Webhook.

Variable env : Env.

(** A storage call is logged, then rejected if the database faults. *)
Definition storageCall (op : StorageOp) (e : Effect) : Js unit :=
  perform e ;;
  match storageFault env op with
  | Some err => throw err
  | None => ret tt
  end.

(** Modelled from the spec: the generated database client ([@/lib/xata])
    is not among the sources.  Donor rows are "keyed by email", so the
    table is a finite map from email to row;
    [xata.db.donors.filter({ email }).getFirst()] is the lookup at that
    key. *)
Definition donorsGetFirst (email : string) : Js (option DonorRecord) :=
  storageCall OpDonorsGetFirst (DonorsGetFirst email) ;;
  let* table := getDonors in
  ret (table !! email).

(** Modelled from the spec: [xata.db.donors.update(id, fields)] of the
    missing database client; it patches the row stored under the key and
    answers [null] when there is none. *)
Definition donorsUpdate (id : string) (u : DonorUpdate.t) : Js (option DonorRecord) :=
  storageCall OpDonorsUpdate (DonorsUpdate id) ;;
  let* table := getDonors in
  match table !! id with
  | Some d =>
      setDonors (<[id := applyUpdate d u]> table) ;;
      ret (Some (applyUpdate d u))
  | None => ret None
  end.

(** Modelled from the spec: [xata.db.donors.create(row)] of the missing
    database client; the key (the email) must be free. *)
Definition donorsCreate (d : DonorRecord) : Js (option DonorRecord) :=
  storageCall OpDonorsCreate (DonorsCreate (email d)) ;;
  let* table := getDonors in
  match table !! email d with
  | Some _ => throw (JsError "record already exists")
  | None =>
      setDonors (<[email d := d]> table) ;;
      ret (Some d)
  end.

(** Modelled from the spec: [xata.db.donations.create(row)] of the missing
    database client; donation rows are "created fresh per payment event". *)
Definition donationsCreate (r : DonationRecord) : Js (option DonationRecord) :=
  storageCall OpDonationsCreate (DonationsCreate r) ;;
  pushDonation r ;;
  ret (Some r).

(** [saveDonationRecord] (route, lines 437-516). *)
Definition saveDonationRecord (data : DonationData.t) : Js (DonorRecord * DonationRecord) :=
  if (String.eqb (DonationData.email data) "" || falsyNumber (DonationData.amount data))%bool
  then throw (JsError "Missing required donation data: email or amount")
  else
    tryCatch
      (let* donor := donorsGetFirst (DonationData.email data) in
       let donorUpdate :=
         {| DonorUpdate.name := Some (DonationData.name data);
            DonorUpdate.phone := DonationData.phone data;
            DonorUpdate.totalDonations :=
              Some (numberOrZero (match donor with
                                  | Some d => totalDonations d
                                  | None => None
                                  end) + DonationData.amount data)%Q;
            DonorUpdate.lastDonationDate := Some (DonationData.created data);
            DonorUpdate.donationFrequency := DonationData.frequency data |} in
       let* donor :=
         match donor with
         | Some d => donorsUpdate (email d) donorUpdate
         | None =>
             donorsCreate
               {| name := DonorUpdate.name donorUpdate;
                  email := DonationData.email data;
                  phone := DonorUpdate.phone donorUpdate;
                  totalDonations := DonorUpdate.totalDonations donorUpdate;
                  lastDonationDate := DonorUpdate.lastDonationDate donorUpdate;
                  donationFrequency := DonorUpdate.donationFrequency donorUpdate |}
         end in
       match donor with
       | None => throw (JsError "Failed to create or update donor record")
       | Some donor =>
           let donationRecord :=
             {| amount := DonationData.amount data;
                currency := DonationData.currency data;
                donationType := DonationData.donationType data;
                frequency := DonationData.frequency data;
                donorName := DonationData.name data;
                donorEmail := DonationData.email data;
                donorPhone := DonationData.phone data;
                paymentMethod := DonationData.paymentMethod data;
                paymentStatus := "succeeded";
                isRecurring := DonationData.isRecurring data;
                stripePaymentIntentId := DonationData.stripePaymentIntentId data;
                stripeChargeId := DonationData.stripeChargeId data;
                stripeSubscriptionId := DonationData.stripeSubscriptionId data;
                receiptUrl := DonationData.receiptUrl data;
                date := DonationData.created data |} in
           let* donation := donationsCreate donationRecord in
           match donation with
           | None => throw (JsError "Failed to create donation record")
           | Some donation => ret (donor, donation)
           end
       end)
      (fun error => throw (JsError ("Failed to save donation record: " ++ toString error))).

(** ** email.ts: the mail functions that the webhook calls *)

(** [sendDonationEmail] (email.ts, lines 146-214): render the receipt and
    the template, then send with the default retry parameters; every
    failure is rethrown. *)
Definition sendDonationEmail (params : DonationEmailParams.t) : Js SendResult :=
  perform (SendDonationEmail (DonationEmailParams.to params)) ;;
  tryCatch
    (let* pdfBytes := await (generateDonationReceiptPDF env) in
     let* html := await (renderTemplate env "donation-receipt") in
     let mailOptions :=
       {| from := orElse (fromEmail env) "donations@yourchurch.org";
          to := DonationEmailParams.to params;
          subject :=
            if DonationEmailParams.isRecurring params
            then "Thank you for your recurring "
                 ++ DonationEmailParams.donationType params ++ " donation"
            else "Thank you for your "
                 ++ DonationEmailParams.donationType params ++ " donation";
          html := html;
          attachments := ["Donation_Receipt_" ++ receiptNumber env ++ ".pdf"] |} in
     let* result :=
       sendWithRetry (mail env) mailOptions "donation-receipt"
                     defaultMaxRetries defaultBaseDelay in
     ret result)
    (fun error => throw error).

(** [sendPaymentFailedEmail] (email.ts, lines 216-243). *)
Definition sendPaymentFailedEmail (params : PaymentFailedEmailParams.t) : Js SendResult :=
  perform (SendPaymentFailedEmail (PaymentFailedEmailParams.to params)) ;;
  tryCatch
    (let* html := await (renderTemplate env "payment-failed") in
     let mailOptions :=
       {| from := orElse (fromEmail env) "donations@yourchurch.org";
          to := PaymentFailedEmailParams.to params;
          subject := "Payment issue with your recurring donation";
          html := html;
          attachments := [] |} in
     let* result :=
       sendWithRetry (mail env) mailOptions "payment-failed"
                     defaultMaxRetries defaultBaseDelay in
     ret result)
    (fun error => throw error).

(** ** The handlers of the webhook route *)

(** A possibly missing string, when it is truthy. *)
Definition nonEmpty (s : option string) : option string :=
  if truthy s then s else None.

Definition received : Response := json (Received None).

(** The [try] block that both payment handlers end with (route, lines
    138-163 and 231-258): save the records, then send the receipt; whatever
    is thrown is logged and dropped. *)
Definition recordAndNotify (data : DonationData.t) (params : DonationEmailParams.t)
  : Js unit :=
  tryCatch
    (saveDonationRecord data ;;
     sendDonationEmail params ;;
     ret tt)
    (fun error => ret tt).

(** The payment method lookup of [handleInvoicePaymentSucceeded] (route,
    lines 201-214), inside its own [try] block. *)
Definition lookupPaymentMethod (paymentIntentId : option string) : Js string :=
  match nonEmpty paymentIntentId with
  | Some piId =>
      tryCatch
        (perform (PaymentIntentsRetrieve piId) ;;
         let* charge := await (paymentIntentsRetrieve env piId) in
         ret (getPaymentMethodType charge))
        (fun err => ret "card")
  | None => ret "card"
  end.

(** [handlePaymentIntentSucceeded] (route, lines 101-166). *)
Definition handlePaymentIntentSucceeded (paymentIntent : PaymentIntent.t) : Js Response :=
  let metadata := PaymentIntent.metadata paymentIntent in
  if (truthy (metadata !! "subscriptionId")
      || truthy (PaymentIntent.invoice paymentIntent))%bool
  then ret received
  else
    let* charge :=
      match nonEmpty (PaymentIntent.latest_charge paymentIntent) with
      | Some chargeId =>
          perform (ChargesRetrieve chargeId) ;;
          let* c := await (chargesRetrieve env chargeId) in
          ret (Some c)
      | None => ret None
      end in
    let billing :=
      match charge with
      | Some c => Charge.billing_details c
      | None => None
      end in
    let donorData_name := orElse (metadata !! "donorName") "Anonymous" in
    let donorData_email :=
      orElse (metadata !! "donorEmail")
             (orElse (match billing with Some b => Charge.email b | None => None end) "") in
    let donorData_phone :=
      orElse (metadata !! "donorPhone")
             (orElse (match billing with Some b => Charge.phone b | None => None end) "") in
    let donorData_amount := (inject_Z (PaymentIntent.amount paymentIntent) / 100)%Q in
    let donorData_currency := toUpperCase (PaymentIntent.currency paymentIntent) in
    let donorData_donationType := orElse (metadata !! "donationType") "General Donation" in
    let donorData_frequency := orElse (metadata !! "frequency") "one-time" in
    let donorData_paymentMethod := getPaymentMethodType charge in
    let donorData_receiptUrl :=
      orElse (match charge with Some c => Charge.receipt_url c | None => None end) "" in
    let donorData_created := PaymentIntent.created paymentIntent * 1000 in
    if String.eqb donorData_email ""
    then ret (json (Received (Some "Missing email")))
    else
      recordAndNotify
        {| DonationData.email := donorData_email;
              DonationData.name := donorData_name;
              DonationData.phone := Some donorData_phone;
              DonationData.amount := donorData_amount;
              DonationData.currency := donorData_currency;
              DonationData.donationType := donorData_donationType;
              DonationData.frequency := Some donorData_frequency;
              DonationData.paymentMethod := donorData_paymentMethod;
              DonationData.isRecurring := false;
              DonationData.stripePaymentIntentId := Some (PaymentIntent.id paymentIntent);
              DonationData.stripeChargeId :=
                match charge with Some c => Some (Charge.id c) | None => None end;
              DonationData.stripeSubscriptionId := None;
              DonationData.receiptUrl := Some donorData_receiptUrl;
              DonationData.created := donorData_created |}
           {| DonationEmailParams.to := donorData_email;
              DonationEmailParams.donorName := donorData_name;
              DonationEmailParams.amount := donorData_amount;
              DonationEmailParams.donationType := donorData_donationType;
              DonationEmailParams.receiptUrl := Some donorData_receiptUrl;
              DonationEmailParams.createdDate := Some donorData_created;
              DonationEmailParams.paymentMethod := Some donorData_paymentMethod;
              DonationEmailParams.currency := Some donorData_currency;
              DonationEmailParams.frequency := Some donorData_frequency;
              DonationEmailParams.isRecurring := false;
              DonationEmailParams.unsubscribeLink := None |} ;;
      ret received.

(** The customer details of lines 186-199: the email, the name and the
    phone, or nothing when the email is missing. *)
Definition customerDetails (invoice : Invoice.t) (subscription : Subscription.t)
           (customer : CustomerResult) : option (string * string * option string) :=
  match customer with
  | LiveCustomer c =>
      Some (orElse (Invoice.customer_email invoice) (orElse (Customer.email c) ""),
            orElse (Customer.name c)
                   (orElse (Subscription.metadata subscription !! "donorName")
                           "Recurring Donor"),
            orOpt (Customer.phone c) (Subscription.metadata subscription !! "donorPhone"))
  | DeletedCustomer =>
      match nonEmpty (Invoice.customer_email invoice) with
      | Some customerEmail => Some (customerEmail, "Recurring Donor", None)
      | None => None
      end
  end.

(** [handleInvoicePaymentSucceeded] (route, lines 168-261).  The two
    lookups of [Promise.all] are both started; when both fail the error of
    the first one is taken. *)
Definition handleInvoicePaymentSucceeded (invoice : Invoice.t) : Js Response :=
  match nonEmpty (Invoice.subscription invoice) with
  | None => ret received
  | Some subscriptionId =>
      perform (SubscriptionsRetrieve subscriptionId) ;;
      perform (CustomersRetrieve (Invoice.customer invoice)) ;;
      let* subscription := await (subscriptionsRetrieve env subscriptionId) in
      let* customer := await (customersRetrieve env (Invoice.customer invoice)) in
      match customerDetails invoice subscription customer with
      | None => ret (json (Received (Some "Missing email")))
      | Some (customerEmail, customerName, customerPhone) =>
          let paymentIntentId := Invoice.payment_intent invoice in
          let* paymentMethod := lookupPaymentMethod paymentIntentId in
          let donationData_amount := (inject_Z (Invoice.amount_paid invoice) / 100)%Q in
          let donationData_currency := toUpperCase (Invoice.currency invoice) in
          let donationData_donationType :=
            orElse (Subscription.metadata subscription !! "donationType")
                   "Recurring Donation" in
          let donationData_frequency :=
            orElse (Subscription.metadata subscription !! "frequency") "monthly" in
          let donationData_receiptUrl := orElse (Invoice.hosted_invoice_url invoice) "" in
          let donationData_created := Invoice.created invoice * 1000 in
          recordAndNotify
               {| DonationData.email := customerEmail;
                  DonationData.name := customerName;
                  DonationData.phone := customerPhone;
                  DonationData.amount := donationData_amount;
                  DonationData.currency := donationData_currency;
                  DonationData.donationType := donationData_donationType;
                  DonationData.frequency := Some donationData_frequency;
                  DonationData.paymentMethod := paymentMethod;
                  DonationData.isRecurring := true;
                  DonationData.stripePaymentIntentId := paymentIntentId;
                  DonationData.stripeChargeId := None;
                  DonationData.stripeSubscriptionId := Some (Subscription.id subscription);
                  DonationData.receiptUrl := Some donationData_receiptUrl;
                  DonationData.created := donationData_created |}
               {| DonationEmailParams.to := customerEmail;
                  DonationEmailParams.donorName := customerName;
                  DonationEmailParams.amount := donationData_amount;
                  DonationEmailParams.donationType := donationData_donationType;
                  DonationEmailParams.receiptUrl := Some donationData_receiptUrl;
                  DonationEmailParams.createdDate := Some donationData_created;
                  DonationEmailParams.paymentMethod := Some paymentMethod;
                  DonationEmailParams.currency := Some donationData_currency;
                  DonationEmailParams.frequency := Some donationData_frequency;
                  DonationEmailParams.isRecurring := true;
                  DonationEmailParams.unsubscribeLink :=
                    Some (siteUrl env ++ "/donations/manage?customer_id="
                                      ++ Invoice.customer invoice) |} ;;
          ret received
      end
  end.

(** The customer lookup that four subscription handlers make inside their
    own [try] block only to log the email. *)
Definition lookupCustomerForLog (subscription : Subscription.t) : Js unit :=
  tryCatch
    (perform (CustomersRetrieve (Subscription.customer subscription)) ;;
     let* customer := await (customersRetrieve env (Subscription.customer subscription)) in
     ret tt)
    (fun error => ret tt).

(** [handleSubscriptionCreated] (route, lines 263-283). *)
Definition handleSubscriptionCreated (subscription : Subscription.t) : Js Response :=
  lookupCustomerForLog subscription ;;
  ret received.

(** [handleSubscriptionUpdated] (route, lines 285-298): logging only. *)
Definition handleSubscriptionUpdated (subscription : Subscription.t) : Js Response :=
  ret received.

(** [handleSubscriptionDeleted] (route, lines 300-319). *)
Definition handleSubscriptionDeleted (subscription : Subscription.t) : Js Response :=
  lookupCustomerForLog subscription ;;
  ret received.

(** [handlePaymentFailed] (route, lines 321-368). *)
Definition handlePaymentFailed (invoice : Invoice.t) : Js Response :=
  let subscriptionId := Invoice.subscription invoice in
  let* found :=
    tryCatch
      (perform (CustomersRetrieve (Invoice.customer invoice)) ;;
       let* customer := await (customersRetrieve env (Invoice.customer invoice)) in
       match customer with
       | LiveCustomer c => ret (Customer.email c, orElse (Customer.name c) "Donor")
       | DeletedCustomer => ret (None, "Donor")
       end)
      (fun error => ret (None, "Donor")) in
  let customerEmail := fst found in
  let customerName := snd found in
  match nonEmpty customerEmail, nonEmpty subscriptionId with
  | Some customerEmail, Some subscriptionId =>
      tryCatch
        (perform (SubscriptionsRetrieve subscriptionId) ;;
         let* subscription := await (subscriptionsRetrieve env subscriptionId) in
         let nextRetryDate :=
           match Invoice.next_payment_attempt invoice with
           | Some t => if t =? 0 then None else Some (t * 1000)
           | None => None
           end in
         sendPaymentFailedEmail
           {| PaymentFailedEmailParams.to := customerEmail;
              PaymentFailedEmailParams.donorName := customerName;
              PaymentFailedEmailParams.invoiceId :=
                match Invoice.id invoice with Some i => i | None => "" end;
              PaymentFailedEmailParams.amount :=
                (inject_Z (Invoice.amount_due invoice) / 100)%Q;
              PaymentFailedEmailParams.currency := toUpperCase (Invoice.currency invoice);
              PaymentFailedEmailParams.hostedInvoiceUrl :=
                Some (orElse (Invoice.hosted_invoice_url invoice) "");
              PaymentFailedEmailParams.billingReason :=
                orElse (Invoice.billing_reason invoice) "subscription_cycle";
              PaymentFailedEmailParams.retryLink := None;
              PaymentFailedEmailParams.nextRetryDate :=
                match nextRetryDate with Some d => d | None => 0 end;
              PaymentFailedEmailParams.updatePaymentUrl :=
                siteUrl env ++ "/donations/update-payment?customer_id="
                        ++ Invoice.customer invoice |} ;;
         ret tt)
        (fun err => ret tt)
  | _, _ => ret tt
  end ;;
  ret received.

(** [handlePaymentActionRequired] (route, lines 370-377): logging only. *)
Definition handlePaymentActionRequired (invoice : Invoice.t) : Js Response :=
  ret received.

(** [handleSubscriptionPastDue] (route, lines 379-399). *)
Definition handleSubscriptionPastDue (subscription : Subscription.t) : Js Response :=
  lookupCustomerForLog subscription ;;
  ret received.

(** [handleSubscriptionUnpaid] (route, lines 401-421). *)
Definition handleSubscriptionUnpaid (subscription : Subscription.t) : Js Response :=
  lookupCustomerForLog subscription ;;
  ret received.

(** The arm of the [switch] that a type string selects, applied to the
    event's object. *)
Definition dispatch (h : Handler) : Payload h -> Js Response :=
  match h with
  | HandlePaymentIntentSucceeded => handlePaymentIntentSucceeded
  | HandleInvoicePaymentSucceeded => handleInvoicePaymentSucceeded
  | HandleSubscriptionCreated => handleSubscriptionCreated
  | HandleSubscriptionUpdated => handleSubscriptionUpdated
  | HandleSubscriptionDeleted => handleSubscriptionDeleted
  | HandlePaymentFailed => handlePaymentFailed
  | HandlePaymentActionRequired => handlePaymentActionRequired
  | HandleSubscriptionPastDue => handleSubscriptionPastDue
  | HandleSubscriptionUnpaid => handleSubscriptionUnpaid
  | Unhandled => fun _ => ret received
  end.

(** The second half of [POST] (route, lines 66-98): the [switch] inside
    the top-level [try]. *)
Definition processEvent (event : Event) : Js Response :=
  tryCatch
    (dispatch (route (type event)) (object event))
    (fun error => ret (jsonWithStatus (Failure "Failed to process webhook") 500)).

(** [POST] (route, lines 41-98).  The body and the headers are awaited
    before the first [try] (lines 42-43): a failure to read them rejects
    the call. *)
Definition POST (req : Request) : Js Response :=
  let* body := await (text req) in
  let* sig := await (stripe_signature req) in
  match nonEmpty sig with
  | None => ret (jsonWithStatus (Failure "Missing Stripe signature") 400)
  | Some sig =>
      let* verified :=
        tryCatch
          (let* event := await (constructEvent env body sig (endpointSecret env)) in
           ret (inl event))
          (fun err => ret (inr (jsonWithStatus (Failure "Invalid signature") 400))) in
      match verified with
      | inr rejection => ret rejection
      | inl event => processEvent event
      end
  end.

End Webhook.

(** * Vocabulary of the properties *)

(** ** Views of the world *)

Definition addEffects (es : list Effect) (w : World) : World :=
  {| emailMetrics := emailMetrics w; donors := donors w;
     donations := donations w; effects := effects w ++ es |}.

Definition withMetrics (m : EmailMetrics) (w : World) : World :=
  {| emailMetrics := m; donors := donors w;
     donations := donations w; effects := effects w |}.

(** The metrics after one more successful send: the counter is bumped and
    the rate is recomputed from the new counters. *)
Definition recomputedRate (sent failed : Z) : Q :=
  if 0 <? sent + failed
  then (inject_Z sent / inject_Z (sent + failed) * 100)%Q
  else 100%Q.

Definition afterSuccess (m : EmailMetrics) : EmailMetrics :=
  {| totalSent := totalSent m + 1; totalFailed := totalFailed m;
     lastFailed := lastFailed m;
     deliveryRate := recomputedRate (totalSent m + 1) (totalFailed m) |}.

Definition afterFailure (m : EmailMetrics) (lf : LastFailed) : EmailMetrics :=
  {| totalSent := totalSent m; totalFailed := totalFailed m + 1;
     lastFailed := Some lf;
     deliveryRate := recomputedRate (totalSent m) (totalFailed m + 1) |}.

(** ** Calls made by the retry loop *)

Section Traces.

Variable env : MailEnv.
Variable mailOptions : MailOptions.
Variable maxRetries : Z.
Variable baseDelay : Q.

(** The wait that follows the failed attempt made at [attempt], if any. *)
Definition waitAfter (attempt : Z) : list Effect :=
  if attempt + 1 <? maxRetries
  then [SetTimeout (backoffDelay env baseDelay (attempt + 1))]
  else [].

(** The calls made by [n] consecutive failed attempts from [attempt] on. *)
Fixpoint failedAttempts (n : nat) (attempt : Z) : list Effect :=
  match n with
  | O => []
  | S n' => TransporterSendMail mailOptions :: waitAfter attempt
            ++ failedAttempts n' (attempt + 1)
  end.

(** The calls of a delivery sequence as the specification describes them:
    every attempt but the last is followed by a wait. *)
Fixpoint schedule (delays : list Q) : list Effect :=
  match delays with
  | [] => [TransporterSendMail mailOptions]
  | d :: ds => TransporterSendMail mailOptions :: SetTimeout d :: schedule ds
  end.

End Traces.

(** The specification's waits: [baseDelay * 2^(a-1) + jitter] after the
    failed attempt numbered [a]; [e] is the exponent [a - 1] of the first
    wait of the list. *)
Fixpoint backoffDelays (baseDelay : Q) (e : Z) (jitters : list Q) : list Q :=
  match jitters with
  | [] => []
  | j :: js => (baseDelay * 2 ^ e + j)%Q :: backoffDelays baseDelay (e + 1) js
  end.

Definition Qsum (l : list Q) : Q := fold_right Qplus 0%Q l.

(** The randomness drawn for the waits after the attempts [e+1 .. e+n]. *)
Fixpoint jittersFrom (env : MailEnv) (e : Z) (n : nat) : list Q :=
  match n with
  | O => []
  | S n' => (mathRandom env e * 500)%Q :: jittersFrom env (e + 1) n'
  end.

(** ** Sequences of delivery sequences *)

(** One call of [sendWithRetry], with what the environment answers to it. *)
Record Call : Type := {
  callEnv : MailEnv;
  callOptions : MailOptions;
  callType : string;
  callMaxRetries : Z;
  callBaseDelay : Q
}.

Definition runCall (c : Call) : Js SendResult :=
  sendWithRetry (callEnv c) (callOptions c) (callType c)
                (callMaxRetries c) (callBaseDelay c).

(** Calls run one after the other, with the completion of each. *)
Fixpoint runCalls (calls : list Call) (w : World) : list (Completion SendResult) * World :=
  match calls with
  | [] => ([], w)
  | c :: cs =>
      let (r, w') := runCall c w in
      let (rs, w'') := runCalls cs w' in
      (r :: rs, w'')
  end.

Definition isSuccess (c : Completion SendResult) : bool :=
  match c with
  | Normal _ => true
  | _ => false
  end.

Definition isExhausted (c : Completion SendResult) : bool :=
  match c with
  | Thrown _ => true
  | _ => false
  end.

(** The rate as the invariant of the specification words it:
    [totalSent / (totalSent + totalFailed) * 100], and 100 when nothing has
    completed. *)
Definition statedDeliveryRate (sent failed : Z) : Q :=
  if sent + failed =? 0
  then 100%Q
  else (inject_Z sent / inject_Z (sent + failed) * 100)%Q.

(** What every reachable metrics record satisfies: the counters are not
    negative and the stored rate is the one computed from them. *)
Definition metricsInv (m : EmailMetrics) : Prop :=
  0 <= totalSent m /\ 0 <= totalFailed m /\
  deliveryRate m = recomputedRate (totalSent m) (totalFailed m).

Definition successes (rs : list (Completion SendResult)) : Z :=
  Z.of_nat (length (List.filter isSuccess rs)).

Definition exhaustions (rs : list (Completion SendResult)) : Z :=
  Z.of_nat (length (List.filter isExhausted rs)).

(** ** Vocabulary of the webhook properties *)

(** The body and the header were read; the request carries no usable
    signature, or verification throws. *)
Definition failsVerification (env : Env) (req : Request) : Prop :=
  exists body header,
    text req = Fulfilled body /\ stripe_signature req = Fulfilled header /\
    (nonEmpty header = None \/
     exists sig err,
       nonEmpty header = Some sig /\
       constructEvent env body sig (endpointSecret env) = Rejected err).

(** The body and the header were read; the request is authenticated and
    decodes to [event]. *)
Definition verifies (env : Env) (req : Request) (event : Event) : Prop :=
  exists body header sig,
    text req = Fulfilled body /\ stripe_signature req = Fulfilled header /\
    nonEmpty header = Some sig /\
    constructEvent env body sig (endpointSecret env) = Fulfilled event.

(** The request was resolved with a 2xx response. *)
Definition acknowledged (r : Completion Response * World) : Prop :=
  exists resp, fst r = Normal resp /\ 200 <= status resp < 300.

(** A computation that never runs out of fuel: it returns or throws. *)
Definition completes {A} (c : Js A) : Prop :=
  forall w, fst (c w) <> OutOfFuel.

Definition isStorageCall (e : Effect) : bool :=
  match e with
  | DonorsGetFirst _ | DonorsUpdate _ | DonorsCreate _ | DonationsCreate _ => true
  | _ => false
  end.

(** The storage calls of a log, in order. *)
Definition storageCalls (es : list Effect) : list Effect := List.filter isStorageCall es.

(** A step that leaves the storage alone: the tables are unchanged and the
    calls it logs are not storage calls. *)
Definition storageUntouched (w w' : World) : Prop :=
  donors w' = donors w /\ donations w' = donations w /\
  exists es, effects w' = (effects w ++ es)%list /\ storageCalls es = [].

(** Events of the two payment types, with their payloads. *)
Definition paymentIntentSucceeded (paymentIntent : PaymentIntent.t) : Event :=
  {| type := "payment_intent.succeeded"; object := paymentIntent |}.

Definition invoicePaymentSucceeded (invoice : Invoice.t) : Event :=
  {| type := "invoice.payment_succeeded"; object := invoice |}.

Definition isRejected {A} (p : Settled A) : bool :=
  match p with
  | Rejected _ => true
  | Fulfilled _ => false
  end.

(** The lookups that a handler awaits outside any [try] block of its own:
    the charge of a one-time payment, and the subscription and customer of
    a recurring invoice. *)
Definition unguardedLookupFails (env : Env) (h : Handler) : Payload h -> bool :=
  match h with
  | HandlePaymentIntentSucceeded => fun paymentIntent =>
      if (truthy (PaymentIntent.metadata paymentIntent !! "subscriptionId")
          || truthy (PaymentIntent.invoice paymentIntent))%bool
      then false
      else match nonEmpty (PaymentIntent.latest_charge paymentIntent) with
           | Some chargeId => isRejected (chargesRetrieve env chargeId)
           | None => false
           end
  | HandleInvoicePaymentSucceeded => fun invoice =>
      match nonEmpty (Invoice.subscription invoice) with
      | Some subscriptionId =>
          (isRejected (subscriptionsRetrieve env subscriptionId)
           || isRejected (customersRetrieve env (Invoice.customer invoice)))%bool
      | None => false
      end
  | _ => fun _ => false
  end.

(** What a handler's completion must be: a throw when one of its unguarded
    lookups is rejected, a 200 response otherwise. *)
Definition handlerOutcome (failed : bool) (c : Completion Response) : Prop :=
  if failed
  then exists e, c = Thrown e
  else exists resp, c = Normal resp /\ status resp = 200.

(** The donors table is keyed by email: the row stored under a key bears
    that email. *)
Definition keyedByEmail (table : gmap string DonorRecord) : Prop :=
  forall k d, table !! k = Some d -> email d = k.

Definition withDonors (table : gmap string DonorRecord) (w : World) : World :=
  {| emailMetrics := emailMetrics w; donors := table;
     donations := donations w; effects := effects w |}.

Definition withDonation (r : DonationRecord) (w : World) : World :=
  {| emailMetrics := emailMetrics w; donors := donors w;
     donations := donations w ++ [r]; effects := effects w |}.

(** What the specification promises of a recurring invoice paid by the
    customer [customerEmail]: the donor row under that email carries the
    new lifetime total, timestamp and frequency, having been updated in
    place if it was there and created otherwise (the storage calls are the
    lookup, then the update or the create, then the creation of the one
    donation), and exactly one donation was added, marked recurring. *)
Definition recurringDonationRecorded (invoice : Invoice.t) (subscription : Subscription.t)
           (customerEmail : string) (w w' : World) : Prop :=
  let paid := (inject_Z (Invoice.amount_paid invoice) / 100)%Q in
  let previous := donors w !! customerEmail in
  exists donor donation,
    donors w' = <[customerEmail := donor]> (donors w) /\
    email donor = customerEmail /\
    totalDonations donor =
      Some (numberOrZero (match previous with
                          | Some d => totalDonations d
                          | None => None
                          end) + paid)%Q /\
    lastDonationDate donor = Some (Invoice.created invoice * 1000) /\
    donationFrequency donor =
      Some (orElse (Subscription.metadata subscription !! "frequency") "monthly") /\
    size (donors w') = match previous with
                       | Some _ => size (donors w)
                       | None => S (size (donors w))
                       end /\
    donations w' = (donations w ++ [donation])%list /\
    isRecurring donation = true /\
    amount donation = paid /\
    donorEmail donation = customerEmail /\
    exists es,
      effects w' = (effects w ++ es)%list /\
      storageCalls es =
        [DonorsGetFirst customerEmail;
         match previous with
         | Some _ => DonorsUpdate customerEmail
         | None => DonorsCreate customerEmail
         end;
         DonationsCreate donation].

(** ** Concrete inputs *)

Definition receiptMail : MailOptions :=
  {| from := "donations@yourchurch.org";
     to := "ada@example.org";
     subject := "Thank you for your Tithe donation";
     html := "<p>Thank you</p>";
     attachments := ["Donation_Receipt_DON-2025-0042.pdf"] |}.

(** A transport that refuses every connection. *)
Definition refusingTransport : MailEnv :=
  {| sendMail := fun _ => Rejected (JsError "ECONNREFUSED");
     mathRandom := fun _ => (1 # 4)%Q;
     now := 1750000000000 |}.

(** A transport that times out twice and then accepts the message. *)
Definition flakyTransport : MailEnv :=
  {| sendMail := fun attempt =>
                   match attempt with
                   | 0 | 1 => Rejected (JsError "ETIMEDOUT")
                   | _ => Fulfilled {| info_messageId := "<1@example.org>" |}
                   end;
     mathRandom := fun _ => (3 # 4)%Q;
     now := 1750000000000 |}.

Definition validSignature : string := "t=1,v1=5257a869".

(** An environment in which the request signed [validSignature] decodes to
    [event], the customer is Ada, and the subscription lookup answers as
    given. *)
Definition exampleEnv (event : Event) (subscriptions : string -> Settled Subscription.t)
  : Env :=
  {| endpointSecret := "whsec_test";
     siteUrl := "https://example.org";
     fromEmail := None;
     constructEvent := fun body sig secret =>
                         if String.eqb sig validSignature
                         then Fulfilled event
                         else Rejected (JsError "No signatures found matching the expected signature");
     chargesRetrieve := fun _ => Rejected (JsError "resource_missing");
     subscriptionsRetrieve := subscriptions;
     customersRetrieve := fun _ =>
                            Fulfilled (LiveCustomer
                                         {| Customer.email := Some "ada@example.org";
                                            Customer.name := Some "Ada";
                                            Customer.phone := None |});
     paymentIntentsRetrieve := fun _ => Fulfilled None;
     storageFault := fun _ => None;
     generateDonationReceiptPDF := Fulfilled "%PDF-1.7";
     renderTemplate := fun _ => Fulfilled "<html></html>";
     receiptNumber := "DON-2025-0042";
     mail := flakyTransport |}.

Definition weeklySubscription (id : string) : Subscription.t :=
  {| Subscription.id := id;
     Subscription.status := "active";
     Subscription.customer := "cus_1";
     Subscription.metadata := {[ "frequency" := "weekly" ]} |}.

Definition subscriptionsUp : string -> Settled Subscription.t :=
  fun id => Fulfilled (weeklySubscription id).

Definition subscriptionsDown : string -> Settled Subscription.t :=
  fun _ => Rejected (JsError "api_connection_error").

Definition signedRequest : Request :=
  {| text := Fulfilled "{}"; stripe_signature := Fulfilled (Some validSignature) |}.

Definition unsignedRequest : Request :=
  {| text := Fulfilled "{}"; stripe_signature := Fulfilled None |}.

Definition refundEvent : Event :=
  {| type := "charge.refunded"; object := tt |}.

(** A payment intent that belongs to a subscription. *)
Definition subscriptionPaymentIntent : PaymentIntent.t :=
  {| PaymentIntent.id := "pi_1";
     PaymentIntent.metadata := {[ "subscriptionId" := "sub_1" ]};
     PaymentIntent.invoice := None;
     PaymentIntent.latest_charge := Some "ch_1";
     PaymentIntent.amount := 2500;
     PaymentIntent.currency := "usd";
     PaymentIntent.created := 1750000000 |}.

(** A recurring invoice of Ada's subscription, for the given amount. *)
Definition recurringInvoice (amount_paid : Z) : Invoice.t :=
  {| Invoice.id := Some "in_1";
     Invoice.subscription := Some "sub_1";
     Invoice.customer := "cus_1";
     Invoice.customer_email := Some "ada@example.org";
     Invoice.payment_intent := None;
     Invoice.amount_paid := amount_paid;
     Invoice.amount_due := amount_paid;
     Invoice.currency := "usd";
     Invoice.hosted_invoice_url := None;
     Invoice.created := 1750000000;
     Invoice.next_payment_attempt := None;
     Invoice.billing_reason := Some "subscription_cycle" |}.

Definition ada : DonorRecord :=
  {| name := Some "Ada";
     email := "ada@example.org";
     phone := None;
     totalDonations := Some 100%Q;
     lastDonationDate := Some 1740000000000;
     donationFrequency := Some "monthly" |}.

(** Ada's recurring invoice of 25.00, with the processor's API up. *)
Definition recurringEnv : Env :=
  exampleEnv (invoicePaymentSucceeded (recurringInvoice 2500)) subscriptionsUp.

(** The same for an invoice of which nothing was paid. *)
Definition zeroInvoiceEnv : Env :=
  exampleEnv (invoicePaymentSucceeded (recurringInvoice 0)) subscriptionsUp.

(** Ada's recurring invoice of 25.00 while the subscription lookup fails. *)
Definition outageEnv : Env :=
  exampleEnv (invoicePaymentSucceeded (recurringInvoice 2500)) subscriptionsDown.

(** A world in which Ada has already given. *)
Definition worldWithAda : World :=
  {| emailMetrics := initialMetrics;
     donors := {[ "ada@example.org" := ada ]};
     donations := [];
     effects := [] |}.

(** * More of the code *)

(** ** email.ts: the other exported functions *)

(** [getEmailMetrics] (email.ts, lines 141-143) hands out the module's
    metrics object. *)
Definition getEmailMetrics : Js EmailMetrics := getMetrics.

Module AppointmentEmailParams.
Record t : Type := {
  to : string;
  fullName : string;
  preferredDate : string;
  preferredTime : string;
  medium : string;
  newYorkDate : string;
  newYorkTime : string;
  timeDifference : string
}.
End AppointmentEmailParams.

Module MessageNotificationParams.
Record t : Type := {
  to : string;
  fullName : string;
  email : string;
  subject : option string;
  message : string;
  adminName : option string
}.
End MessageNotificationParams.

Module EventRegistrationParams.
Record t : Type := {
  to : string;
  fullName : string;
  eventName : string;
  eventDate : string;
  eventTime : string;
  eventLocation : string;
  additionalDetails : option string;
  contactEmail : option string;
  contactPhone : option string
}.
End EventRegistrationParams.

Module ReminderEmailParams.
Record t : Type := {
  to : string;
  fullName : string;
  preferredDate : string;
  preferredTime : string;
  medium : string;
  newYorkDate : string;
  newYorkTime : string;
  timeDifference : string;
  meetingLink : string;
  rescheduleLink : string;
  cancelLink : string;
  unsubscribeLink : string
}.
End ReminderEmailParams.

Section OtherMailers.

Variable env : Env.

(** [sendAppointmentEmail] (email.ts, lines 246-296).  Reading the template
    file and rendering it with [ejs] is what the oracle [renderTemplate]
    answers for the template's name. *)
Definition sendAppointmentEmail (params : AppointmentEmailParams.t) : Js SendResult :=
  tryCatch
    (let* html := await (renderTemplate env "appointment-confirmation") in
     let mailOptions :=
       {| from := orElse (fromEmail env) "no-reply@efgbcssl.org";
          to := AppointmentEmailParams.to params;
          subject := "Your Appointment Confirmation - "
                     ++ AppointmentEmailParams.preferredDate params ++ " at "
                     ++ AppointmentEmailParams.preferredTime params;
          html := html;
          attachments := [] |} in
     let* result :=
       sendWithRetry (mail env) mailOptions "appointment-confirmation"
                     defaultMaxRetries defaultBaseDelay in
     ret result)
    (fun error => throw error).

(** [sendMessageNotificationEmail] (email.ts, lines 328-370). *)
Definition sendMessageNotificationEmail (params : MessageNotificationParams.t)
  : Js SendResult :=
  tryCatch
    (let* html := await (renderTemplate env "message-notification") in
     let mailOptions :=
       {| from := orElse (fromEmail env) "notifications@efgbcssl.org";
          to := MessageNotificationParams.to params;
          subject := "New Message: "
                     ++ orElse (MessageNotificationParams.subject params)
                               "Contact Form Submission";
          html := html;
          attachments := [] |} in
     let* result :=
       sendWithRetry (mail env) mailOptions "message-notification"
                     defaultMaxRetries defaultBaseDelay in
     ret result)
    (fun error => throw error).

(** [sendEventRegistrationEmail] (email.ts, lines 372-420). *)
Definition sendEventRegistrationEmail (params : EventRegistrationParams.t)
  : Js SendResult :=
  tryCatch
    (let* html := await (renderTemplate env "event-registration") in
     let mailOptions :=
       {| from := orElse (fromEmail env) "events@yourdomain.com";
          to := EventRegistrationParams.to params;
          subject := "Registration Confirmation: "
                     ++ EventRegistrationParams.eventName params;
          html := html;
          attachments := [] |} in
     let* result :=
       sendWithRetry (mail env) mailOptions "event-registration"
                     defaultMaxRetries defaultBaseDelay in
     ret result)
    (fun error => throw error).

(** [sendReminderEmail] (email.ts, lines 422-486). *)
Definition sendReminderEmail (params : ReminderEmailParams.t) : Js SendResult :=
  tryCatch
    (let* html := await (renderTemplate env "appointment-reminder") in
     let mailOptions :=
       {| from := orElse (fromEmail env) "no-reply@efgbcssl.org";
          to := ReminderEmailParams.to params;
          subject := "Reminder: Your Upcoming Appointment - "
                     ++ ReminderEmailParams.preferredDate params ++ " at "
                     ++ ReminderEmailParams.preferredTime params;
          html := html;
          attachments := [] |} in
     let* result :=
       sendWithRetry (mail env) mailOptions "appointment-reminder"
                     defaultMaxRetries defaultBaseDelay in
     ret result)
    (fun error => throw error).

End OtherMailers.

(** ** The sign-in route: the [redirect] callback *)

(** [redirect] (auth route, lines 128-132).  [origin] stands for
    [new URL(url).origin], which throws on a string that is not a URL. *)
Definition redirect (origin : string -> option string) (url baseUrl : string)
  : Completion string :=
  if String.prefix "/" url then Normal (baseUrl ++ url)
  else match origin url with
       | None => Thrown (JsError "Invalid URL")
       | Some o => if String.eqb o baseUrl then Normal url else Normal baseUrl
       end.

(** ** Vocabulary of the further properties *)

(** The six exported mail functions, each with its argument. *)
Inductive Mailer : Type :=
| DonationMail (params : DonationEmailParams.t)
| PaymentFailedMail (params : PaymentFailedEmailParams.t)
| AppointmentMail (params : AppointmentEmailParams.t)
| MessageNotificationMail (params : MessageNotificationParams.t)
| EventRegistrationMail (params : EventRegistrationParams.t)
| ReminderMail (params : ReminderEmailParams.t).

Definition runMailer (env : Env) (m : Mailer) : Js SendResult :=
  match m with
  | DonationMail params => sendDonationEmail env params
  | PaymentFailedMail params => sendPaymentFailedEmail env params
  | AppointmentMail params => sendAppointmentEmail env params
  | MessageNotificationMail params => sendMessageNotificationEmail env params
  | EventRegistrationMail params => sendEventRegistrationEmail env params
  | ReminderMail params => sendReminderEmail env params
  end.

(** The message-type label that each function passes to [sendWithRetry]. *)
Definition mailerLabel (m : Mailer) : string :=
  match m with
  | DonationMail _ => "donation-receipt"
  | PaymentFailedMail _ => "payment-failed"
  | AppointmentMail _ => "appointment-confirmation"
  | MessageNotificationMail _ => "message-notification"
  | EventRegistrationMail _ => "event-registration"
  | ReminderMail _ => "appointment-reminder"
  end.

(** The template that each function renders. *)
Definition mailerTemplate (m : Mailer) : string :=
  match m with
  | DonationMail _ => "donation-receipt"
  | PaymentFailedMail _ => "payment-failed"
  | AppointmentMail _ => "appointment-confirmation"
  | MessageNotificationMail _ => "message-notification"
  | EventRegistrationMail _ => "event-registration"
  | ReminderMail _ => "appointment-reminder"
  end.

(** The [to] of each function's argument. *)
Definition mailerRecipient (m : Mailer) : string :=
  match m with
  | DonationMail params => DonationEmailParams.to params
  | PaymentFailedMail params => PaymentFailedEmailParams.to params
  | AppointmentMail params => AppointmentEmailParams.to params
  | MessageNotificationMail params => MessageNotificationParams.to params
  | EventRegistrationMail params => EventRegistrationParams.to params
  | ReminderMail params => ReminderEmailParams.to params
  end.

(** The error of the first preparation step that fails, if any: the PDF
    receipt (donations only), then the template. *)
Definition preparationError (env : Env) (m : Mailer) : option JsValue :=
  match m, generateDonationReceiptPDF env with
  | DonationMail _, Rejected e => Some e
  | _, _ =>
      match renderTemplate env (mailerTemplate m) with
      | Rejected e => Some e
      | Fulfilled _ => None
      end
  end.

Definition isTransportCall (e : Effect) : bool :=
  match e with
  | TransporterSendMail _ => true
  | _ => false
  end.

(** The transport calls of a log, in order. *)
Definition transportCalls (es : list Effect) : list Effect :=
  List.filter isTransportCall es.

Definition isMailDispatch (e : Effect) : bool :=
  match e with
  | SendDonationEmail _ | SendPaymentFailedEmail _ | TransporterSendMail _ => true
  | _ => false
  end.

(** The calls of a log that belong to mail dispatch, in order. *)
Definition mailCalls (es : list Effect) : list Effect := List.filter isMailDispatch es.

(** The snapshot that the metrics hold after the given calls completed as
    given, starting from [previous]: the one of the last call that threw. *)
Fixpoint snapshotAfter (previous : option LastFailed) (calls : list Call)
         (rs : list (Completion SendResult)) : option LastFailed :=
  match calls, rs with
  | c :: cs, r :: rs' =>
      snapshotAfter
        (match r with
         | Thrown e =>
             Some {| emailType := callType c; recipient := to (callOptions c);
                     error := e; timestamp := now (callEnv c) |}
         | _ => previous
         end) cs rs'
  | _, _ => previous
  end.

(** A computation whose every run relates the world before to the world
    after by [R]. *)
Definition respects (R : World -> World -> Prop) {A} (c : Js A) : Prop :=
  forall w, R w (snd (c w)).

(** The storage calls of one save, in order: the lookup of the donor,
    then one donor write, then the creation of one donation; the sequence
    may stop after any of them. *)
Definition isOneSave (calls : list Effect) : bool :=
  match calls with
  | [] => true
  | DonorsGetFirst _ :: written =>
      match written with
      | [] => true
      | DonorsUpdate _ :: created | DonorsCreate _ :: created =>
          match created with
          | [] | [DonationsCreate _] => true
          | _ => false
          end
      | _ => false
      end
  | _ => false
  end.

(** Between the two worlds at most one save was made: the storage calls
    that were logged are those of one save or none, at most one donor row
    differs and at most one donation was added. *)
Definition atMostOneSave (w w' : World) : Prop :=
  (exists es,
      effects w' = (effects w ++ es)%list /\ isOneSave (storageCalls es) = true) /\
  (exists k, forall k', k' <> k -> donors w' !! k' = donors w !! k') /\
  (donations w' = donations w \/ exists d, donations w' = (donations w ++ [d])%list).

(** Relations between the world before and after a request. *)
Definition metricsAdvance (w w' : World) : Prop :=
  (metricsInv (emailMetrics w) -> metricsInv (emailMetrics w')) /\
  totalSent (emailMetrics w) <= totalSent (emailMetrics w') /\
  totalFailed (emailMetrics w) <= totalFailed (emailMetrics w') /\
  (is_Some (lastFailed (emailMetrics w)) -> is_Some (lastFailed (emailMetrics w'))).

(** The body and status of [{ received: true, error: 'Missing email' }]. *)
Definition missingEmail : Response := json (Received (Some "Missing email")).

(** The email that [handlePaymentIntentSucceeded] resolves: the metadata's,
    else the charge's billing email, else the empty string. *)
Definition oneTimeDonorEmail (paymentIntent : PaymentIntent.t) (charge : option Charge.t)
  : string :=
  orElse (PaymentIntent.metadata paymentIntent !! "donorEmail")
         (orElse (match charge with
                  | Some c =>
                      match Charge.billing_details c with
                      | Some b => Charge.email b
                      | None => None
                      end
                  | None => None
                  end) "").

(** The charge that [handlePaymentIntentSucceeded] works with, when the
    lookup (if any) succeeds. *)
Definition chargeLookedUp (env : Env) (paymentIntent : PaymentIntent.t)
           (charge : option Charge.t) : Prop :=
  match nonEmpty (PaymentIntent.latest_charge paymentIntent) with
  | Some chargeId => exists c, chargesRetrieve env chargeId = Fulfilled c /\ charge = Some c
  | None => charge = None
  end.

(** The guard of [handlePaymentIntentSucceeded] that defers subscription
    payments to the invoice event. *)
Definition belongsToSubscription (paymentIntent : PaymentIntent.t) : bool :=
  (truthy (PaymentIntent.metadata paymentIntent !! "subscriptionId")
   || truthy (PaymentIntent.invoice paymentIntent))%bool.

(** What a recorded one-time payment leaves behind. *)
Definition oneTimeDonationRecorded (paymentIntent : PaymentIntent.t) (donorEmail' : string)
           (w w' : World) : Prop :=
  let paid := (inject_Z (PaymentIntent.amount paymentIntent) / 100)%Q in
  let previous := donors w !! donorEmail' in
  exists donor donation,
    donors w' = <[donorEmail' := donor]> (donors w) /\
    email donor = donorEmail' /\
    totalDonations donor =
      Some (numberOrZero (match previous with
                          | Some d => totalDonations d
                          | None => None
                          end) + paid)%Q /\
    lastDonationDate donor = Some (PaymentIntent.created paymentIntent * 1000) /\
    donations w' = (donations w ++ [donation])%list /\
    isRecurring donation = false /\
    amount donation = paid /\
    donorEmail donation = donorEmail' /\
    stripePaymentIntentId donation = Some (PaymentIntent.id paymentIntent) /\
    paymentStatus donation = "succeeded" /\
    exists es,
      effects w' = (effects w ++ es)%list /\
      storageCalls es =
        [DonorsGetFirst donorEmail';
         match previous with
         | Some _ => DonorsUpdate donorEmail'
         | None => DonorsCreate donorEmail'
         end;
         DonationsCreate donation].

(** What the [try] block of [saveDonationRecord] throws, if it does: the
    rejection of the first database call that fails ([getFirst], then
    [update] for a donor that was found or [create] for one that was not,
    then [donations.create]), or the [Error] for an update that answers
    [null]. *)
Definition firstFailure (env : Env) (data : DonationData.t) (w : World) : option JsValue :=
  match storageFault env OpDonorsGetFirst with
  | Some err => Some err
  | None =>
      match donors w !! DonationData.email data with
      | Some d =>
          match storageFault env OpDonorsUpdate with
          | Some err => Some err
          | None =>
              match donors w !! email d with
              | Some _ => storageFault env OpDonationsCreate
              | None => Some (JsError "Failed to create or update donor record")
              end
          end
      | None =>
          match storageFault env OpDonorsCreate with
          | Some err => Some err
          | None => storageFault env OpDonationsCreate
          end
      end
  end.

(** ** Further concrete inputs *)

Definition noFaults : StorageOp -> option JsValue := fun _ => None.

(** The database refuses to create donations. *)
Definition donationsTableDown : StorageOp -> option JsValue :=
  fun op => match op with
            | OpDonationsCreate => Some (JsError "table unavailable")
            | _ => None
            end.

(** A charge paid by card, with or without a billing email. *)
Definition cardCharge (billingEmail : option string) : Charge.t :=
  {| Charge.id := "ch_1";
     Charge.billing_details :=
       Some {| Charge.email := billingEmail; Charge.phone := None |};
     Charge.receipt_url := Some "https://pay.example.org/receipts/1";
     Charge.payment_method_details :=
       Some {| Charge.card := Some {| Charge.brand := "visa"; Charge.last4 := "4242" |};
               Charge.type := Some "card" |} |}.

(** A one-time payment of 40.00 without donor metadata. *)
Definition oneTimePaymentIntent : PaymentIntent.t :=
  {| PaymentIntent.id := "pi_2";
     PaymentIntent.metadata := ∅;
     PaymentIntent.invoice := None;
     PaymentIntent.latest_charge := Some "ch_1";
     PaymentIntent.amount := 4000;
     PaymentIntent.currency := "usd";
     PaymentIntent.created := 1750000000 |}.

(** A transport that accepts the first attempt. *)
Definition workingTransport : MailEnv :=
  {| sendMail := fun _ => Fulfilled {| info_messageId := "<2@example.org>" |};
     mathRandom := fun _ => (1 # 2)%Q;
     now := 1750000000000 |}.

Definition reminderParams : ReminderEmailParams.t :=
  {| ReminderEmailParams.to := "bob@example.org";
     ReminderEmailParams.fullName := "Bob";
     ReminderEmailParams.preferredDate := "2025-07-01";
     ReminderEmailParams.preferredTime := "10:00";
     ReminderEmailParams.medium := "video";
     ReminderEmailParams.newYorkDate := "2025-07-01";
     ReminderEmailParams.newYorkTime := "04:00";
     ReminderEmailParams.timeDifference := "6 hours behind of your local time";
     ReminderEmailParams.meetingLink := "https://example.org/meet/1";
     ReminderEmailParams.rescheduleLink := "https://example.org/reschedule/1";
     ReminderEmailParams.cancelLink := "https://example.org/cancel/1";
     ReminderEmailParams.unsubscribeLink := "https://example.org/unsubscribe/1" |}.

(** An invoice without a subscription (a one-off invoice). *)
Definition oneOffInvoice : Invoice.t :=
  {| Invoice.id := Some "in_2";
     Invoice.subscription := None;
     Invoice.customer := "cus_1";
     Invoice.customer_email := Some "ada@example.org";
     Invoice.payment_intent := None;
     Invoice.amount_paid := 1500;
     Invoice.amount_due := 1500;
     Invoice.currency := "usd";
     Invoice.hosted_invoice_url := None;
     Invoice.created := 1750000000;
     Invoice.next_payment_attempt := None;
     Invoice.billing_reason := Some "manual" |}.

(** An [invoice.payment_failed] event with its payload. *)
Definition invoicePaymentFailed (invoice : Invoice.t) : Event :=
  {| type := "invoice.payment_failed"; object := invoice |}.

(** The address that [handlePaymentFailed] resolves for its notice: the
    email of the customer, when the lookup succeeds and the customer is not
    deleted. *)
Definition failedPaymentRecipient (env : Env) (invoice : Invoice.t) : option string :=
  match customersRetrieve env (Invoice.customer invoice) with
  | Fulfilled (LiveCustomer c) => nonEmpty (Customer.email c)
  | _ => None
  end.

(** The arms of the [switch] that only log. *)
Definition onlyLogs (h : Handler) : bool :=
  match h with
  | HandleSubscriptionCreated | HandleSubscriptionUpdated | HandleSubscriptionDeleted
  | HandlePaymentActionRequired | HandleSubscriptionPastDue | HandleSubscriptionUnpaid
  | Unhandled => true
  | _ => false
  end.

(** The metrics are those of before. *)
Definition sameMetrics (w w' : World) : Prop := emailMetrics w' = emailMetrics w.

(** Donation data as a handler prepares it. *)
Definition exampleDonationData (donorEmail' : string) (cents : Z) : DonationData.t :=
  {| DonationData.email := donorEmail';
     DonationData.name := "Ada";
     DonationData.phone := None;
     DonationData.amount := (inject_Z cents / 100)%Q;
     DonationData.currency := "USD";
     DonationData.donationType := "Tithe";
     DonationData.frequency := Some "one-time";
     DonationData.paymentMethod := "card";
     DonationData.isRecurring := false;
     DonationData.stripePaymentIntentId := Some "pi_2";
     DonationData.stripeChargeId := Some "ch_1";
     DonationData.stripeSubscriptionId := None;
     DonationData.receiptUrl := None;
     DonationData.created := 1750000000000 |}.

Definition adaIsLive : string -> Settled CustomerResult :=
  fun _ => Fulfilled (LiveCustomer {| Customer.email := Some "ada@example.org";
                                      Customer.name := Some "Ada";
                                      Customer.phone := None |}).

Definition customerDeleted : string -> Settled CustomerResult :=
  fun _ => Fulfilled DeletedCustomer.

(** An environment with every collaborator given. *)
Definition exampleEnvOf (event : Event) (faults : StorageOp -> option JsValue)
           (charges : string -> Settled Charge.t)
           (customers : string -> Settled CustomerResult) (transport : MailEnv) : Env :=
  {| endpointSecret := "whsec_test";
     siteUrl := "https://example.org";
     fromEmail := None;
     constructEvent := fun body sig secret =>
                         if String.eqb sig validSignature
                         then Fulfilled event
                         else Rejected (JsError "No signatures found matching the expected signature");
     chargesRetrieve := charges;
     subscriptionsRetrieve := subscriptionsUp;
     customersRetrieve := customers;
     paymentIntentsRetrieve := fun _ => Fulfilled None;
     storageFault := faults;
     generateDonationReceiptPDF := Fulfilled "%PDF-1.7";
     renderTemplate := fun _ => Fulfilled "<html></html>";
     receiptNumber := "DON-2025-0042";
     mail := transport |}.

Definition chargesDown : string -> Settled Charge.t :=
  fun _ => Rejected (JsError "resource_missing").

(** A recurring invoice that carries no customer email. *)
Definition anonymousInvoice : Invoice.t :=
  {| Invoice.id := Some "in_3";
     Invoice.subscription := Some "sub_1";
     Invoice.customer := "cus_9";
     Invoice.customer_email := None;
     Invoice.payment_intent := None;
     Invoice.amount_paid := 2500;
     Invoice.amount_due := 2500;
     Invoice.currency := "usd";
     Invoice.hosted_invoice_url := None;
     Invoice.created := 1750000000;
     Invoice.next_payment_attempt := None;
     Invoice.billing_reason := Some "subscription_cycle" |}.

Definition subscriptionDeletedEvent : Event :=
  {| type := "customer.subscription.deleted"; object := weeklySubscription "sub_1" |}.

(** The environments of the examples: one event each, signed
    [validSignature]. *)

(** A one-time payment whose charge has the given billing email. *)
Definition oneTimeEnv (billingEmail : option string) : Env :=
  exampleEnvOf (paymentIntentSucceeded oneTimePaymentIntent) noFaults
               (fun _ => Fulfilled (cardCharge billingEmail)) adaIsLive workingTransport.

(** Ada's recurring invoice while donations cannot be created. *)
Definition donationsDownEnv : Env :=
  exampleEnvOf (invoicePaymentSucceeded (recurringInvoice 2500)) donationsTableDown
               chargesDown adaIsLive workingTransport.

(** Ada's recurring invoice while the mail transport refuses. *)
Definition undeliverableEnv : Env :=
  exampleEnvOf (invoicePaymentSucceeded (recurringInvoice 2500)) noFaults
               chargesDown adaIsLive refusingTransport.

Definition oneOffEnv : Env :=
  exampleEnvOf (invoicePaymentSucceeded oneOffInvoice) noFaults
               chargesDown adaIsLive workingTransport.

Definition anonymousEnv : Env :=
  exampleEnvOf (invoicePaymentSucceeded anonymousInvoice) noFaults
               chargesDown customerDeleted workingTransport.

(** A failed payment of Ada's recurring invoice, with the customer lookup
    as given. *)
Definition failedPaymentEnv (customers : string -> Settled CustomerResult) : Env :=
  exampleEnvOf (invoicePaymentFailed (recurringInvoice 2500)) noFaults
               chargesDown customers workingTransport.

(** An environment whose templates cannot be read. *)
Definition brokenTemplatesEnv : Env :=
  {| endpointSecret := "whsec_test";
     siteUrl := "https://example.org";
     fromEmail := None;
     constructEvent := fun body sig secret => Fulfilled refundEvent;
     chargesRetrieve := chargesDown;
     subscriptionsRetrieve := subscriptionsUp;
     customersRetrieve := adaIsLive;
     paymentIntentsRetrieve := fun _ => Fulfilled None;
     storageFault := noFaults;
     generateDonationReceiptPDF := Fulfilled "%PDF-1.7";
     renderTemplate := fun _ => Rejected (JsError "ENOENT: no such file or directory");
     receiptNumber := "DON-2025-0042";
     mail := workingTransport |}.

(** A URL parser for two sites: the origin of the site itself and of its
    pages, and the origin of a foreign site. *)
Definition exampleOrigin (url : string) : option string :=
  if (String.eqb url "https://fgssl.example.org"
      || String.prefix "https://fgssl.example.org/" url)%bool
  then Some "https://fgssl.example.org"
  else if String.prefix "https://evil.example.com" url
       then Some "https://evil.example.com"
       else None.

(** * Properties *)

(** ** Views of the world *)

Lemma addEffects_nil w : addEffects [] w = w.
Proof. destruct w; unfold addEffects; simpl. now rewrite app_nil_r. Qed.

Lemma addEffects_app es1 es2 w :
  addEffects es2 (addEffects es1 w) = addEffects (es1 ++ es2) w.
Proof. unfold addEffects; simpl. now rewrite app_assoc. Qed.

Lemma withMetrics_addEffects m es w :
  withMetrics m (addEffects es w) = addEffects es (withMetrics m w).
Proof. reflexivity. Qed.

(** ** The retry loop *)

Section RetryLoop.

Variable env : MailEnv.
Variable mailOptions : MailOptions.
Variable maxRetries : Z.
Variable baseDelay : Q.

Local Abbreviation once := (attemptOnce env mailOptions maxRetries baseDelay).
Local Abbreviation loop := (retryLoop env mailOptions maxRetries baseDelay).
Local Abbreviation waitAfter := (waitAfter env maxRetries baseDelay).
Local Abbreviation failedAttempts := (failedAttempts env mailOptions maxRetries baseDelay).

Lemma attemptOnce_fulfilled attempt lastError info w :
  sendMail env attempt = Fulfilled info ->
  once attempt lastError w =
    (Normal (Return {| success := true; messageId := info_messageId info;
                       attempts := attempt + 1 |}),
     withMetrics (afterSuccess (emailMetrics w))
                 (addEffects [TransporterSendMail mailOptions] w)).
Proof.
  intros H. unfold attemptOnce, tryCatch, transporterSendMail, bind, perform.
  rewrite H. reflexivity.
Qed.

Lemma attemptOnce_rejected attempt lastError err w :
  sendMail env attempt = Rejected err ->
  once attempt lastError w =
    (Normal (Continue (attempt + 1) err),
     addEffects (TransporterSendMail mailOptions :: waitAfter attempt) w).
Proof.
  intros H. unfold attemptOnce, tryCatch, transporterSendMail, bind, perform.
  rewrite H. simpl. unfold waitAfter.
  destruct (attempt + 1 <? maxRetries); unfold addEffects; simpl.
  - now rewrite <- app_assoc.
  - reflexivity.
Qed.

Lemma retryLoop_exit fuel attempt lastError w :
  maxRetries <= attempt ->
  loop (S fuel) attempt lastError w = (Normal (inr lastError), w).
Proof.
  intros H. simpl. apply Z.ltb_ge in H. now rewrite H.
Qed.

Lemma retryLoop_fulfilled fuel attempt lastError info w :
  attempt < maxRetries ->
  sendMail env attempt = Fulfilled info ->
  loop (S fuel) attempt lastError w =
    (Normal (inl {| success := true; messageId := info_messageId info;
                    attempts := attempt + 1 |}),
     withMetrics (afterSuccess (emailMetrics w))
                 (addEffects [TransporterSendMail mailOptions] w)).
Proof.
  intros Hlt H. simpl. apply Z.ltb_lt in Hlt. rewrite Hlt.
  unfold bind at 1. now rewrite (attemptOnce_fulfilled _ _ _ _ H).
Qed.

Lemma retryLoop_rejected fuel attempt lastError err w :
  attempt < maxRetries ->
  sendMail env attempt = Rejected err ->
  loop (S fuel) attempt lastError w =
    loop fuel (attempt + 1) err
              (addEffects (TransporterSendMail mailOptions :: waitAfter attempt) w).
Proof.
  intros Hlt H. simpl. apply Z.ltb_lt in Hlt. rewrite Hlt.
  unfold bind at 1. now rewrite (attemptOnce_rejected _ _ _ _ H).
Qed.

(** When every remaining attempt is rejected the loop leaves through its
    guard with the last error, and the metrics are untouched. *)
Lemma retryLoop_all_rejected (errs : Z -> JsValue) n :
  forall fuel attempt lastError w,
    Z.of_nat n = maxRetries - attempt ->
    (n < fuel)%nat ->
    (forall i, attempt <= i < maxRetries -> sendMail env i = Rejected (errs i)) ->
    loop fuel attempt lastError w =
      (Normal (inr (match n with O => lastError | S _ => errs (maxRetries - 1) end)),
       addEffects (failedAttempts n attempt) w).
Proof.
  induction n as [|n IH]; intros fuel attempt lastError w Hn Hfuel Hrej;
    destruct fuel as [|fuel]; try lia.
  - rewrite retryLoop_exit by lia. simpl. now rewrite addEffects_nil.
  - rewrite (retryLoop_rejected _ _ _ (errs attempt)) by (try apply Hrej; lia).
    rewrite (IH fuel (attempt + 1)) by (try lia; intros; apply Hrej; lia).
    rewrite addEffects_app. simpl.
    destruct n; [replace attempt with (maxRetries - 1) by lia|]; reflexivity.
Qed.

(** When the attempts before [k] are rejected and the one at [k] is
    accepted, the function returns from inside the loop. *)
Lemma retryLoop_succeeds_at (k : Z) info n :
  forall fuel attempt lastError w,
    Z.of_nat n = k - attempt ->
    k < maxRetries ->
    (n < fuel)%nat ->
    (forall i, attempt <= i < k -> exists err, sendMail env i = Rejected err) ->
    sendMail env k = Fulfilled info ->
    loop fuel attempt lastError w =
      (Normal (inl {| success := true; messageId := info_messageId info;
                      attempts := k + 1 |}),
       withMetrics (afterSuccess (emailMetrics w))
                   (addEffects (failedAttempts n attempt
                                ++ [TransporterSendMail mailOptions]) w)).
Proof.
  induction n as [|n IH]; intros fuel attempt lastError w Hn Hk Hfuel Hrej Hok;
    destruct fuel as [|fuel]; try lia.
  - assert (attempt = k) by lia. subst attempt.
    now rewrite (retryLoop_fulfilled _ _ _ info) by (assumption || lia).
  - destruct (Hrej attempt) as [err Herr]; [lia|].
    rewrite (retryLoop_rejected _ _ _ err) by (assumption || lia).
    rewrite (IH fuel (attempt + 1)) by (try assumption; try lia; intros; apply Hrej; lia).
    rewrite addEffects_app. simpl. now rewrite <- app_assoc.
Qed.

(** Whatever the transport answers, the loop ends, after some number [k]
    of rejected attempts, either by returning from the [try] block or by
    leaving through the guard once the attempts are used up. *)
Lemma retryLoop_cases n :
  forall fuel attempt lastError w,
    Z.to_nat (maxRetries - attempt) = n ->
    (n < fuel)%nat ->
    exists k : nat,
      (forall i, attempt <= i < attempt + Z.of_nat k ->
                 exists err, sendMail env i = Rejected err) /\
      ((exists result info,
           attempt + Z.of_nat k < maxRetries /\
           sendMail env (attempt + Z.of_nat k) = Fulfilled info /\
           loop fuel attempt lastError w =
             (Normal (inl result),
              withMetrics (afterSuccess (emailMetrics w))
                          (addEffects (failedAttempts k attempt
                                       ++ [TransporterSendMail mailOptions]) w)))
       \/
       (exists lastError',
           k = n /\
           loop fuel attempt lastError w =
             (Normal (inr lastError'), addEffects (failedAttempts k attempt) w))).
Proof.
  induction n as [|n IH]; intros fuel attempt lastError w Hn Hfuel;
    destruct fuel as [|fuel]; try lia.
  - exists 0%nat. split; [intros; lia|]. right. exists lastError. split; [reflexivity|].
    rewrite retryLoop_exit by lia. simpl. now rewrite addEffects_nil.
  - destruct (sendMail env attempt) as [info|err] eqn:Hsend.
    + exists 0%nat. split; [intros; lia|]. left. eexists. exists info.
      rewrite Z.add_0_r. split; [lia|]. split; [assumption|].
      now rewrite (retryLoop_fulfilled _ _ _ info) by (assumption || lia).
    + rewrite (retryLoop_rejected _ _ _ err) by (assumption || lia).
      destruct (IH fuel (attempt + 1) err
                   (addEffects (TransporterSendMail mailOptions :: waitAfter attempt) w))
        as [k [Hfailed [(result & info & Hk & Hinfo & Hloop) | (lastError' & Hk & Hloop)]]];
        try lia.
      * exists (S k). split.
        { intros i Hi. destruct (Z.eq_dec i attempt) as [->|Hne];
            [now exists err | apply Hfailed; lia]. }
        left. exists result, info.
        replace (attempt + Z.of_nat (S k)) with (attempt + 1 + Z.of_nat k) by lia.
        split; [lia|]. split; [assumption|].
        rewrite Hloop, addEffects_app. simpl. now rewrite <- app_assoc.
      * exists (S k). split.
        { intros i Hi. destruct (Z.eq_dec i attempt) as [->|Hne];
            [now exists err | apply Hfailed; lia]. }
        right. exists lastError'. split; [lia|].
        rewrite Hloop, addEffects_app. reflexivity.
Qed.

(** When the last of [S k] rejected attempts uses up the attempts, no wait
    follows it. *)
Lemma failedAttempts_last k :
  forall attempt,
    attempt + Z.of_nat (S k) = maxRetries ->
    failedAttempts (S k) attempt =
      (failedAttempts k attempt ++ [TransporterSendMail mailOptions])%list.
Proof.
  induction k as [|k IH]; intros attempt H.
  - simpl. unfold waitAfter.
    replace (attempt + 1 <? maxRetries) with false by (symmetry; apply Z.ltb_ge; lia).
    reflexivity.
  - change (failedAttempts (S (S k)) attempt)
      with (TransporterSendMail mailOptions :: waitAfter attempt
            ++ failedAttempts (S k) (attempt + 1))%list.
    rewrite (IH (attempt + 1)) by lia. simpl. now rewrite app_assoc.
Qed.

End RetryLoop.

(** ** The retrying sender *)

(** Every call of [sendWithRetry] completes: it returns after a successful
    attempt, having bumped the success counter, or throws after leaving the
    loop, having bumped the failure counter; the rate is recomputed from
    the new counters in both cases and the storage is not touched. *)
Lemma sendWithRetry_completes env mailOptions emailType maxRetries baseDelay w :
  let r := sendWithRetry env mailOptions emailType maxRetries baseDelay w in
  donors (snd r) = donors w /\ donations (snd r) = donations w /\
  ((exists result,
       fst r = Normal result /\
       emailMetrics (snd r) = afterSuccess (emailMetrics w))
   \/
   (exists lastError,
       fst r = Thrown lastError /\
       emailMetrics (snd r) =
         afterFailure (emailMetrics w)
                      (Build_LastFailed emailType (to mailOptions) lastError (now env)))).
Proof.
  unfold sendWithRetry, bind.
  destruct (retryLoop_cases env mailOptions maxRetries baseDelay
              (Z.to_nat maxRetries) (S (Z.to_nat maxRetries)) 0 JsNull w)
    as [k [_ [(result & info & _ & _ & Hloop) | (lastError & _ & Hloop)]]];
    try (f_equal; lia); try lia; rewrite Hloop; simpl.
  - repeat split. left. now exists result.
  - repeat split. right. now exists lastError.
Qed.

(** C2: when all [maxRetries >= 1] attempts are rejected, the call throws
    the last transport error, adds one to [totalFailed] only, records the
    snapshot (label, recipient, last error, clock) and recomputes the
    rate from the new counters. *)
Theorem sendWithRetry_exhausted
        env mailOptions emailType maxRetries baseDelay (errs : Z -> JsValue) w :
  1 <= maxRetries ->
  (forall i, 0 <= i < maxRetries -> sendMail env i = Rejected (errs i)) ->
  let r := sendWithRetry env mailOptions emailType maxRetries baseDelay w in
  let before := emailMetrics w in
  let after := emailMetrics (snd r) in
  let lastError := errs (maxRetries - 1) in
  fst r = Thrown lastError /\
  totalFailed after = totalFailed before + 1 /\
  totalSent after = totalSent before /\
  lastFailed after =
    Some {| emailType := emailType; recipient := to mailOptions;
            error := lastError; timestamp := now env |} /\
  deliveryRate after = recomputedRate (totalSent after) (totalFailed after).
Proof.
  intros Hm Hrej. unfold sendWithRetry, bind.
  rewrite (retryLoop_all_rejected env mailOptions maxRetries baseDelay errs
             (Z.to_nat maxRetries)) by (try lia; intros; apply Hrej; lia).
  destruct (Z.to_nat maxRetries) eqn:Hn; [lia|].
  simpl. repeat split.
Qed.

(** C3: when the first [k - 1] attempts are rejected and attempt [k] is
    accepted ([1 <= k <= maxRetries]), the call returns success with
    [attempts = k], adds one to [totalSent] only, leaves the snapshot alone
    and recomputes the rate from the new counters. *)
Theorem sendWithRetry_succeeds_at
        env mailOptions emailType maxRetries baseDelay (k : Z) info w :
  1 <= k <= maxRetries ->
  (forall i, 0 <= i < k - 1 -> exists err, sendMail env i = Rejected err) ->
  sendMail env (k - 1) = Fulfilled info ->
  let r := sendWithRetry env mailOptions emailType maxRetries baseDelay w in
  let before := emailMetrics w in
  let after := emailMetrics (snd r) in
  fst r = Normal {| success := true; messageId := info_messageId info; attempts := k |} /\
  totalSent after = totalSent before + 1 /\
  totalFailed after = totalFailed before /\
  lastFailed after = lastFailed before /\
  deliveryRate after = recomputedRate (totalSent after) (totalFailed after).
Proof.
  intros Hk Hrej Hok. unfold sendWithRetry, bind.
  rewrite (retryLoop_succeeds_at env mailOptions maxRetries baseDelay (k - 1) info
             (Z.to_nat (k - 1)))
    by (try assumption; try lia; intros; apply Hrej; lia).
  simpl. replace (k - 1 + 1) with k by lia. repeat split.
Qed.

(** C9: with [maxRetries = 0] the transport is never called (no call at
    all is made), the call throws at once, [totalFailed] grows by one, the
    snapshot is recorded (with the initial [null] as the error) and the
    rate is recomputed. *)
Theorem sendWithRetry_zero_retries env mailOptions emailType baseDelay w :
  let r := sendWithRetry env mailOptions emailType 0 baseDelay w in
  let before := emailMetrics w in
  let after := emailMetrics (snd r) in
  fst r = Thrown JsNull /\
  effects (snd r) = effects w /\
  totalFailed after = totalFailed before + 1 /\
  totalSent after = totalSent before /\
  lastFailed after =
    Some {| emailType := emailType; recipient := to mailOptions;
            error := JsNull; timestamp := now env |} /\
  deliveryRate after = recomputedRate (totalSent after) (totalFailed after).
Proof.
  simpl. repeat split.
Qed.

(** ** The delivery metrics *)

Lemma runCall_step (c : Call) w :
  metricsInv (emailMetrics w) ->
  let r := runCall c w in
  metricsInv (emailMetrics (snd r)) /\
  ((isSuccess (fst r) = true /\ isExhausted (fst r) = false /\
    totalSent (emailMetrics (snd r)) = totalSent (emailMetrics w) + 1 /\
    totalFailed (emailMetrics (snd r)) = totalFailed (emailMetrics w))
   \/
   (isSuccess (fst r) = false /\ isExhausted (fst r) = true /\
    totalSent (emailMetrics (snd r)) = totalSent (emailMetrics w) /\
    totalFailed (emailMetrics (snd r)) = totalFailed (emailMetrics w) + 1)).
Proof.
  intros (Hs & Hf & Hr). unfold runCall.
  destruct (sendWithRetry_completes (callEnv c) (callOptions c) (callType c)
              (callMaxRetries c) (callBaseDelay c) w)
    as (_ & _ & [(result & Hres & Hm) | (lastError & Hres & Hm)]);
    cbv zeta; rewrite Hres, Hm; simpl.
  - split; [repeat split; simpl; lia || reflexivity | left; repeat split].
  - split; [repeat split; simpl; lia || reflexivity | right; repeat split].
Qed.

Lemma runCalls_counts (calls : list Call) :
  forall w,
    metricsInv (emailMetrics w) ->
    let r := runCalls calls w in
    metricsInv (emailMetrics (snd r)) /\
    successes (fst r) + exhaustions (fst r) = Z.of_nat (length calls) /\
    totalSent (emailMetrics (snd r)) = totalSent (emailMetrics w) + successes (fst r) /\
    totalFailed (emailMetrics (snd r)) = totalFailed (emailMetrics w) + exhaustions (fst r).
Proof.
  unfold successes, exhaustions.
  induction calls as [|c cs IH]; intros w Hinv.
  - simpl. repeat split; try apply Hinv; lia.
  - cbn [runCalls].
    pose proof (runCall_step c w Hinv) as Hstep. cbv zeta in Hstep.
    destruct (runCall c w) as [r w'] eqn:Hcall. simpl in Hstep.
    destruct Hstep as [Hinv' Hstep].
    specialize (IH w' Hinv'). cbv zeta in IH.
    destruct (runCalls cs w') as [rs w''] eqn:Hrest. simpl in IH.
    destruct IH as (Hinv'' & Hlen & Hsent & Hfailed).
    cbn [fst snd List.filter length].
    destruct Hstep as [(Hs & He & Hts & Htf) | (Hs & He & Hts & Htf)];
      rewrite Hs, He; cbn [length]; repeat split; try apply Hinv''; lia.
Qed.

(** C1: after any sequence of completed calls of [sendWithRetry] from the
    zeroed metrics, with [N] of them returning and [M] of them throwing,
    [totalSent = N], [totalFailed = M], their sum is the number of calls
    (every call completes), and the stored rate is the value of the code's
    own expression [totalSent / (totalSent + totalFailed) * 100] at these
    counters, taken in this order, or 100 when nothing has completed. *)
Theorem metrics_invariant (calls : list Call) :
  let r := runCalls calls initialWorld in
  let m := emailMetrics (snd r) in
  let N := successes (fst r) in
  let M := exhaustions (fst r) in
  totalSent m = N /\ totalFailed m = M /\
  totalSent m + totalFailed m = Z.of_nat (length calls) /\
  deliveryRate m = statedDeliveryRate (totalSent m) (totalFailed m) /\
  deliveryRate m = statedDeliveryRate N M.
Proof.
  assert (Hinit : metricsInv (emailMetrics initialWorld))
    by (repeat split; simpl; lia).
  pose proof (runCalls_counts calls initialWorld Hinit) as H. cbv zeta in H.
  destruct H as ((Hs & Hf & Hr) & Hlen & Hsent & Hfailed).
  change (totalSent (emailMetrics initialWorld)) with 0 in Hsent.
  change (totalFailed (emailMetrics initialWorld)) with 0 in Hfailed.
  rewrite Z.add_0_l in Hsent, Hfailed.
  cbv zeta. rewrite <- Hsent, <- Hfailed.
  assert (Hrate : deliveryRate (emailMetrics (snd (runCalls calls initialWorld)))
                  = statedDeliveryRate
                      (totalSent (emailMetrics (snd (runCalls calls initialWorld))))
                      (totalFailed (emailMetrics (snd (runCalls calls initialWorld))))).
  { rewrite Hr. unfold recomputedRate, statedDeliveryRate.
    destruct (Z.eqb_spec (totalSent (emailMetrics (snd (runCalls calls initialWorld)))
                          + totalFailed (emailMetrics (snd (runCalls calls initialWorld)))) 0)
      as [H0|H0].
    - now replace (0 <? _) with false by (symmetry; apply Z.ltb_ge; lia).
    - now replace (0 <? _) with true by (symmetry; apply Z.ltb_lt; lia). }
  repeat split; try lia; exact Hrate.
Qed.

(** ** The backoff schedule *)

Lemma jittersFrom_length env e n : length (jittersFrom env e n) = n.
Proof. revert e. induction n as [|n IH]; intros e; simpl; [|rewrite IH]; reflexivity. Qed.

Lemma jittersFrom_bounded env :
  (forall i, 0 <= mathRandom env i /\ mathRandom env i < 1)%Q ->
  forall n e, Forall (fun j => 0 <= j /\ j < 500)%Q (jittersFrom env e n).
Proof.
  intros Hrand. induction n as [|n IH]; intros e; simpl; constructor; [|apply IH].
  destruct (Hrand e) as [Hlo Hhi]. split.
  - apply Qmult_le_0_compat; [assumption | discriminate].
  - assert (H : (mathRandom env e * 500 < 1 * 500)%Q)
      by (apply Qmult_lt_compat_r; [reflexivity | assumption]).
    exact H.
Qed.

(** Before the attempts are used up, every rejected attempt is followed by
    its wait, so the calls are those of the specification's schedule. *)
Lemma failedAttempts_schedule env mailOptions maxRetries baseDelay k :
  forall attempt,
    attempt + Z.of_nat k < maxRetries ->
    (failedAttempts env mailOptions maxRetries baseDelay k attempt
     ++ [TransporterSendMail mailOptions])%list =
    schedule mailOptions (backoffDelays baseDelay attempt (jittersFrom env attempt k)).
Proof.
  induction k as [|k IH]; intros attempt Hk.
  - reflexivity.
  - cbn [failedAttempts jittersFrom backoffDelays schedule].
    unfold waitAfter, backoffDelay.
    replace (attempt + 1 <? maxRetries) with true by (symmetry; apply Z.ltb_lt; lia).
    replace (attempt + 1 - 1) with attempt by lia.
    simpl. rewrite <- (IH (attempt + 1)) by lia. reflexivity.
Qed.

Lemma Qsum_backoffDelays baseDelay js :
  forall e,
    (Qsum (backoffDelays baseDelay e js)
     == baseDelay * 2 ^ e * (2 ^ Z.of_nat (length js) - 1) + Qsum js)%Q.
Proof.
  induction js as [|j js IH]; intros e.
  - simpl. ring.
  - cbn [backoffDelays Qsum fold_right length].
    change (fold_right Qplus 0%Q (backoffDelays baseDelay (e + 1) js))
      with (Qsum (backoffDelays baseDelay (e + 1) js)).
    change (fold_right Qplus 0%Q js) with (Qsum js).
    rewrite (IH (e + 1)), Nat2Z.inj_succ. unfold Z.succ.
    rewrite !Qpower_plus by discriminate.
    change (2 ^ 1)%Q with 2%Q. ring.
Qed.

Lemma Qsum_jitters js :
  Forall (fun j => 0 <= j /\ j < 500)%Q js ->
  (Qsum js <= 500 * inject_Z (Z.of_nat (length js)))%Q.
Proof.
  induction 1 as [|j js [_ Hj] _ IH].
  - simpl. discriminate.
  - cbn [Qsum fold_right length]. change (fold_right Qplus 0%Q js) with (Qsum js).
    rewrite Nat2Z.inj_succ. unfold Z.succ. rewrite inject_Z_plus.
    assert (E : (500 * (inject_Z (Z.of_nat (length js)) + inject_Z 1)
                 == 500 + 500 * inject_Z (Z.of_nat (length js)))%Q) by ring.
    rewrite E.
    apply Qplus_le_compat; [now apply Qlt_le_weak | assumption].
Qed.

(** C8: with [maxRetries >= 1] and a [Math.random] that draws from [0, 1),
    the calls of one delivery sequence are: attempt, wait, attempt, wait,
    ..., attempt, where the wait after the rejected attempt numbered [a] is
    [baseDelay * 2^(a-1) + j] with [0 <= j < 500]; the attempts followed by
    a wait are exactly the rejected ones before the last attempt made, and
    the waits add up to at most
    [baseDelay * (2^n - 1) + 500 * n] for [n] waits. *)
Theorem backoff_schedule env mailOptions emailType maxRetries baseDelay w :
  1 <= maxRetries ->
  (forall i, 0 <= mathRandom env i /\ mathRandom env i < 1)%Q ->
  let r := sendWithRetry env mailOptions emailType maxRetries baseDelay w in
  exists jitters : list Q,
    let n := Z.of_nat (length jitters) in
    Forall (fun j => 0 <= j /\ j < 500)%Q jitters /\
    n < maxRetries /\
    (forall a, 1 <= a <= n -> exists err, sendMail env (a - 1) = Rejected err) /\
    ((exists info, sendMail env n = Fulfilled info) \/ n = maxRetries - 1) /\
    effects (snd r) =
      (effects w ++ schedule mailOptions (backoffDelays baseDelay 0 jitters))%list /\
    (Qsum (backoffDelays baseDelay 0 jitters)
     <= baseDelay * (2 ^ n - 1) + 500 * inject_Z n)%Q.
Proof.
  intros Hm Hrand. cbv zeta.
  assert (Hsum : forall k,
             (Qsum (backoffDelays baseDelay 0 (jittersFrom env 0 k))
              <= baseDelay * (2 ^ Z.of_nat (length (jittersFrom env 0 k)) - 1)
                 + 500 * inject_Z (Z.of_nat (length (jittersFrom env 0 k))))%Q).
  { intros k. rewrite Qsum_backoffDelays. change (2 ^ 0)%Q with 1%Q.
    rewrite Qmult_1_r. apply Qplus_le_compat; [apply Qle_refl|].
    apply Qsum_jitters, jittersFrom_bounded, Hrand. }
  unfold sendWithRetry, bind.
  destruct (retryLoop_cases env mailOptions maxRetries baseDelay
              (Z.to_nat maxRetries) (S (Z.to_nat maxRetries)) 0 JsNull w)
    as [k [Hfailed [(result & info & Hk & Hinfo & Hloop) | (lastError & Hk & Hloop)]]];
    try (f_equal; lia); try lia; rewrite Hloop;
    cbn -[failedAttempts schedule backoffDelays Qsum jittersFrom Qpower Qmult Qplus Qminus].
  - exists (jittersFrom env 0 k). rewrite jittersFrom_length.
    split; [now apply jittersFrom_bounded|]. split; [lia|].
    split; [intros a Ha; apply Hfailed; lia|].
    split; [left; now exists info|].
    split; [now rewrite <- (failedAttempts_schedule env mailOptions maxRetries baseDelay k 0)
              by lia|].
    specialize (Hsum k). now rewrite jittersFrom_length in Hsum.
  - destruct k as [|k]; [lia|].
    exists (jittersFrom env 0 k). rewrite jittersFrom_length.
    split; [now apply jittersFrom_bounded|]. split; [lia|].
    split; [intros a Ha; apply Hfailed; lia|].
    split; [right; lia|].
    split.
    + rewrite (failedAttempts_last env mailOptions maxRetries baseDelay k 0) by lia.
      now rewrite <- (failedAttempts_schedule env mailOptions maxRetries baseDelay k 0) by lia.
    + specialize (Hsum k). now rewrite jittersFrom_length in Hsum.
Qed.

(** ** The webhook route: verification and routing *)

Lemma nonEmpty_Some s sig : nonEmpty s = Some sig -> s = Some sig /\ sig <> "".
Proof.
  unfold nonEmpty, truthy. destruct s as [s'|]; [|discriminate].
  destruct (String.eqb_spec s' ""); simpl; [discriminate|].
  intros [= <-]. now split.
Qed.

Lemma bind_await_fulfilled {A B} (a : A) (k : A -> Js B) w :
  bind (await (Fulfilled a)) k w = k a w.
Proof. reflexivity. Qed.

Lemma bind_await_rejected {A B} e (k : A -> Js B) w :
  bind (await (Rejected e)) k w = (Thrown e, w).
Proof. reflexivity. Qed.

Lemma POST_verified env req event w :
  verifies env req event ->
  POST env req w = processEvent env event w.
Proof.
  intros (body & header & sig & Hbody & Hheader & Hsig & Hev). unfold POST.
  rewrite Hbody, Hheader, !bind_await_fulfilled, Hsig.
  unfold bind, tryCatch, await. rewrite Hev. reflexivity.
Qed.

(** C4: when the signature header is missing (or empty) or verification
    throws, [POST] answers 400 and the world is exactly as before: no
    storage call, no lookup and no mail call was logged, nothing was
    written. *)
Theorem POST_rejects_unverified env req w :
  failsVerification env req ->
  exists resp,
    POST env req w = (Normal resp, w) /\
    status resp = 400 /\
    ~ acknowledged (POST env req w).
Proof.
  intros (body & header & Hbody & Hheader & [Hnone | (sig & err & Hsig & Hrej)]);
    unfold POST; rewrite Hbody, Hheader, !bind_await_fulfilled.
  - rewrite Hnone. eexists. split; [reflexivity|]. split; [reflexivity|].
    intros (resp & Hresp & Hstatus). simpl in Hresp. injection Hresp as <-.
    simpl in Hstatus. lia.
  - rewrite Hsig. unfold bind, tryCatch, await. rewrite Hrej. simpl.
    eexists. split; [reflexivity|]. split; [reflexivity|].
    intros (resp & Hresp & Hstatus). simpl in Hresp. injection Hresp as <-.
    simpl in Hstatus. lia.
Qed.

Lemma route_unhandled ty : ~ In ty handledTypes -> route ty = Unhandled.
Proof.
  intros Hnot. unfold route.
  repeat match goal with
         | |- context [String.eqb ty ?s] =>
             destruct (String.eqb_spec ty s) as [->|_];
             [exfalso; apply Hnot; simpl; tauto|]
         end.
  reflexivity.
Qed.

Lemma route_handled ty : In ty handledTypes -> route ty <> Unhandled.
Proof.
  simpl. intros H.
  repeat (destruct H as [<-|H]; [discriminate|]). destruct H.
Qed.

(** C5: an authenticated event whose type is not in the handled set is
    answered [{ received: true }] with status 200, and the world is exactly
    as before: no handler ran, nothing was called or written. *)
Theorem POST_acknowledges_unhandled env req event w :
  verifies env req event ->
  ~ In (type event) handledTypes ->
  POST env req w = (Normal received, w) /\
  status received = 200 /\
  acknowledged (POST env req w).
Proof.
  intros Hver Hnot. rewrite (POST_verified _ _ _ _ Hver). clear Hver.
  apply route_unhandled in Hnot. destruct event as [ty obj]. simpl in Hnot.
  unfold processEvent. simpl. revert obj. rewrite Hnot. intros obj. simpl.
  split; [reflexivity|]. split; [reflexivity|].
  exists received. simpl. split; [reflexivity | lia].
Qed.

(** C10: an authenticated [payment_intent.succeeded] event whose metadata
    holds a (non-empty) [subscriptionId], or whose [invoice] reference is
    set (to a non-empty id), is answered [{ received: true }] with status
    200, and the world is exactly as before: no lookup, no donor or donation
    write, no mail. *)
Theorem payment_intent_of_subscription_skipped env req paymentIntent w :
  verifies env req (paymentIntentSucceeded paymentIntent) ->
  ((exists s, PaymentIntent.metadata paymentIntent !! "subscriptionId" = Some s /\ s <> "")
   \/ (exists i, PaymentIntent.invoice paymentIntent = Some i /\ i <> "")) ->
  POST env req w = (Normal received, w) /\
  status received = 200.
Proof.
  intros Hver Hsub. rewrite (POST_verified _ _ _ _ Hver).
  unfold processEvent, tryCatch. simpl. unfold handlePaymentIntentSucceeded.
  assert (Hskip : (truthy (PaymentIntent.metadata paymentIntent !! "subscriptionId")
                   || truthy (PaymentIntent.invoice paymentIntent))%bool = true).
  { destruct Hsub as [(s & -> & Hs) | (i & -> & Hi)]; simpl.
    - apply String.eqb_neq in Hs. now rewrite Hs.
    - apply String.eqb_neq in Hi. rewrite Hi. apply orb_true_r. }
  rewrite Hskip. split; reflexivity.
Qed.

(** ** Reasoning about [Js] computations *)

Lemma bind_normal {A B} (c : Js A) (k : A -> Js B) w a w' :
  c w = (Normal a, w') -> bind c k w = k a w'.
Proof. intros H. unfold bind. now rewrite H. Qed.

Lemma bind_thrown {A B} (c : Js A) (k : A -> Js B) w e w' :
  c w = (Thrown e, w') -> bind c k w = (Thrown e, w').
Proof. intros H. unfold bind. now rewrite H. Qed.

Lemma bind_ret {A B} (a : A) (k : A -> Js B) w : bind (ret a) k w = k a w.
Proof. reflexivity. Qed.

Lemma bind_bind {A B C} (c : Js A) (k1 : A -> Js B) (k2 : B -> Js C) w :
  bind (bind c k1) k2 w = bind c (fun a => bind (k1 a) k2) w.
Proof. unfold bind. destruct (c w) as [[a|e|] w']; reflexivity. Qed.

Lemma bind_perform {B} (e : Effect) (k : unit -> Js B) w :
  bind (perform e) k w = k tt (addEffects [e] w).
Proof. reflexivity. Qed.

Lemma completes_ret {A} (a : A) : completes (ret a).
Proof. intros w. discriminate. Qed.

Lemma completes_throw {A} e : completes (@throw A e).
Proof. intros w. discriminate. Qed.

Lemma completes_perform e : completes (perform e).
Proof. intros w. discriminate. Qed.

Lemma completes_await {A} (p : Settled A) : completes (await p).
Proof. intros w. destruct p; discriminate. Qed.

Lemma completes_bind {A B} (c : Js A) (k : A -> Js B) :
  completes c -> (forall a, completes (k a)) -> completes (bind c k).
Proof.
  intros Hc Hk w. unfold bind. specialize (Hc w).
  destruct (c w) as [[a|e|] w']; simpl in *; [apply Hk | discriminate | congruence].
Qed.

Lemma completes_tryCatch {A} (body : Js A) handler :
  completes body -> (forall e, completes (handler e)) -> completes (tryCatch body handler).
Proof.
  intros Hb Hh w. unfold tryCatch. specialize (Hb w).
  destruct (body w) as [[a|e|] w']; simpl in *; [discriminate | apply Hh | congruence].
Qed.

Lemma completes_sendWithRetry env mailOptions emailType maxRetries baseDelay :
  completes (sendWithRetry env mailOptions emailType maxRetries baseDelay).
Proof.
  intros w.
  destruct (sendWithRetry_completes env mailOptions emailType maxRetries baseDelay w)
    as (_ & _ & [(result & H & _) | (lastError & H & _)]); rewrite H; discriminate.
Qed.

Create HintDb completes.
#[local] Hint Resolve completes_ret completes_throw completes_perform completes_await
  completes_sendWithRetry : completes.
#[local] Hint Extern 2 (completes (bind _ _)) =>
  apply completes_bind; [|intros ?] : completes.
#[local] Hint Extern 2 (completes (tryCatch _ _)) =>
  apply completes_tryCatch; [|intros ?] : completes.
#[local] Hint Extern 3 (completes (match ?x with _ => _ end)) => destruct x : completes.
#[local] Hint Extern 3 (completes (if ?x then _ else _)) => destruct x : completes.
#[local] Hint Extern 1 (completes getDonors) => (intros ?; discriminate) : completes.
#[local] Hint Extern 1 (completes (setDonors _)) => (intros ?; discriminate) : completes.
#[local] Hint Extern 1 (completes (pushDonation _)) => (intros ?; discriminate) : completes.

Lemma completes_saveDonationRecord env data : completes (saveDonationRecord env data).
Proof.
  unfold saveDonationRecord, donorsGetFirst, donorsUpdate, donorsCreate,
    donationsCreate, storageCall.
  auto 30 with completes.
Qed.

Lemma completes_sendDonationEmail env params : completes (sendDonationEmail env params).
Proof. unfold sendDonationEmail. auto 20 with completes. Qed.

Lemma completes_sendPaymentFailedEmail env params :
  completes (sendPaymentFailedEmail env params).
Proof. unfold sendPaymentFailedEmail. auto 20 with completes. Qed.

#[local] Hint Resolve completes_saveDonationRecord completes_sendDonationEmail
  completes_sendPaymentFailedEmail : completes.

(** A [try] block whose handler only logs always ends normally. *)
Lemma absorbed (body : Js unit) w :
  completes body ->
  exists w', tryCatch body (fun _ => ret tt) w = (Normal tt, w').
Proof.
  intros H. specialize (H w). unfold tryCatch.
  destruct (body w) as [[[]|e|] w']; simpl in *;
    [now exists w' | now exists w' | congruence].
Qed.

Lemma absorbed_then {B} (body : Js unit) (k : Js B) w :
  completes body ->
  exists w', bind (tryCatch body (fun _ => ret tt)) (fun _ => k) w = k w'.
Proof.
  intros H. destruct (absorbed body w H) as [w' Hw'].
  exists w'. now rewrite (bind_normal _ _ _ _ _ Hw').
Qed.

(** A [try] block whose handler answers a default always ends normally. *)
Lemma absorbed_default {A} (body : Js A) (d : A) w :
  completes body ->
  exists a w', tryCatch body (fun _ => ret d) w = (Normal a, w').
Proof.
  intros H. specialize (H w). unfold tryCatch.
  destruct (body w) as [[a|e|] w']; simpl in *;
    [now exists a, w' | now exists d, w' | congruence].
Qed.

(** ** The webhook route: what the handlers answer *)

Lemma recordAndNotify_then env data params {B} (k : Js B) w :
  exists w', bind (recordAndNotify env data params) (fun _ => k) w = k w'.
Proof. unfold recordAndNotify. apply absorbed_then. auto 10 with completes. Qed.

Lemma lookupCustomerForLog_then env subscription {B} (k : Js B) w :
  exists w', bind (lookupCustomerForLog env subscription) (fun _ => k) w = k w'.
Proof. unfold lookupCustomerForLog. apply absorbed_then. auto 10 with completes. Qed.

Lemma storageUntouched_refl w : storageUntouched w w.
Proof. repeat split. exists []. now rewrite app_nil_r. Qed.

Lemma storageUntouched_trans w1 w2 w3 :
  storageUntouched w1 w2 -> storageUntouched w2 w3 -> storageUntouched w1 w3.
Proof.
  intros (Hd1 & Hn1 & es1 & He1 & Hs1) (Hd2 & Hn2 & es2 & He2 & Hs2).
  split; [congruence|]. split; [congruence|].
  exists (es1 ++ es2)%list. split.
  - now rewrite He2, He1, app_assoc.
  - unfold storageCalls in *. now rewrite List.filter_app, Hs1, Hs2.
Qed.

Lemma lookupPaymentMethod_normal env paymentIntentId w :
  exists paymentMethod w',
    lookupPaymentMethod env paymentIntentId w = (Normal paymentMethod, w') /\
    storageUntouched w w'.
Proof.
  unfold lookupPaymentMethod. destruct (nonEmpty paymentIntentId) as [piId|].
  - unfold tryCatch. rewrite bind_perform.
    destruct (paymentIntentsRetrieve env piId) as [charge|err].
    + rewrite bind_await_fulfilled. do 2 eexists. split; [reflexivity|].
      repeat split. now exists [PaymentIntentsRetrieve piId].
    + rewrite bind_await_rejected. do 2 eexists. split; [reflexivity|].
      repeat split. now exists [PaymentIntentsRetrieve piId].
  - exists "card", w. split; [reflexivity | apply storageUntouched_refl].
Qed.

Lemma handlePaymentIntentSucceeded_outcome env paymentIntent w :
  handlerOutcome (unguardedLookupFails env HandlePaymentIntentSucceeded paymentIntent)
                 (fst (handlePaymentIntentSucceeded env paymentIntent w)).
Proof.
  unfold handlePaymentIntentSucceeded, unguardedLookupFails, handlerOutcome. cbv zeta.
  destruct (truthy _ || truthy _)%bool; [now exists received|].
  lazymatch goal with
  | |- context [fst (bind _ ?k w)] =>
      assert (Hrest : forall charge w1,
                 exists resp, fst (k charge w1) = Normal resp /\ status resp = 200)
  end;
    [|destruct (nonEmpty (PaymentIntent.latest_charge paymentIntent)) as [chargeId|]].
  2:{ rewrite bind_bind, bind_perform, bind_bind.
      destruct (chargesRetrieve env chargeId) as [c|err]; simpl isRejected; cbv iota.
      - rewrite bind_await_fulfilled, bind_ret.
        exact (Hrest (Some c) (addEffects [ChargesRetrieve chargeId] w)).
      - rewrite bind_await_rejected. now exists err. }
  2:{ rewrite bind_ret. exact (Hrest None w). }
  intros charge w1. cbv beta.
  match goal with
  | |- context [if String.eqb ?a "" then _ else _] => destruct (String.eqb a "")
  end.
  - eexists. split; reflexivity.
  - match goal with
    | |- context [bind (recordAndNotify env ?d ?p) _ ?w'] =>
        destruct (recordAndNotify_then env d p (ret received) w') as [w2 Hw2]
    end.
    rewrite Hw2. now exists received.
Qed.

Lemma handleInvoicePaymentSucceeded_outcome env invoice w :
  handlerOutcome (unguardedLookupFails env HandleInvoicePaymentSucceeded invoice)
                 (fst (handleInvoicePaymentSucceeded env invoice w)).
Proof.
  unfold handleInvoicePaymentSucceeded, unguardedLookupFails, handlerOutcome. cbv zeta.
  destruct (nonEmpty (Invoice.subscription invoice)) as [subscriptionId|];
    [|now exists received].
  rewrite !bind_perform.
  destruct (subscriptionsRetrieve env subscriptionId) as [subscription|err1];
    [|rewrite bind_await_rejected; now exists err1].
  rewrite bind_await_fulfilled.
  destruct (customersRetrieve env (Invoice.customer invoice)) as [customer|err2];
    [|rewrite bind_await_rejected; now exists err2].
  rewrite bind_await_fulfilled. simpl isRejected. cbv iota. simpl orb. cbv iota.
  destruct (customerDetails invoice subscription customer) as [[[customerEmail customerName] customerPhone]|];
    [|eexists; split; reflexivity].
  match goal with
  | |- context [bind (lookupPaymentMethod env ?pid) _ ?w1] =>
      destruct (lookupPaymentMethod_normal env pid w1) as (paymentMethod & w2 & Hpm & _)
  end.
  rewrite (bind_normal _ _ _ _ _ Hpm).
  match goal with
  | |- context [bind (recordAndNotify env ?d ?p) _ ?w'] =>
      destruct (recordAndNotify_then env d p (ret received) w') as [w3 Hw3]
  end.
  rewrite Hw3. now exists received.
Qed.

Lemma handlePaymentFailed_outcome env invoice w :
  exists w', handlePaymentFailed env invoice w = (Normal received, w').
Proof.
  unfold handlePaymentFailed. cbv zeta.
  match goal with
  | |- context [bind (tryCatch ?body (fun _ => ret ?d)) _ w] =>
      destruct (absorbed_default body d w) as (found & w1 & Hfound);
      [auto 10 with completes|]
  end.
  rewrite (bind_normal _ _ _ _ _ Hfound).
  destruct (nonEmpty (fst found)) as [customerEmail|];
    [destruct (nonEmpty (Invoice.subscription invoice)) as [subscriptionId|]|];
    try (rewrite bind_ret; now exists w1).
  match goal with
  | |- context [bind (tryCatch ?body _) _ w1] =>
      destruct (absorbed_then body (ret received) w1) as [w2 Hw2];
      [auto 10 with completes|]
  end.
  rewrite Hw2. now exists w2.
Qed.

Lemma logging_handler_outcome env subscription w :
  exists w', (lookupCustomerForLog env subscription ;; ret received) w = (Normal received, w').
Proof.
  destruct (lookupCustomerForLog_then env subscription (ret received) w) as [w' Hw'].
  rewrite Hw'. now exists w'.
Qed.

(** Every arm of the [switch] answers 200 unless an unguarded lookup is
    rejected, in which case it throws. *)
Lemma dispatch_outcome env h (payload : Payload h) w :
  handlerOutcome (unguardedLookupFails env h payload) (fst (dispatch env h payload w)).
Proof.
  destruct h; simpl dispatch;
    try apply handlePaymentIntentSucceeded_outcome;
    try apply handleInvoicePaymentSucceeded_outcome;
    unfold handlerOutcome, unguardedLookupFails;
    try (now exists received).
  - destruct (logging_handler_outcome env payload w) as [w' Hw'].
    unfold handleSubscriptionCreated. rewrite Hw'. now exists received.
  - destruct (logging_handler_outcome env payload w) as [w' Hw'].
    unfold handleSubscriptionDeleted. rewrite Hw'. now exists received.
  - destruct (handlePaymentFailed_outcome env payload w) as [w' Hw'].
    rewrite Hw'. now exists received.
  - destruct (logging_handler_outcome env payload w) as [w' Hw'].
    unfold handleSubscriptionPastDue. rewrite Hw'. now exists received.
  - destruct (logging_handler_outcome env payload w) as [w' Hw'].
    unfold handleSubscriptionUnpaid. rewrite Hw'. now exists received.
Qed.

(** C7, as amended: for an authenticated event the response is 500
    exactly when a lookup that the handler awaits outside any [try] block
    of its own is rejected (the charge of a one-time payment, the
    subscription or the customer of a recurring invoice), and 200 in every
    other case: whatever the storage, the mail transport, the renderers and
    the guarded lookups do. *)
Theorem POST_status_of_authenticated env req event w :
  verifies env req event ->
  exists resp,
    fst (POST env req w) = Normal resp /\
    status resp =
      if unguardedLookupFails env (route (type event)) (object event) then 500 else 200.
Proof.
  intros Hver. rewrite (POST_verified _ _ _ _ Hver). unfold processEvent, tryCatch.
  pose proof (dispatch_outcome env (route (type event)) (object event) w) as H.
  unfold handlerOutcome in H.
  destruct (dispatch env (route (type event)) (object event) w) as [c w'].
  simpl in H.
  destruct (unguardedLookupFails env (route (type event)) (object event)).
  - destruct H as [e ->]. eexists. split; reflexivity.
  - destruct H as (resp & -> & Hstatus). now exists resp.
Qed.

(** ** The storage collaborator and [saveDonationRecord] *)

Lemma storageCall_ok env op e w :
  storageFault env op = None ->
  storageCall env op e w = (Normal tt, addEffects [e] w).
Proof. intros H. unfold storageCall. rewrite bind_perform, H. reflexivity. Qed.

Lemma donorsGetFirst_ok env k w :
  storageFault env OpDonorsGetFirst = None ->
  donorsGetFirst env k w = (Normal (donors w !! k), addEffects [DonorsGetFirst k] w).
Proof.
  intros H. unfold donorsGetFirst.
  rewrite (bind_normal _ _ _ _ _ (storageCall_ok _ _ _ _ H)). reflexivity.
Qed.

Lemma donorsUpdate_ok env id u d w :
  storageFault env OpDonorsUpdate = None ->
  donors w !! id = Some d ->
  donorsUpdate env id u w =
    (Normal (Some (applyUpdate d u)),
     withDonors (<[id := applyUpdate d u]> (donors w)) (addEffects [DonorsUpdate id] w)).
Proof.
  intros H Hd. unfold donorsUpdate.
  rewrite (bind_normal _ _ _ _ _ (storageCall_ok _ _ _ _ H)).
  unfold bind, getDonors. simpl. rewrite Hd. reflexivity.
Qed.

Lemma donorsCreate_ok env d w :
  storageFault env OpDonorsCreate = None ->
  donors w !! email d = None ->
  donorsCreate env d w =
    (Normal (Some d),
     withDonors (<[email d := d]> (donors w)) (addEffects [DonorsCreate (email d)] w)).
Proof.
  intros H Hd. unfold donorsCreate.
  rewrite (bind_normal _ _ _ _ _ (storageCall_ok _ _ _ _ H)).
  unfold bind, getDonors. simpl. rewrite Hd. reflexivity.
Qed.

Lemma donationsCreate_ok env r w :
  storageFault env OpDonationsCreate = None ->
  donationsCreate env r w =
    (Normal (Some r), withDonation r (addEffects [DonationsCreate r] w)).
Proof.
  intros H. unfold donationsCreate.
  rewrite (bind_normal _ _ _ _ _ (storageCall_ok _ _ _ _ H)). reflexivity.
Qed.

Lemma falsyNumber_cents (cents : Z) :
  cents <> 0 -> falsyNumber (inject_Z cents / 100) = false.
Proof.
  intros H. unfold falsyNumber.
  destruct (Qeq_bool (inject_Z cents / 100) 0) eqn:E; [|reflexivity].
  apply Qeq_bool_eq in E. unfold Qeq in E. simpl in E. lia.
Qed.

(** With a working database and valid data, [saveDonationRecord] looks the
    donor up, updates it if present and creates it otherwise, and creates
    one donation. *)
Lemma saveDonationRecord_saves env data w :
  (forall op, storageFault env op = None) ->
  DonationData.email data <> "" ->
  falsyNumber (DonationData.amount data) = false ->
  keyedByEmail (donors w) ->
  let previous := donors w !! DonationData.email data in
  exists donor donation w',
    saveDonationRecord env data w = (Normal (donor, donation), w') /\
    donors w' = <[DonationData.email data := donor]> (donors w) /\
    donations w' = (donations w ++ [donation])%list /\
    effects w' =
      (effects w ++ [DonorsGetFirst (DonationData.email data);
                     match previous with
                     | Some _ => DonorsUpdate (DonationData.email data)
                     | None => DonorsCreate (DonationData.email data)
                     end;
                     DonationsCreate donation])%list /\
    email donor = DonationData.email data /\
    totalDonations donor =
      Some (numberOrZero (match previous with
                          | Some d => totalDonations d
                          | None => None
                          end) + DonationData.amount data)%Q /\
    lastDonationDate donor = Some (DonationData.created data) /\
    donationFrequency donor =
      patched (DonationData.frequency data)
              (match previous with
               | Some d => donationFrequency d
               | None => None
               end) /\
    isRecurring donation = DonationData.isRecurring data /\
    amount donation = DonationData.amount data /\
    donorEmail donation = DonationData.email data.
Proof.
  intros Hfault Hemail Hamount Hkeyed. cbv zeta.
  unfold saveDonationRecord.
  apply String.eqb_neq in Hemail. rewrite Hemail, Hamount. cbn [orb].
  unfold tryCatch.
  rewrite (bind_normal _ _ _ _ _ (donorsGetFirst_ok _ _ _ (Hfault _))).
  destruct (donors w !! DonationData.email data) as [d|] eqn:Hd.
  - pose proof (Hkeyed _ _ Hd) as Hkey. rewrite Hkey.
    erewrite bind_normal;
      [|apply donorsUpdate_ok; [apply Hfault | exact Hd]].
    cbv beta iota.
    erewrite bind_normal; [|apply donationsCreate_ok, Hfault].
    do 3 eexists. split; [reflexivity|]. simpl.
    rewrite <- !app_assoc. repeat split; assumption.
  - erewrite bind_normal; [|apply donorsCreate_ok; [apply Hfault | exact Hd]].
    cbv beta iota.
    erewrite bind_normal; [|apply donationsCreate_ok, Hfault].
    do 3 eexists. split; [reflexivity|]. simpl.
    rewrite <- !app_assoc. repeat split.
    destruct (DonationData.frequency data); reflexivity.
Qed.

(** ** Mail never touches the storage *)

Lemma storageCalls_failedAttempts env mailOptions maxRetries baseDelay k :
  forall attempt,
    storageCalls (failedAttempts env mailOptions maxRetries baseDelay k attempt) = [].
Proof.
  induction k as [|k IH]; intros attempt; [reflexivity|].
  cbn [failedAttempts]. unfold storageCalls in *. cbn [List.filter isStorageCall].
  rewrite List.filter_app, IH. unfold waitAfter.
  destruct (attempt + 1 <? maxRetries); reflexivity.
Qed.

Lemma sendWithRetry_storageUntouched env mailOptions emailType maxRetries baseDelay w :
  storageUntouched w (snd (sendWithRetry env mailOptions emailType maxRetries baseDelay w)).
Proof.
  unfold sendWithRetry, bind.
  destruct (retryLoop_cases env mailOptions maxRetries baseDelay
              (Z.to_nat maxRetries) (S (Z.to_nat maxRetries)) 0 JsNull w)
    as [k [_ [(result & info & _ & _ & Hloop) | (lastError & _ & Hloop)]]];
    try (f_equal; lia); try lia; rewrite Hloop; simpl; repeat split.
  - eexists. split; [reflexivity|]. unfold storageCalls.
    rewrite List.filter_app. fold (storageCalls (failedAttempts env mailOptions maxRetries baseDelay k 0)).
    now rewrite storageCalls_failedAttempts.
  - eexists. split; [reflexivity|]. apply storageCalls_failedAttempts.
Qed.

Lemma sendDonationEmail_storageUntouched env params w :
  storageUntouched w (snd (sendDonationEmail env params w)).
Proof.
  unfold sendDonationEmail. rewrite bind_perform. unfold tryCatch.
  assert (Hfirst : storageUntouched
                     w (addEffects [SendDonationEmail (DonationEmailParams.to params)] w)).
  { repeat split. now eexists. }
  destruct (generateDonationReceiptPDF env) as [pdfBytes|err];
    [rewrite bind_await_fulfilled | rewrite bind_await_rejected; exact Hfirst].
  destruct (renderTemplate env "donation-receipt") as [html|err];
    [rewrite bind_await_fulfilled | rewrite bind_await_rejected; exact Hfirst].
  match goal with
  | |- context [bind (sendWithRetry ?e ?o ?t ?m ?b) _ ?w1] =>
      pose proof (sendWithRetry_storageUntouched e o t m b w1) as Hsend;
      unfold bind at 1;
      destruct (sendWithRetry e o t m b w1) as [[result|exn|] w2]
  end; simpl in *; eapply storageUntouched_trans; eassumption.
Qed.

(** Once the records are saved, the mail that follows (whether or not it
    is delivered) changes nothing in the storage, and the [try] block ends
    normally. *)
Lemma recordAndNotify_after_save env data params w donor donation w1 :
  saveDonationRecord env data w = (Normal (donor, donation), w1) ->
  exists w',
    recordAndNotify env data params w = (Normal tt, w') /\
    storageUntouched w1 w'.
Proof.
  intros Hsave.
  pose proof (sendDonationEmail_storageUntouched env params w1) as Hmail.
  pose proof (completes_sendDonationEmail env params w1) as Hdone.
  unfold recordAndNotify, tryCatch.
  rewrite (bind_normal _ _ _ _ _ Hsave). unfold bind.
  destruct (sendDonationEmail env params w1) as [[result|exn|] w2]; simpl in *;
    [now exists w2 | now exists w2 | congruence].
Qed.

(** ** Recurring invoices *)

Lemma storageCalls_app es1 es2 :
  storageCalls (es1 ++ es2) = (storageCalls es1 ++ storageCalls es2)%list.
Proof. apply List.filter_app. Qed.

Lemma handleInvoicePaymentSucceeded_records
      env invoice subscriptionId subscription customer
      customerEmail customerName customerPhone w :
  nonEmpty (Invoice.subscription invoice) = Some subscriptionId ->
  subscriptionsRetrieve env subscriptionId = Fulfilled subscription ->
  customersRetrieve env (Invoice.customer invoice) = Fulfilled customer ->
  customerDetails invoice subscription customer
    = Some (customerEmail, customerName, customerPhone) ->
  customerEmail <> "" ->
  Invoice.amount_paid invoice <> 0 ->
  (forall op, storageFault env op = None) ->
  keyedByEmail (donors w) ->
  exists w',
    handleInvoicePaymentSucceeded env invoice w = (Normal received, w') /\
    recurringDonationRecorded invoice subscription customerEmail w w'.
Proof.
  intros Hsub Hsubs Hcust Hdetails Hemail Hpaid Hfault Hkeyed.
  unfold handleInvoicePaymentSucceeded. rewrite Hsub.
  rewrite !bind_perform, Hsubs, bind_await_fulfilled, Hcust, bind_await_fulfilled, Hdetails.
  cbv zeta.
  match goal with
  | |- context [bind (lookupPaymentMethod env ?pid) _ ?w1] =>
      destruct (lookupPaymentMethod_normal env pid w1)
        as (paymentMethod & w2 & Hpm & Hd2 & Hn2 & es2 & He2 & Hs2)
  end.
  rewrite (bind_normal _ _ _ _ _ Hpm).
  match goal with
  | |- context [bind (recordAndNotify env ?d ?p) _ w2] =>
      destruct (saveDonationRecord_saves env d w2 Hfault Hemail
                  (falsyNumber_cents _ Hpaid))
        as (donor & donation & w3 & Hsave & Hd3 & Hn3 & He3 & Hkey & Htotal & Hdate
            & Hfreq & Hrec & Hamount & Hdonor);
      [now rewrite Hd2|];
      destruct (recordAndNotify_after_save env d p w2 donor donation w3 Hsave)
        as (w4 & Hnotify & Hd4 & Hn4 & es4 & He4 & Hs4)
  end.
  rewrite (bind_normal _ _ _ _ _ Hnotify).
  exists w4. split; [reflexivity|].
  cbn [DonationData.email DonationData.amount DonationData.created
       DonationData.frequency DonationData.isRecurring] in *.
  rewrite Hd2 in *. simpl donors in *.
  exists donor, donation. rewrite Hd4, Hd3, Hn4, Hn3, Hn2.
  repeat split; try assumption.
  - rewrite map_size_insert. now destruct (donors w !! customerEmail).
  - eexists. split.
    + rewrite He4, He3, He2. simpl effects. rewrite <- !app_assoc. reflexivity.
    + rewrite !storageCalls_app, Hs2, Hs4. simpl.
      now destruct (donors w !! customerEmail).
Qed.

Lemma handleInvoicePaymentSucceeded_unpaid
      env invoice subscriptionId subscription customer
      customerEmail customerName customerPhone w :
  nonEmpty (Invoice.subscription invoice) = Some subscriptionId ->
  subscriptionsRetrieve env subscriptionId = Fulfilled subscription ->
  customersRetrieve env (Invoice.customer invoice) = Fulfilled customer ->
  customerDetails invoice subscription customer
    = Some (customerEmail, customerName, customerPhone) ->
  Invoice.amount_paid invoice = 0 ->
  exists w',
    handleInvoicePaymentSucceeded env invoice w = (Normal received, w') /\
    storageUntouched w w'.
Proof.
  intros Hsub Hsubs Hcust Hdetails Hpaid.
  unfold handleInvoicePaymentSucceeded. rewrite Hsub.
  rewrite !bind_perform, Hsubs, bind_await_fulfilled, Hcust, bind_await_fulfilled, Hdetails.
  cbv zeta.
  match goal with
  | |- context [bind (lookupPaymentMethod env ?pid) _ ?w1] =>
      destruct (lookupPaymentMethod_normal env pid w1)
        as (paymentMethod & w2 & Hpm & Hd2 & Hn2 & es2 & He2 & Hs2)
  end.
  rewrite (bind_normal _ _ _ _ _ Hpm).
  match goal with
  | |- context [bind (recordAndNotify env ?d ?p) _ w2] =>
      assert (Hnotify : recordAndNotify env d p w2 = (Normal tt, w2))
  end.
  { unfold recordAndNotify, saveDonationRecord.
    cbn [DonationData.email DonationData.amount]. rewrite Hpaid.
    replace (falsyNumber (inject_Z 0 / 100)) with true by reflexivity.
    rewrite orb_true_r. reflexivity. }
  rewrite (bind_normal _ _ _ _ _ Hnotify).
  exists w2. split; [reflexivity|].
  split; [now rewrite Hd2 | split; [now rewrite Hn2|]].
  exists ([SubscriptionsRetrieve subscriptionId; CustomersRetrieve (Invoice.customer invoice)]
            ++ es2)%list.
  split.
  - rewrite He2. simpl effects. rewrite <- !app_assoc. reflexivity.
  - rewrite storageCalls_app, Hs2. reflexivity.
Qed.

(** C6, as amended: for an authenticated [invoice.payment_succeeded] event
    with a subscription, when the subscription and customer lookups
    succeed, the customer email is known, the database accepts the calls
    and the donors table is keyed by email, the event is acknowledged.  If
    [amount_paid] is not zero, the donor row is updated in place (lifetime
    total [previousTotal + amount_paid / 100], new timestamp and frequency)
    if it exists and created otherwise, and exactly one donation, marked
    recurring, is added.  If [amount_paid] is zero, no storage call is made
    and the donors and donations are as before. *)
Theorem recurring_invoice_recorded
        env req invoice subscriptionId subscription customer
        customerEmail customerName customerPhone w :
  verifies env req (invoicePaymentSucceeded invoice) ->
  nonEmpty (Invoice.subscription invoice) = Some subscriptionId ->
  subscriptionsRetrieve env subscriptionId = Fulfilled subscription ->
  customersRetrieve env (Invoice.customer invoice) = Fulfilled customer ->
  customerDetails invoice subscription customer
    = Some (customerEmail, customerName, customerPhone) ->
  customerEmail <> "" ->
  (forall op, storageFault env op = None) ->
  keyedByEmail (donors w) ->
  fst (POST env req w) = Normal received /\
  (Invoice.amount_paid invoice <> 0 ->
   recurringDonationRecorded invoice subscription customerEmail w (snd (POST env req w))) /\
  (Invoice.amount_paid invoice = 0 ->
   storageUntouched w (snd (POST env req w))).
Proof.
  intros Hver Hsub Hsubs Hcust Hdetails Hemail Hfault Hkeyed.
  rewrite (POST_verified _ _ _ _ Hver).
  change (processEvent env (invoicePaymentSucceeded invoice) w)
    with (tryCatch (handleInvoicePaymentSucceeded env invoice)
                   (fun _ => ret (jsonWithStatus (Failure "Failed to process webhook") 500))
                   w).
  unfold tryCatch.
  destruct (Z.eq_dec (Invoice.amount_paid invoice) 0) as [Hzero|Hpaid].
  - destruct (handleInvoicePaymentSucceeded_unpaid
                env invoice subscriptionId subscription customer
                customerEmail customerName customerPhone w
                Hsub Hsubs Hcust Hdetails Hzero)
      as (w' & Hhandle & Hsame).
    rewrite Hhandle. split; [reflexivity|]. split; [intros Hpaid; now destruct Hpaid|].
    intros _. exact Hsame.
  - destruct (handleInvoicePaymentSucceeded_records
                env invoice subscriptionId subscription customer
                customerEmail customerName customerPhone w
                Hsub Hsubs Hcust Hdetails Hemail Hpaid Hfault Hkeyed)
      as (w' & Hhandle & Hrecorded).
    rewrite Hhandle. split; [reflexivity|]. split; [intros _; exact Hrecorded|].
    intros Hzero. now destruct Hpaid.
Qed.

(** ** The theorems at concrete inputs *)

(** Three refused attempts: the call throws and only the failure counter
    moves. *)
Lemma sendWithRetry_exhausted_witness :
  1 <= 3 /\
  (forall i, 0 <= i < 3 ->
             sendMail refusingTransport i = Rejected (JsError "ECONNREFUSED")) /\
  sendWithRetry refusingTransport receiptMail "donation-receipt" 3 1000 initialWorld
  = (Thrown (JsError "ECONNREFUSED"),
     withMetrics
       {| totalSent := 0; totalFailed := 1;
          lastFailed :=
            Some {| emailType := "donation-receipt"; recipient := "ada@example.org";
                    error := JsError "ECONNREFUSED"; timestamp := 1750000000000 |};
          deliveryRate := (inject_Z 0 / inject_Z 1 * 100)%Q |}
       (addEffects
          [TransporterSendMail receiptMail; SetTimeout (1000 * 2 ^ 0 + (1 # 4) * 500)%Q;
           TransporterSendMail receiptMail; SetTimeout (1000 * 2 ^ 1 + (1 # 4) * 500)%Q;
           TransporterSendMail receiptMail]
          initialWorld)) /\
  fst (sendWithRetry refusingTransport receiptMail "donation-receipt" 3 1000 initialWorld)
  = Thrown (JsError "ECONNREFUSED") /\
  totalFailed (emailMetrics (snd (sendWithRetry refusingTransport receiptMail
                                                 "donation-receipt" 3 1000 initialWorld)))
  = totalFailed (emailMetrics initialWorld) + 1.
Proof.
  split; [lia|]. split; [reflexivity|]. split; [reflexivity|].
  destruct (sendWithRetry_exhausted refusingTransport receiptMail "donation-receipt" 3 1000
              (fun _ => JsError "ECONNREFUSED") initialWorld) as (Hthrown & Hfailed & _);
    [lia | reflexivity |].
  split; [exact Hthrown | exact Hfailed].
Defined.

(** Two timeouts, then success at the third attempt. *)
Lemma sendWithRetry_succeeds_at_witness :
  1 <= 3 <= 3 /\
  sendMail flakyTransport (3 - 1) = Fulfilled {| info_messageId := "<1@example.org>" |} /\
  fst (sendWithRetry flakyTransport receiptMail "donation-receipt" 3 1000 initialWorld)
  = Normal {| success := true; messageId := "<1@example.org>"; attempts := 3 |} /\
  emailMetrics (snd (sendWithRetry flakyTransport receiptMail "donation-receipt" 3 1000
                                   initialWorld))
  = {| totalSent := 1; totalFailed := 0; lastFailed := None;
       deliveryRate := (inject_Z 1 / inject_Z 1 * 100)%Q |} /\
  totalSent (emailMetrics (snd (sendWithRetry flakyTransport receiptMail
                                               "donation-receipt" 3 1000 initialWorld)))
  = totalSent (emailMetrics initialWorld) + 1.
Proof.
  split; [lia|]. split; [reflexivity|].
  destruct (sendWithRetry_succeeds_at flakyTransport receiptMail "donation-receipt" 3 1000
              3 {| info_messageId := "<1@example.org>" |} initialWorld)
    as (Hresult & Hsent & _); [lia | | reflexivity |].
  - intros i Hi. exists (JsError "ETIMEDOUT").
    assert (Hcases : i = 0 \/ i = 1) by lia.
    destruct Hcases as [-> | ->]; reflexivity.
  - split; [exact Hresult|]. split; [reflexivity | exact Hsent].
Defined.

(** Three refused attempts with a jitter of 125: two waits, of 1125 and
    2125. *)
Lemma backoff_schedule_witness :
  1 <= 3 /\
  (forall i, 0 <= mathRandom refusingTransport i /\ mathRandom refusingTransport i < 1)%Q /\
  effects (snd (sendWithRetry refusingTransport receiptMail "donation-receipt" 3 1000
                              initialWorld))
  = [TransporterSendMail receiptMail; SetTimeout (1000 * 2 ^ 0 + (1 # 4) * 500)%Q;
     TransporterSendMail receiptMail; SetTimeout (1000 * 2 ^ 1 + (1 # 4) * 500)%Q;
     TransporterSendMail receiptMail] /\
  exists jitters : list Q,
    let n := Z.of_nat (length jitters) in
    Forall (fun j => 0 <= j /\ j < 500)%Q jitters /\
    n < 3 /\
    (forall a, 1 <= a <= n -> exists err, sendMail refusingTransport (a - 1) = Rejected err) /\
    ((exists info, sendMail refusingTransport n = Fulfilled info) \/ n = 3 - 1) /\
    effects (snd (sendWithRetry refusingTransport receiptMail "donation-receipt" 3 1000
                                initialWorld)) =
      (effects initialWorld ++ schedule receiptMail (backoffDelays 1000 0 jitters))%list /\
    (Qsum (backoffDelays 1000 0 jitters) <= 1000 * (2 ^ n - 1) + 500 * inject_Z n)%Q.
Proof.
  split; [lia|]. split; [intros i; split; [discriminate | reflexivity]|].
  split; [reflexivity|].
  apply (backoff_schedule refusingTransport receiptMail "donation-receipt" 3 1000
           initialWorld); [lia|].
  intros i; split; [discriminate | reflexivity].
Defined.

Lemma signedRequest_verifies event subscriptions :
  verifies (exampleEnv event subscriptions) signedRequest event.
Proof. exists "{}", (Some validSignature), validSignature. repeat split. Defined.

(** A request without a signature header is rejected with 400. *)
Lemma POST_rejects_unverified_witness :
  failsVerification (exampleEnv refundEvent subscriptionsUp) unsignedRequest /\
  exists resp,
    POST (exampleEnv refundEvent subscriptionsUp) unsignedRequest worldWithAda
      = (Normal resp, worldWithAda) /\
    status resp = 400 /\
    ~ acknowledged (POST (exampleEnv refundEvent subscriptionsUp) unsignedRequest worldWithAda).
Proof.
  assert (H : failsVerification (exampleEnv refundEvent subscriptionsUp) unsignedRequest)
    by (exists "{}", None; repeat split; now left).
  split; [exact H|].
  exact (POST_rejects_unverified (exampleEnv refundEvent subscriptionsUp)
                                 unsignedRequest worldWithAda H).
Defined.

(** A [charge.refunded] event is acknowledged and nothing happens. *)
Lemma POST_acknowledges_unhandled_witness :
  verifies (exampleEnv refundEvent subscriptionsUp) signedRequest refundEvent /\
  ~ In (type refundEvent) handledTypes /\
  POST (exampleEnv refundEvent subscriptionsUp) signedRequest worldWithAda
    = (Normal received, worldWithAda) /\
  status received = 200 /\
  acknowledged (POST (exampleEnv refundEvent subscriptionsUp) signedRequest worldWithAda).
Proof.
  assert (Hnot : ~ In (type refundEvent) handledTypes).
  { simpl. intros H. repeat (destruct H as [H|H]; [discriminate H|]). exact H. }
  split; [apply signedRequest_verifies|]. split; [exact Hnot|].
  exact (POST_acknowledges_unhandled (exampleEnv refundEvent subscriptionsUp)
           signedRequest refundEvent worldWithAda
           (signedRequest_verifies refundEvent subscriptionsUp) Hnot).
Defined.

(** The payment intent of a subscription is acknowledged and skipped. *)
Lemma payment_intent_of_subscription_skipped_witness :
  PaymentIntent.metadata subscriptionPaymentIntent !! "subscriptionId" = Some "sub_1" /\
  POST (exampleEnv (paymentIntentSucceeded subscriptionPaymentIntent) subscriptionsUp)
       signedRequest worldWithAda
    = (Normal received, worldWithAda) /\
  status received = 200.
Proof.
  split; [reflexivity|].
  apply (payment_intent_of_subscription_skipped
           (exampleEnv (paymentIntentSucceeded subscriptionPaymentIntent) subscriptionsUp)
           signedRequest subscriptionPaymentIntent worldWithAda).
  - apply signedRequest_verifies.
  - left. exists "sub_1". split; [reflexivity | discriminate].
Defined.

Lemma worldWithAda_keyed : keyedByEmail (donors worldWithAda).
Proof.
  intros k d H. simpl in H. apply lookup_singleton_Some in H as [<- <-]. reflexivity.
Defined.

(** Ada's recurring invoice of 25.00: her row is updated in place and one
    recurring donation is added. *)
Lemma recurring_invoice_recorded_witness :
  donors worldWithAda !! "ada@example.org" = Some ada /\
  fst (POST recurringEnv signedRequest worldWithAda) = Normal received /\
  recurringDonationRecorded (recurringInvoice 2500) (weeklySubscription "sub_1")
                            "ada@example.org" worldWithAda
                            (snd (POST recurringEnv signedRequest worldWithAda)).
Proof.
  split; [reflexivity|].
  destruct (recurring_invoice_recorded
              recurringEnv signedRequest (recurringInvoice 2500) "sub_1"
              (weeklySubscription "sub_1")
              (LiveCustomer {| Customer.email := Some "ada@example.org";
                               Customer.name := Some "Ada";
                               Customer.phone := None |})
              "ada@example.org" "Ada" None worldWithAda
              (signedRequest_verifies _ _) eq_refl eq_refl eq_refl eq_refl
              ltac:(discriminate) (fun _ => eq_refl) worldWithAda_keyed)
    as (Hresponse & Hrecorded & _).
  split; [exact Hresponse | apply Hrecorded; discriminate].
Defined.

(** C6 fails as stated: a recurring invoice whose [amount_paid] is zero (a
    trial period, a full discount) is refused by the guard of
    [saveDonationRecord]; the event is acknowledged, Ada's row is not
    touched and no donation is added. *)
Lemma recurring_invoice_of_zero_not_recorded :
  verifies zeroInvoiceEnv signedRequest (invoicePaymentSucceeded (recurringInvoice 0)) /\
  Invoice.subscription (recurringInvoice 0) = Some "sub_1" /\
  donors worldWithAda !! "ada@example.org" = Some ada /\
  fst (POST zeroInvoiceEnv signedRequest worldWithAda) = Normal received /\
  donations (snd (POST zeroInvoiceEnv signedRequest worldWithAda)) = [] /\
  donors (snd (POST zeroInvoiceEnv signedRequest worldWithAda)) = donors worldWithAda /\
  ~ recurringDonationRecorded (recurringInvoice 0) (weeklySubscription "sub_1")
                              "ada@example.org" worldWithAda
                              (snd (POST zeroInvoiceEnv signedRequest worldWithAda)).
Proof.
  split; [apply signedRequest_verifies|].
  split; [reflexivity|]. split; [reflexivity|].
  assert (Hrun : POST zeroInvoiceEnv signedRequest worldWithAda
                 = (Normal received,
                    addEffects [SubscriptionsRetrieve "sub_1"; CustomersRetrieve "cus_1"]
                               worldWithAda))
    by reflexivity.
  rewrite Hrun. split; [reflexivity|]. split; [reflexivity|]. split; [reflexivity|].
  intros (donor & donation & _ & _ & _ & _ & _ & _ & Hdonations & _).
  simpl in Hdonations. discriminate Hdonations.
Qed.

(** The status theorem at a recurring invoice whose subscription lookup
    fails. *)
Lemma POST_status_of_authenticated_witness :
  verifies outageEnv signedRequest (invoicePaymentSucceeded (recurringInvoice 2500)) /\
  exists resp,
    fst (POST outageEnv signedRequest worldWithAda) = Normal resp /\
    status resp = 500.
Proof.
  split; [apply signedRequest_verifies|].
  exact (POST_status_of_authenticated
           outageEnv signedRequest (invoicePaymentSucceeded (recurringInvoice 2500))
           worldWithAda (signedRequest_verifies _ _)).
Defined.

(** C7 fails as stated: when the subscription lookup of a recurring
    invoice is rejected, the failure is not caught inside the handler; it
    reaches the top-level [catch] of [POST], which answers 500. *)
Lemma enrichment_failure_not_acknowledged :
  verifies outageEnv signedRequest (invoicePaymentSucceeded (recurringInvoice 2500)) /\
  route (type (invoicePaymentSucceeded (recurringInvoice 2500)))
    = HandleInvoicePaymentSucceeded /\
  subscriptionsRetrieve outageEnv "sub_1" = Rejected (JsError "api_connection_error") /\
  fst (POST outageEnv signedRequest worldWithAda)
    = Normal (jsonWithStatus (Failure "Failed to process webhook") 500) /\
  ~ acknowledged (POST outageEnv signedRequest worldWithAda).
Proof.
  split; [apply signedRequest_verifies|].
  split; [reflexivity|]. split; [reflexivity|].
  assert (Hrun : fst (POST outageEnv signedRequest worldWithAda)
                 = Normal (jsonWithStatus (Failure "Failed to process webhook") 500))
    by reflexivity.
  split; [exact Hrun|].
  intros (resp & Hresp & Hstatus). rewrite Hrun in Hresp.
  injection Hresp as <-. simpl in Hstatus. lia.
Qed.

(** * Further properties *)

(** ** The retrying sender, whatever the transport answers *)

(** Every run of [sendWithRetry], in full: it returns at the first
    accepted attempt, or throws when all the attempts of the budget are
    rejected; the world afterwards is given in both cases. *)
Lemma sendWithRetry_run env mailOptions emailType maxRetries baseDelay w :
  (exists (k : nat) info,
      Z.of_nat k < maxRetries /\
      (forall j, 0 <= j < Z.of_nat k -> exists err, sendMail env j = Rejected err) /\
      sendMail env (Z.of_nat k) = Fulfilled info /\
      sendWithRetry env mailOptions emailType maxRetries baseDelay w =
        (Normal {| success := true; messageId := info_messageId info;
                   attempts := Z.of_nat k + 1 |},
         withMetrics (afterSuccess (emailMetrics w))
                     (addEffects (failedAttempts env mailOptions maxRetries baseDelay k 0
                                  ++ [TransporterSendMail mailOptions]) w)))
  \/
  (exists lastError,
      (forall j, 0 <= j < maxRetries -> exists err, sendMail env j = Rejected err) /\
      sendWithRetry env mailOptions emailType maxRetries baseDelay w =
        (Thrown lastError,
         withMetrics (afterFailure (emailMetrics w)
                                   (Build_LastFailed emailType (to mailOptions) lastError
                                                     (now env)))
                     (addEffects (failedAttempts env mailOptions maxRetries baseDelay
                                                 (Z.to_nat maxRetries) 0) w))).
Proof.
  destruct (retryLoop_cases env mailOptions maxRetries baseDelay
              (Z.to_nat maxRetries) (S (Z.to_nat maxRetries)) 0 JsNull w)
    as [k [Hfailed [(result & info & Hk & Hinfo & _) | (lastError & Hk & Hloop)]]];
    try (f_equal; lia); try lia.
  - left. exists k, info. simpl in Hk, Hinfo, Hfailed.
    split; [lia|]. split; [exact Hfailed|]. split; [exact Hinfo|].
    unfold sendWithRetry, bind.
    rewrite (retryLoop_succeeds_at env mailOptions maxRetries baseDelay
               (Z.of_nat k) info k) by (try assumption; lia).
    reflexivity.
  - right. exists lastError. subst k. split.
    + intros j Hj. apply Hfailed. lia.
    + unfold sendWithRetry, bind. rewrite Hloop. reflexivity.
Qed.

(** X1: [sendWithRetry] returns exactly when one of the attempts of its
    budget is accepted, and then reports the first accepted attempt (its
    number and its message id); it throws exactly when every attempt of
    the budget is rejected. *)
Theorem sendWithRetry_outcome env mailOptions emailType maxRetries baseDelay w :
  let r := sendWithRetry env mailOptions emailType maxRetries baseDelay w in
  (exists i info,
      0 <= i < maxRetries /\
      sendMail env i = Fulfilled info /\
      (forall j, 0 <= j < i -> isRejected (sendMail env j) = true) /\
      fst r = Normal {| success := true; messageId := info_messageId info;
                        attempts := i + 1 |})
  \/
  ((forall i, 0 <= i < maxRetries -> isRejected (sendMail env i) = true) /\
   exists e, fst r = Thrown e).
Proof.
  cbv zeta.
  destruct (sendWithRetry_run env mailOptions emailType maxRetries baseDelay w)
    as [(k & info & Hk & Hfailed & Hinfo & Hrun) | (lastError & Hfailed & Hrun)];
    rewrite Hrun.
  - left. exists (Z.of_nat k), info.
    split; [lia|]. split; [exact Hinfo|]. split; [|reflexivity].
    intros j Hj. destruct (Hfailed j Hj) as [err ->]. reflexivity.
  - right. split; [|now exists lastError].
    intros i Hi. destruct (Hfailed i Hi) as [err ->]. reflexivity.
Qed.

Lemma transportCalls_failedAttempts env mailOptions maxRetries baseDelay k :
  forall attempt,
    transportCalls (failedAttempts env mailOptions maxRetries baseDelay k attempt)
    = repeat (TransporterSendMail mailOptions) k.
Proof.
  induction k as [|k IH]; intros attempt; [reflexivity|].
  cbn [failedAttempts repeat]. unfold transportCalls in *.
  cbn [List.filter isTransportCall].
  rewrite List.filter_app, IH. unfold waitAfter.
  destruct (attempt + 1 <? maxRetries); reflexivity.
Qed.

Lemma transportCalls_app es1 es2 :
  transportCalls (es1 ++ es2) = (transportCalls es1 ++ transportCalls es2)%list.
Proof. apply List.filter_app. Qed.

(** X2: a call of [sendWithRetry] makes at most [max 0 maxRetries] transport
    calls, all with the given message; a returned [attempts] is the number
    of transport calls made, and a throw means the whole budget was used. *)
Theorem sendWithRetry_attempts_bounded env mailOptions emailType maxRetries baseDelay w :
  let r := sendWithRetry env mailOptions emailType maxRetries baseDelay w in
  exists es n,
    effects (snd r) = (effects w ++ es)%list /\
    transportCalls es = repeat (TransporterSendMail mailOptions) n /\
    Z.of_nat n <= Z.max 0 maxRetries /\
    match fst r with
    | Normal result => attempts result = Z.of_nat n
    | Thrown _ => Z.of_nat n = Z.max 0 maxRetries
    | OutOfFuel => False
    end.
Proof.
  cbv zeta.
  destruct (sendWithRetry_run env mailOptions emailType maxRetries baseDelay w)
    as [(k & info & Hk & _ & _ & Hrun) | (lastError & _ & Hrun)];
    rewrite Hrun; cbn [fst snd].
  - eexists. exists (S k). split; [reflexivity|]. split.
    + unfold transportCalls. rewrite List.filter_app.
      fold (transportCalls (failedAttempts env mailOptions maxRetries baseDelay k 0)).
      rewrite transportCalls_failedAttempts. simpl.
      now rewrite <- repeat_cons.
    + split; [lia|]. simpl. lia.
  - eexists. exists (Z.to_nat maxRetries). split; [reflexivity|].
    split; [apply transportCalls_failedAttempts|]. lia.
Qed.

(** ** The delivery metrics over time *)

Lemma recomputedRate_range (sent failed : Z) :
  0 <= sent -> 0 <= failed ->
  (0 <= recomputedRate sent failed /\ recomputedRate sent failed <= 100)%Q.
Proof.
  intros Hs Hf. unfold recomputedRate.
  destruct (Z.ltb_spec 0 (sent + failed)) as [Hpos|_]; [|split; discriminate].
  destruct (sent + failed) as [|p|p] eqn:Ht; try lia.
  unfold Qle, Qdiv, Qmult, Qinv, inject_Z. simpl. split; nia.
Qed.

(** X3: after any sequence of completed calls of [sendWithRetry] from the
    zeroed metrics, the delivery rate lies between 0 and 100. *)
Theorem deliveryRate_in_range (calls : list Call) :
  let m := emailMetrics (snd (runCalls calls initialWorld)) in
  (0 <= deliveryRate m /\ deliveryRate m <= 100)%Q.
Proof.
  assert (Hinit : metricsInv (emailMetrics initialWorld))
    by (repeat split; simpl; lia).
  destruct (runCalls_counts calls initialWorld Hinit) as ((Hs & Hf & Hr) & _).
  cbv zeta. rewrite Hr. now apply recomputedRate_range.
Qed.

Lemma runCalls_snapshot (calls : list Call) :
  forall w,
    lastFailed (emailMetrics (snd (runCalls calls w)))
    = snapshotAfter (lastFailed (emailMetrics w)) calls (fst (runCalls calls w)).
Proof.
  induction calls as [|c cs IH]; intros w; [reflexivity|].
  cbn [runCalls]. unfold runCall.
  pose proof (sendWithRetry_completes (callEnv c) (callOptions c) (callType c)
                (callMaxRetries c) (callBaseDelay c) w) as H. cbv zeta in H.
  destruct (sendWithRetry (callEnv c) (callOptions c) (callType c)
              (callMaxRetries c) (callBaseDelay c) w) as [r w'].
  specialize (IH w'). destruct (runCalls cs w') as [rs w''].
  cbn [fst snd] in *. cbn [snapshotAfter]. rewrite IH.
  destruct H as (_ & _ & [(result & -> & Hm) | (lastError & -> & Hm)]);
    rewrite Hm; reflexivity.
Qed.

(** X4: after any sequence of completed calls from the zeroed metrics,
    [lastFailed] is the snapshot (label, recipient, error, time) of the most
    recent call that threw, and is absent when none did: later successes
    never clear it. *)
Theorem lastFailed_is_latest_exhaustion (calls : list Call) :
  let r := runCalls calls initialWorld in
  lastFailed (emailMetrics (snd r)) = snapshotAfter None calls (fst r) /\
  (exhaustions (fst r) = 0 <-> lastFailed (emailMetrics (snd r)) = None).
Proof.
  cbv zeta. rewrite runCalls_snapshot. split; [reflexivity|].
  change (lastFailed (emailMetrics initialWorld)) with (@None LastFailed).
  assert (Hlen : length (fst (runCalls calls initialWorld)) = length calls).
  { generalize initialWorld. induction calls as [|c cs IH]; intros w; [reflexivity|].
    cbn [runCalls]. destruct (runCall c w) as [r w'].
    specialize (IH w'). destruct (runCalls cs w') as [rs w'']. simpl in *. now rewrite IH. }
  revert Hlen. generalize (fst (runCalls calls initialWorld)) as rs.
  unfold exhaustions.
  assert (Hgen : forall cs rs previous,
             length rs = length cs ->
             (snapshotAfter previous cs rs = None <->
              previous = None /\ length (List.filter isExhausted rs) = 0%nat)).
  { induction cs as [|c cs IH]; intros [|r rs] previous Hlen; try discriminate.
    - simpl. tauto.
    - cbn [snapshotAfter List.filter]. injection Hlen as Hlen.
      rewrite (IH rs _ Hlen).
      destruct r as [result|e|]; simpl; split; intros [H1 H2];
        try discriminate; now split. }
  intros rs Hlen. specialize (Hgen calls rs None Hlen).
  split.
  - intros H. apply Hgen. split; [reflexivity | lia].
  - intros H. apply Hgen in H. lia.
Qed.

(** ** The exported mail functions *)

Lemma tryCatch_rethrow {A} (c : Js A) w : tryCatch c (fun e => throw e) w = c w.
Proof. unfold tryCatch, throw. destruct (c w) as [[a|e|] w']; reflexivity. Qed.

Lemma bind_ret_r {A} (c : Js A) w : bind c (fun a => ret a) w = c w.
Proof. unfold bind, ret. destruct (c w) as [[a|e|] w']; reflexivity. Qed.

(** Once the receipt and the template are rendered, each mail function is
    one call of [sendWithRetry] with the default budget, its own label and a
    message addressed to its [to]. *)
Lemma runMailer_prepared env m w :
  preparationError env m = None ->
  exists mailOptions es0,
    to mailOptions = mailerRecipient m /\
    transportCalls es0 = [] /\ storageCalls es0 = [] /\
    runMailer env m w =
      sendWithRetry (mail env) mailOptions (mailerLabel m)
                    defaultMaxRetries defaultBaseDelay (addEffects es0 w).
Proof.
  unfold preparationError. intros H.
  destruct m; cbn [runMailer mailerLabel mailerRecipient mailerTemplate] in *;
    [ destruct (generateDonationReceiptPDF env) as [pdfBytes|] eqn:Hpdf; [|discriminate] | .. ];
    match type of H with
    | context [renderTemplate env ?t] =>
        destruct (renderTemplate env t) as [rendered|] eqn:Htemplate; [|discriminate]
    end.
  - unfold sendDonationEmail. rewrite bind_perform, tryCatch_rethrow, Hpdf,
      bind_await_fulfilled, Htemplate, bind_await_fulfilled, bind_ret_r.
    eexists. exists [SendDonationEmail (DonationEmailParams.to params)].
    repeat split; reflexivity.
  - unfold sendPaymentFailedEmail. rewrite bind_perform, tryCatch_rethrow, Htemplate,
      bind_await_fulfilled, bind_ret_r.
    eexists. exists [SendPaymentFailedEmail (PaymentFailedEmailParams.to params)].
    repeat split; reflexivity.
  - unfold sendAppointmentEmail. rewrite tryCatch_rethrow, Htemplate,
      bind_await_fulfilled, bind_ret_r.
    eexists. exists []. rewrite addEffects_nil. repeat split; reflexivity.
  - unfold sendMessageNotificationEmail. rewrite tryCatch_rethrow, Htemplate,
      bind_await_fulfilled, bind_ret_r.
    eexists. exists []. rewrite addEffects_nil. repeat split; reflexivity.
  - unfold sendEventRegistrationEmail. rewrite tryCatch_rethrow, Htemplate,
      bind_await_fulfilled, bind_ret_r.
    eexists. exists []. rewrite addEffects_nil. repeat split; reflexivity.
  - unfold sendReminderEmail. rewrite tryCatch_rethrow, Htemplate,
      bind_await_fulfilled, bind_ret_r.
    eexists. exists []. rewrite addEffects_nil. repeat split; reflexivity.
Qed.

(** X5: when rendering fails (the PDF receipt of a donation, or the
    template of any of the six mail functions), the function rethrows that
    error without calling the transport: the metrics and the storage are
    as before. *)
Theorem mailer_rethrows_preparation_error env m err w :
  preparationError env m = Some err ->
  let r := runMailer env m w in
  fst r = Thrown err /\
  emailMetrics (snd r) = emailMetrics w /\
  donors (snd r) = donors w /\ donations (snd r) = donations w /\
  exists es,
    effects (snd r) = (effects w ++ es)%list /\
    transportCalls es = [] /\ storageCalls es = [].
Proof.
  unfold preparationError. intros H. cbv zeta.
  destruct m; cbn [runMailer mailerTemplate] in *.
  - unfold sendDonationEmail. rewrite bind_perform, tryCatch_rethrow.
    destruct (generateDonationReceiptPDF env) as [pdfBytes|e].
    + destruct (renderTemplate env "donation-receipt") as [rendered|e];
        [discriminate|]. injection H as ->.
      rewrite bind_await_fulfilled, bind_await_rejected.
      repeat split. now eexists.
    + injection H as ->. rewrite bind_await_rejected. repeat split. now eexists.
  - unfold sendPaymentFailedEmail. rewrite bind_perform, tryCatch_rethrow.
    destruct (renderTemplate env "payment-failed") as [rendered|e]; [discriminate|].
    injection H as ->. rewrite bind_await_rejected. repeat split. now eexists.
  - unfold sendAppointmentEmail. rewrite tryCatch_rethrow.
    destruct (renderTemplate env "appointment-confirmation") as [rendered|e];
      [discriminate|].
    injection H as ->. rewrite bind_await_rejected. repeat split.
    exists []. now rewrite app_nil_r.
  - unfold sendMessageNotificationEmail. rewrite tryCatch_rethrow.
    destruct (renderTemplate env "message-notification") as [rendered|e];
      [discriminate|].
    injection H as ->. rewrite bind_await_rejected. repeat split.
    exists []. now rewrite app_nil_r.
  - unfold sendEventRegistrationEmail. rewrite tryCatch_rethrow.
    destruct (renderTemplate env "event-registration") as [rendered|e];
      [discriminate|].
    injection H as ->. rewrite bind_await_rejected. repeat split.
    exists []. now rewrite app_nil_r.
  - unfold sendReminderEmail. rewrite tryCatch_rethrow.
    destruct (renderTemplate env "appointment-reminder") as [rendered|e];
      [discriminate|].
    injection H as ->. rewrite bind_await_rejected. repeat split.
    exists []. now rewrite app_nil_r.
Qed.

(** X6: once rendering has succeeded, each of the six mail functions is
    one delivery sequence with the default budget: between one and three
    transport calls, all addressed to the function's [to]; on success only
    [totalSent] moves, and on exhaustion the error is rethrown and the
    snapshot bears the function's own label and that recipient. *)
Theorem mailer_is_one_delivery_sequence env m w :
  preparationError env m = None ->
  let r := runMailer env m w in
  (exists mailOptions es n,
      to mailOptions = mailerRecipient m /\
      effects (snd r) = (effects w ++ es)%list /\
      transportCalls es = repeat (TransporterSendMail mailOptions) n /\
      (1 <= n <= 3)%nat) /\
  match fst r with
  | Normal result =>
      1 <= attempts result <= 3 /\
      emailMetrics (snd r) = afterSuccess (emailMetrics w)
  | Thrown e =>
      emailMetrics (snd r) =
        afterFailure (emailMetrics w)
                     {| emailType := mailerLabel m; recipient := mailerRecipient m;
                        error := e; timestamp := now (mail env) |}
  | OutOfFuel => False
  end.
Proof.
  intros Hprep. cbv zeta.
  destruct (runMailer_prepared env m w Hprep)
    as (mailOptions & es0 & Hto & Htransport & _ & ->).
  destruct (sendWithRetry_run (mail env) mailOptions (mailerLabel m)
              defaultMaxRetries defaultBaseDelay (addEffects es0 w))
    as [(k & info & Hk & _ & _ & Hrun) | (lastError & _ & Hrun)];
    rewrite Hrun; cbn [fst snd]; unfold defaultMaxRetries in *.
  - split.
    + exists mailOptions,
        (es0 ++ failedAttempts (mail env) mailOptions 3 defaultBaseDelay k 0
             ++ [TransporterSendMail mailOptions])%list, (S k).
      split; [exact Hto|].
      split; [simpl; now rewrite <- app_assoc|].
      split; [|lia].
      rewrite !transportCalls_app, Htransport, transportCalls_failedAttempts.
      simpl. now rewrite <- repeat_cons.
    + simpl. split; [lia | reflexivity].
  - split.
    + exists mailOptions,
        (es0 ++ failedAttempts (mail env) mailOptions 3 defaultBaseDelay
                               (Z.to_nat 3) 0)%list, 3%nat.
      split; [exact Hto|].
      split; [simpl; now rewrite <- app_assoc|].
      split; [|lia].
      now rewrite transportCalls_app, Htransport, transportCalls_failedAttempts.
    + simpl. now rewrite Hto.
Qed.

(** ** What every request leaves in place *)

Create HintDb frame.

Section Frame.

Variable R : World -> World -> Prop.
Hypothesis R_refl : forall w, R w w.
Hypothesis R_trans : forall w1 w2 w3, R w1 w2 -> R w2 w3 -> R w1 w3.
Hypothesis R_effects : forall es w, R w (addEffects es w).
Hypothesis R_sent : forall w, R w (withMetrics (afterSuccess (emailMetrics w)) w).
Hypothesis R_failed :
  forall lf w, R w (withMetrics (afterFailure (emailMetrics w) lf) w).
Hypothesis R_update :
  forall id d u w,
    donors w !! id = Some d ->
    R w (withDonors (<[id := applyUpdate d u]> (donors w)) w).
Hypothesis R_create :
  forall d w,
    donors w !! email d = None ->
    R w (withDonors (<[email d := d]> (donors w)) w).
Hypothesis R_donation : forall r w, R w (withDonation r w).

Lemma respects_ret {A} (a : A) : respects R (ret a).
Proof. intros w. apply R_refl. Qed.

Lemma respects_throw {A} e : respects R (@throw A e).
Proof. intros w. apply R_refl. Qed.

Lemma respects_await {A} (p : Settled A) : respects R (await p).
Proof. intros w. destruct p; apply R_refl. Qed.

Lemma respects_perform e : respects R (perform e).
Proof. intros w. apply (R_effects [e]). Qed.

Lemma respects_bind {A B} (c : Js A) (k : A -> Js B) :
  respects R c -> (forall a, respects R (k a)) -> respects R (bind c k).
Proof.
  intros Hc Hk w. unfold bind. specialize (Hc w).
  destruct (c w) as [[a|e|] w']; simpl in *; [|assumption..].
  eapply R_trans; [exact Hc | apply Hk].
Qed.

Lemma respects_tryCatch {A} (body : Js A) handler :
  respects R body -> (forall e, respects R (handler e)) -> respects R (tryCatch body handler).
Proof.
  intros Hb Hh w. unfold tryCatch. specialize (Hb w).
  destruct (body w) as [[a|e|] w']; simpl in *; [assumption| |assumption].
  eapply R_trans; [exact Hb | apply Hh].
Qed.

Lemma respects_sendWithRetry env mailOptions emailType maxRetries baseDelay :
  respects R (sendWithRetry env mailOptions emailType maxRetries baseDelay).
Proof.
  intros w.
  destruct (sendWithRetry_run env mailOptions emailType maxRetries baseDelay w)
    as [(k & info & _ & _ & _ & ->) | (lastError & _ & ->)]; cbn [snd];
    (eapply R_trans; [apply R_effects|]).
  - apply (R_sent (addEffects _ w)).
  - apply (R_failed _ (addEffects _ w)).
Qed.

Lemma respects_storageCall env op e : respects R (storageCall env op e).
Proof.
  intros w. unfold storageCall. rewrite bind_perform.
  destruct (storageFault env op); apply (R_effects [e]).
Qed.

Lemma respects_donorsGetFirst env k : respects R (donorsGetFirst env k).
Proof.
  unfold donorsGetFirst. apply respects_bind; [apply respects_storageCall|].
  intros _ w. apply R_refl.
Qed.

Lemma respects_donorsUpdate env id u : respects R (donorsUpdate env id u).
Proof.
  unfold donorsUpdate. apply respects_bind; [apply respects_storageCall|].
  intros _ w. unfold bind, getDonors. simpl.
  destruct (donors w !! id) as [d|] eqn:Hd; [|apply R_refl].
  apply (R_update id d u w Hd).
Qed.

Lemma respects_donorsCreate env d : respects R (donorsCreate env d).
Proof.
  unfold donorsCreate. apply respects_bind; [apply respects_storageCall|].
  intros _ w. unfold bind, getDonors. simpl.
  destruct (donors w !! email d) as [d'|] eqn:Hd; [apply R_refl|].
  apply (R_create d w Hd).
Qed.

Lemma respects_donationsCreate env r : respects R (donationsCreate env r).
Proof.
  unfold donationsCreate. apply respects_bind; [apply respects_storageCall|].
  intros _ w. apply (R_donation r w).
Qed.

#[local] Hint Resolve respects_ret respects_throw respects_await respects_perform
  respects_sendWithRetry respects_donorsGetFirst respects_donorsUpdate
  respects_donorsCreate respects_donationsCreate : frame.
#[local] Hint Extern 2 (respects _ (bind _ _)) =>
  apply respects_bind; [|intros ?] : frame.
#[local] Hint Extern 2 (respects _ (tryCatch _ _)) =>
  apply respects_tryCatch; [|intros ?] : frame.
#[local] Hint Extern 3 (respects _ (match ?x with _ => _ end)) => destruct x : frame.
#[local] Hint Extern 3 (respects _ (if ?x then _ else _)) => destruct x : frame.

Lemma respects_saveDonationRecord env data : respects R (saveDonationRecord env data).
Proof. unfold saveDonationRecord. auto 30 with frame. Qed.

Lemma respects_sendDonationEmail env params : respects R (sendDonationEmail env params).
Proof. unfold sendDonationEmail. auto 20 with frame. Qed.

Lemma respects_sendPaymentFailedEmail env params :
  respects R (sendPaymentFailedEmail env params).
Proof. unfold sendPaymentFailedEmail. auto 20 with frame. Qed.

#[local] Hint Resolve respects_saveDonationRecord respects_sendDonationEmail
  respects_sendPaymentFailedEmail : frame.

Lemma respects_recordAndNotify env data params :
  respects R (recordAndNotify env data params).
Proof. unfold recordAndNotify. auto 20 with frame. Qed.

Lemma respects_lookupPaymentMethod env paymentIntentId :
  respects R (lookupPaymentMethod env paymentIntentId).
Proof. unfold lookupPaymentMethod. auto 20 with frame. Qed.

Lemma respects_lookupCustomerForLog env subscription :
  respects R (lookupCustomerForLog env subscription).
Proof. unfold lookupCustomerForLog. auto 20 with frame. Qed.

#[local] Hint Resolve respects_recordAndNotify respects_lookupPaymentMethod
  respects_lookupCustomerForLog : frame.

Lemma respects_dispatch env h (payload : Payload h) : respects R (dispatch env h payload).
Proof.
  destruct h; cbn [dispatch];
    unfold handlePaymentIntentSucceeded, handleInvoicePaymentSucceeded,
      handleSubscriptionCreated, handleSubscriptionUpdated, handleSubscriptionDeleted,
      handlePaymentFailed, handlePaymentActionRequired, handleSubscriptionPastDue,
      handleSubscriptionUnpaid;
    cbv zeta; auto 40 with frame.
Qed.

Lemma respects_POST env req : respects R (POST env req).
Proof.
  unfold POST, processEvent.
  pose proof (respects_dispatch env) as Hdispatch.
  auto 30 with frame.
Qed.

Lemma respects_runMailer env m : respects R (runMailer env m).
Proof.
  destruct m; cbn [runMailer];
    unfold sendAppointmentEmail, sendMessageNotificationEmail,
      sendEventRegistrationEmail, sendReminderEmail;
    auto 20 with frame.
Qed.

End Frame.

(** ** One request, at most one save *)

Lemma quiet_ret {A} (a : A) : respects storageUntouched (ret a).
Proof. apply respects_ret, storageUntouched_refl. Qed.

Lemma quiet_throw {A} e : respects storageUntouched (@throw A e).
Proof. apply respects_throw, storageUntouched_refl. Qed.

Lemma quiet_await {A} (p : Settled A) : respects storageUntouched (await p).
Proof. apply respects_await, storageUntouched_refl. Qed.

Lemma quiet_perform e : isStorageCall e = false -> respects storageUntouched (perform e).
Proof.
  intros He w. repeat split. exists [e]. split; [reflexivity|].
  unfold storageCalls. simpl. now rewrite He.
Qed.

Lemma quiet_bind {A B} (c : Js A) (k : A -> Js B) :
  respects storageUntouched c -> (forall a, respects storageUntouched (k a)) ->
  respects storageUntouched (bind c k).
Proof. apply respects_bind, storageUntouched_trans. Qed.

Lemma quiet_tryCatch {A} (body : Js A) handler :
  respects storageUntouched body -> (forall e, respects storageUntouched (handler e)) ->
  respects storageUntouched (tryCatch body handler).
Proof. apply respects_tryCatch, storageUntouched_trans. Qed.

Lemma quiet_sendWithRetry env mailOptions emailType maxRetries baseDelay :
  respects storageUntouched (sendWithRetry env mailOptions emailType maxRetries baseDelay).
Proof. intros w. apply sendWithRetry_storageUntouched. Qed.

Create HintDb quiet.

#[local] Hint Resolve quiet_ret quiet_throw quiet_await quiet_sendWithRetry : quiet.
#[local] Hint Extern 1 (respects storageUntouched (perform _)) =>
  apply quiet_perform; reflexivity : quiet.
#[local] Hint Extern 2 (respects storageUntouched (bind _ _)) =>
  apply quiet_bind; [|intros ?] : quiet.
#[local] Hint Extern 2 (respects storageUntouched (tryCatch _ _)) =>
  apply quiet_tryCatch; [|intros ?] : quiet.
#[local] Hint Extern 3 (respects storageUntouched (match ?x with _ => _ end)) =>
  destruct x : quiet.

Lemma quiet_sendDonationEmail env params :
  respects storageUntouched (sendDonationEmail env params).
Proof. intros w. apply sendDonationEmail_storageUntouched. Qed.

Lemma quiet_sendPaymentFailedEmail env params :
  respects storageUntouched (sendPaymentFailedEmail env params).
Proof. unfold sendPaymentFailedEmail. auto 20 with quiet. Qed.

Lemma quiet_lookupPaymentMethod env paymentIntentId :
  respects storageUntouched (lookupPaymentMethod env paymentIntentId).
Proof. unfold lookupPaymentMethod. auto 20 with quiet. Qed.

Lemma quiet_lookupCustomerForLog env subscription :
  respects storageUntouched (lookupCustomerForLog env subscription).
Proof. unfold lookupCustomerForLog. auto 20 with quiet. Qed.

#[local] Hint Resolve quiet_sendDonationEmail quiet_sendPaymentFailedEmail
  quiet_lookupPaymentMethod quiet_lookupCustomerForLog : quiet.

Lemma atMostOneSave_of_untouched w w' : storageUntouched w w' -> atMostOneSave w w'.
Proof.
  intros (Hdonors & Hdonations & es & Heffects & Hcalls). repeat split.
  - exists es. now rewrite Hcalls.
  - exists "". intros k' _. now rewrite Hdonors.
  - now left.
Qed.

Lemma atMostOneSave_after w w1 w2 :
  storageUntouched w w1 -> atMostOneSave w1 w2 -> atMostOneSave w w2.
Proof.
  intros (Hdonors & Hdonations & es1 & Heffects1 & Hcalls1)
         ((es2 & Heffects2 & Hcalls2) & (k & Hrows) & Hadded).
  repeat split.
  - exists (es1 ++ es2)%list. split.
    + now rewrite Heffects2, Heffects1, app_assoc.
    + now rewrite storageCalls_app, Hcalls1.
  - exists k. intros k' Hk'. now rewrite (Hrows k' Hk'), Hdonors.
  - now rewrite <- Hdonations.
Qed.

Lemma atMostOneSave_then w w1 w2 :
  atMostOneSave w w1 -> storageUntouched w1 w2 -> atMostOneSave w w2.
Proof.
  intros ((es1 & Heffects1 & Hcalls1) & (k & Hrows) & Hadded)
         (Hdonors & Hdonations & es2 & Heffects2 & Hcalls2).
  repeat split.
  - exists (es1 ++ es2)%list. split.
    + now rewrite Heffects2, Heffects1, app_assoc.
    + now rewrite storageCalls_app, Hcalls2, app_nil_r.
  - exists k. intros k' Hk'. now rewrite Hdonors, (Hrows k' Hk').
  - now rewrite Hdonations.
Qed.

Lemma savesOnce_quiet {A} (c : Js A) :
  respects storageUntouched c -> respects atMostOneSave c.
Proof. intros Hc w. apply atMostOneSave_of_untouched, Hc. Qed.

Lemma savesOnce_bind_after {A B} (c : Js A) (k : A -> Js B) :
  respects storageUntouched c -> (forall a, respects atMostOneSave (k a)) ->
  respects atMostOneSave (bind c k).
Proof.
  intros Hc Hk w. unfold bind. specialize (Hc w).
  destruct (c w) as [[a|e|] w']; simpl in *;
    [|now apply atMostOneSave_of_untouched..].
  eapply atMostOneSave_after; [exact Hc | apply Hk].
Qed.

Lemma savesOnce_bind_then {A B} (c : Js A) (k : A -> Js B) :
  respects atMostOneSave c -> (forall a, respects storageUntouched (k a)) ->
  respects atMostOneSave (bind c k).
Proof.
  intros Hc Hk w. unfold bind. specialize (Hc w).
  destruct (c w) as [[a|e|] w']; simpl in *; [|assumption..].
  eapply atMostOneSave_then; [exact Hc | apply Hk].
Qed.

Lemma savesOnce_tryCatch {A} (body : Js A) handler :
  respects atMostOneSave body -> (forall e, respects storageUntouched (handler e)) ->
  respects atMostOneSave (tryCatch body handler).
Proof.
  intros Hb Hh w. unfold tryCatch. specialize (Hb w).
  destruct (body w) as [[a|e|] w']; simpl in *; [assumption| |assumption].
  eapply atMostOneSave_then; [exact Hb | apply Hh].
Qed.

(** [saveDonationRecord] makes its calls in the order lookup, donor write,
    donation, and stops at the first that fails. *)
Lemma savesOnce_saveDonationRecord env data :
  respects atMostOneSave (saveDonationRecord env data).
Proof.
  intros w. unfold saveDonationRecord.
  destruct (String.eqb (DonationData.email data) ""
            || falsyNumber (DonationData.amount data))%bool;
    [apply atMostOneSave_of_untouched, storageUntouched_refl|].
  unfold atMostOneSave, tryCatch, donorsGetFirst, donorsUpdate, donorsCreate,
    donationsCreate, storageCall, bind, perform, throw, ret, getDonors, setDonors,
    pushDonation.
  cbn [fst snd donors addEffects].
  destruct (storageFault env OpDonorsGetFirst) as [err|]; cbn [fst snd donors effects donations].
  { repeat split; [now eexists | now exists "" | now left]. }
  destruct (donors w !! DonationData.email data) as [d|] eqn:Hfound.
  - destruct (storageFault env OpDonorsUpdate) as [err|];
      cbn [fst snd donors effects donations].
    { rewrite <- app_assoc. repeat split; [now eexists | now exists "" | now left]. }
    destruct (donors w !! email d) as [d'|]; cbn [fst snd donors effects donations].
    + destruct (storageFault env OpDonationsCreate) as [err|];
        cbn [fst snd donors effects donations]; rewrite <- !app_assoc;
        (repeat split;
         [ now eexists
         | exists (email d); intros k' Hk'; now apply lookup_insert_ne
         | first [now left | right; now eexists] ]).
    + rewrite <- !app_assoc. repeat split; [now eexists | now exists "" | now left].
  - destruct (storageFault env OpDonorsCreate) as [err|];
      cbn [fst snd donors effects donations email].
    { rewrite <- app_assoc. repeat split; [now eexists | now exists "" | now left]. }
    rewrite Hfound. cbn [fst snd donors effects donations].
    destruct (storageFault env OpDonationsCreate) as [err|];
      cbn [fst snd donors effects donations]; rewrite <- !app_assoc;
      (repeat split;
       [ now eexists
       | exists (DonationData.email data); intros k' Hk'; now apply lookup_insert_ne
       | first [now left | right; now eexists] ]).
Qed.

Lemma savesOnce_recordAndNotify env data params :
  respects atMostOneSave (recordAndNotify env data params).
Proof.
  unfold recordAndNotify.
  apply savesOnce_tryCatch; [|intros ?; auto with quiet].
  apply savesOnce_bind_then; [apply savesOnce_saveDonationRecord|].
  intros ?. auto 20 with quiet.
Qed.

Ltac saves_once :=
  first
    [ solve [apply savesOnce_quiet; auto 40 with quiet]
    | match goal with
      | |- respects atMostOneSave (bind (recordAndNotify _ _ _) _) =>
          apply savesOnce_bind_then;
          [apply savesOnce_recordAndNotify | intros ?; auto with quiet]
      | |- respects atMostOneSave (bind _ _) =>
          apply savesOnce_bind_after; [solve [auto 40 with quiet] | intros ?; saves_once]
      | |- respects atMostOneSave (tryCatch _ _) =>
          apply savesOnce_tryCatch; [saves_once | intros ?; solve [auto 40 with quiet]]
      | |- respects atMostOneSave (match ?x with _ => _ end) => destruct x; saves_once
      end ].

Lemma savesOnce_dispatch env h (payload : Payload h) :
  respects atMostOneSave (dispatch env h payload).
Proof.
  destruct h; cbn [dispatch];
    unfold handlePaymentIntentSucceeded, handleInvoicePaymentSucceeded,
      handleSubscriptionCreated, handleSubscriptionUpdated, handleSubscriptionDeleted,
      handlePaymentFailed, handlePaymentActionRequired, handleSubscriptionPastDue,
      handleSubscriptionUnpaid;
    cbv zeta; saves_once.
Qed.

(** X7: one request, at most one save.  Whatever the request and whatever
    the collaborators answer, the storage calls of one run of [POST] are
    none, or the lookup of one donor, then possibly one donor write (an
    update or a create), then possibly one [donations.create], in this
    order; accordingly at most one donor row differs afterwards and at
    most one donation was added. *)
Theorem POST_saves_at_most_once env req w :
  atMostOneSave w (snd (POST env req w)).
Proof.
  revert w. change (respects atMostOneSave (POST env req)).
  unfold POST, processEvent.
  apply savesOnce_bind_after; [auto with quiet | intros body].
  apply savesOnce_bind_after; [auto with quiet | intros header].
  destruct (nonEmpty header) as [sig|]; [|apply savesOnce_quiet; auto with quiet].
  apply savesOnce_bind_after; [auto 20 with quiet | intros [event|rejection]].
  - apply savesOnce_tryCatch; [apply savesOnce_dispatch | intros ?; auto with quiet].
  - apply savesOnce_quiet. auto with quiet.
Qed.

Lemma metricsAdvance_afterSuccess m :
  (metricsInv m -> metricsInv (afterSuccess m)) /\
  totalSent m <= totalSent (afterSuccess m) /\
  totalFailed m <= totalFailed (afterSuccess m) /\
  (is_Some (lastFailed m) -> is_Some (lastFailed (afterSuccess m))).
Proof.
  simpl. repeat split; try lia; try tauto; destruct H as (Hs & Hf & _); simpl; lia.
Qed.

Lemma metricsAdvance_afterFailure m lf :
  (metricsInv m -> metricsInv (afterFailure m lf)) /\
  totalSent m <= totalSent (afterFailure m lf) /\
  totalFailed m <= totalFailed (afterFailure m lf) /\
  (is_Some (lastFailed m) -> is_Some (lastFailed (afterFailure m lf))).
Proof.
  simpl. repeat split; try lia; try (intros; now eexists);
    destruct H as (Hs & Hf & _); simpl; lia.
Qed.

(** X9: whatever the request and whatever the collaborators answer, [POST]
    keeps the metrics consistent (counters not negative, the stored rate
    the one computed from them), never decreases a counter and never clears
    the last-failure snapshot. *)
Theorem POST_metrics_advance env req w :
  metricsAdvance w (snd (POST env req w)).
Proof.
  assert (Hsame : forall w0 w1 : World,
             emailMetrics w1 = emailMetrics w0 -> metricsAdvance w0 w1).
  { intros w0 w1 H. unfold metricsAdvance. rewrite H.
    split; [tauto|]. split; [lia|]. split; [lia | tauto]. }
  apply (respects_POST metricsAdvance).
  - intros w0. now apply Hsame.
  - intros w1 w2 w3 (H1 & H2 & H3 & H4) (H1' & H2' & H3' & H4').
    split; [auto|]. split; [lia|]. split; [lia | auto].
  - intros es w0. now apply Hsame.
  - intros w0. apply metricsAdvance_afterSuccess.
  - intros lf w0. apply metricsAdvance_afterFailure.
  - intros id d u w0 Hd. now apply Hsame.
  - intros d w0 Hd. now apply Hsame.
  - intros r w0. now apply Hsame.
Qed.

(** ** The route as a whole *)

(** X10: the outcome of [POST].  The body and the headers are awaited
    before the first [try]: when reading either fails, [POST] rejects with
    that error and does nothing else.  Once both are read, whatever the
    collaborators answer (each awaited call taken to settle), [POST]
    returns a response, whose status is 200, 400 or 500; it is 400
    exactly when verification fails. *)
Theorem POST_outcome env req w :
  match text req, stripe_signature req with
  | Rejected e, _ => POST env req w = (Thrown e, w)
  | Fulfilled _, Rejected e => POST env req w = (Thrown e, w)
  | Fulfilled _, Fulfilled _ =>
      exists resp,
        fst (POST env req w) = Normal resp /\
        (status resp = 200 \/ status resp = 400 \/ status resp = 500) /\
        (status resp = 400 <-> failsVerification env req)
  end.
Proof.
  destruct (text req) as [body|e] eqn:Hbody;
    [|unfold POST; now rewrite Hbody, bind_await_rejected].
  destruct (stripe_signature req) as [header|e] eqn:Hheader;
    [|unfold POST; now rewrite Hbody, bind_await_fulfilled, Hheader, bind_await_rejected].
  destruct (nonEmpty header) as [sig|] eqn:Hsig.
  - destruct (constructEvent env body sig (endpointSecret env)) as [event|err] eqn:Hev.
    + assert (Hver : verifies env req event) by (now exists body, header, sig).
      rewrite (POST_verified _ _ _ _ Hver). unfold processEvent, tryCatch.
      pose proof (dispatch_outcome env (route (type event)) (object event) w) as H.
      unfold handlerOutcome in H.
      destruct (dispatch env (route (type event)) (object event) w) as [c w'].
      simpl in H.
      assert (Hnot : ~ failsVerification env req).
      { intros (body' & header' & Hbody' & Hheader' & Hfails).
        rewrite Hbody in Hbody'. injection Hbody' as <-.
        rewrite Hheader in Hheader'. injection Hheader' as <-.
        destruct Hfails as [Hnone | (sig' & err & Hsig' & Hrej)]; [congruence|].
        rewrite Hsig in Hsig'. injection Hsig' as <-. congruence. }
      destruct (unguardedLookupFails env (route (type event)) (object event)).
      * destruct H as [e ->]. eexists. split; [reflexivity|]. simpl.
        split; [tauto|]. split; [discriminate | tauto].
      * destruct H as (resp & -> & Hstatus). exists resp. split; [reflexivity|].
        split; [tauto|]. split; [lia | tauto].
    + unfold POST. rewrite Hbody, Hheader, !bind_await_fulfilled, Hsig.
      unfold bind, tryCatch, await. rewrite Hev. simpl.
      eexists. split; [reflexivity|]. simpl. split; [tauto|].
      split; [|reflexivity]. intros _. exists body, header.
      split; [exact Hbody|]. split; [exact Hheader|]. right. now exists sig, err.
  - unfold POST. rewrite Hbody, Hheader, !bind_await_fulfilled, Hsig.
    eexists. split; [reflexivity|]. simpl.
    split; [tauto|]. split; [|reflexivity]. intros _. exists body, header.
    split; [exact Hbody|]. split; [exact Hheader|]. now left.
Qed.

(** ** [getPaymentMethodType] *)

Lemma orElse_nonempty a d : d <> "" -> orElse a d <> "".
Proof.
  intros Hd. unfold orElse. destruct a as [s|]; [|assumption].
  destruct (String.eqb_spec s ""); assumption.
Qed.

Lemma append_nonempty_r (s1 s2 : string) : s2 <> "" -> (s1 ++ s2)%string <> "".
Proof. intros H. destruct s1; simpl; [assumption | discriminate]. Qed.

(** X11: the payment method label, case by case, is never empty.  The
    label is ["card"] for a missing charge, for a charge without payment
    method details, and for details that have neither a card nor a
    non-empty type; it is the type when there is no card and the type is
    not empty; and a card is shown by its brand and last four digits. *)
Theorem getPaymentMethodType_nonempty (charge : option Charge.t) :
  getPaymentMethodType charge <> "" /\
  (charge = None -> getPaymentMethodType charge = "card") /\
  (forall c,
      charge = Some c ->
      Charge.payment_method_details c = None ->
      getPaymentMethodType charge = "card") /\
  (forall c details,
      charge = Some c ->
      Charge.payment_method_details c = Some details ->
      Charge.card details = None ->
      nonEmpty (Charge.type details) = None ->
      getPaymentMethodType charge = "card") /\
  (forall c details t,
      charge = Some c ->
      Charge.payment_method_details c = Some details ->
      Charge.card details = None ->
      nonEmpty (Charge.type details) = Some t ->
      getPaymentMethodType charge = t) /\
  (forall c details card,
      charge = Some c ->
      Charge.payment_method_details c = Some details ->
      Charge.card details = Some card ->
      getPaymentMethodType charge
      = (Charge.brand card ++ " •••• " ++ Charge.last4 card)%string).
Proof.
  split; [|repeat split].
  - unfold getPaymentMethodType.
    destruct charge as [c|]; [|discriminate].
    destruct (Charge.payment_method_details c) as [details|]; [|discriminate].
    destruct (Charge.card details) as [card|].
    + apply append_nonempty_r. discriminate.
    + apply orElse_nonempty. discriminate.
  - now intros ->.
  - intros c -> Hd. unfold getPaymentMethodType. now rewrite Hd.
  - intros c details -> Hd Hc Ht. unfold getPaymentMethodType. rewrite Hd, Hc.
    unfold nonEmpty, truthy, orElse in *.
    destruct (Charge.type details) as [t|]; [|reflexivity].
    destruct (String.eqb t ""); [reflexivity | discriminate].
  - intros c details t -> Hd Hc Ht. unfold getPaymentMethodType. rewrite Hd, Hc.
    unfold nonEmpty, truthy, orElse in *.
    destruct (Charge.type details) as [t'|]; [|discriminate].
    destruct (String.eqb t' ""); [discriminate | now injection Ht].
  - intros c details card -> Hd Hc. unfold getPaymentMethodType. now rewrite Hd, Hc.
Qed.

(** ** [saveDonationRecord] at its edges *)

(** X12: [saveDonationRecord] validates before it touches the database:
    with an empty email or a zero amount it throws "Missing required
    donation data" and the world is exactly as before (no storage call). *)
Theorem saveDonationRecord_rejects_invalid env data w :
  DonationData.email data = "" \/ (DonationData.amount data == 0)%Q ->
  saveDonationRecord env data w
  = (Thrown (JsError "Missing required donation data: email or amount"), w).
Proof.
  intros H. unfold saveDonationRecord.
  assert (Hguard : (String.eqb (DonationData.email data) ""
                    || falsyNumber (DonationData.amount data))%bool = true).
  { destruct H as [-> | H]; [reflexivity|].
    unfold falsyNumber. apply Qeq_bool_iff in H. rewrite H. apply orb_true_r. }
  rewrite Hguard. reflexivity.
Qed.


(** X14: the receipt is only ever sent after both records were saved: if
    [saveDonationRecord] throws, the [try] block of the payment handlers
    ends there, in the world that the failed save left; otherwise the mail
    is attempted and, delivered or not, changes nothing in the storage.
    The block itself never throws. *)
Theorem recordAndNotify_mails_only_after_save env data params w :
  (exists e w1,
      saveDonationRecord env data w = (Thrown e, w1) /\
      recordAndNotify env data params w = (Normal tt, w1))
  \/
  (exists donor donation w1,
      saveDonationRecord env data w = (Normal (donor, donation), w1) /\
      recordAndNotify env data params w
      = (Normal tt, snd (sendDonationEmail env params w1)) /\
      storageUntouched w1 (snd (sendDonationEmail env params w1))).
Proof.
  pose proof (completes_saveDonationRecord env data w) as Hdone.
  unfold recordAndNotify, tryCatch.
  destruct (saveDonationRecord env data w) as [[[donor donation]|e|] w1] eqn:Hsave;
    simpl in Hdone; [| |congruence].
  - right. exists donor, donation, w1. split; [reflexivity|].
    rewrite (bind_normal _ _ _ _ _ Hsave).
    pose proof (completes_sendDonationEmail env params w1) as Hmail.
    pose proof (sendDonationEmail_storageUntouched env params w1) as Huntouched.
    unfold bind.
    destruct (sendDonationEmail env params w1) as [[result|exn|] w2];
      simpl in *; [now split | now split | congruence].
  - left. exists e, w1. split; [reflexivity|].
    now rewrite (bind_thrown _ _ _ _ _ Hsave).
Qed.

(** ** The two payment handlers, step by step *)

Lemma mailCalls_app es1 es2 :
  mailCalls (es1 ++ es2) = (mailCalls es1 ++ mailCalls es2)%list.
Proof. apply List.filter_app. Qed.

Lemma lookupPaymentMethod_world env paymentIntentId w :
  exists paymentMethod es,
    lookupPaymentMethod env paymentIntentId w = (Normal paymentMethod, addEffects es w) /\
    storageCalls es = [] /\ mailCalls es = [].
Proof.
  unfold lookupPaymentMethod. destruct (nonEmpty paymentIntentId) as [piId|].
  - unfold tryCatch. rewrite bind_perform.
    destruct (paymentIntentsRetrieve env piId) as [charge|err].
    + rewrite bind_await_fulfilled. eexists. exists [PaymentIntentsRetrieve piId].
      repeat split.
    + rewrite bind_await_rejected. eexists. exists [PaymentIntentsRetrieve piId].
      repeat split.
  - exists "card", []. rewrite addEffects_nil. repeat split.
Qed.

(** With its lookups answered and the customer's email resolved,
    [handleInvoicePaymentSucceeded] comes to its [try] block with the data
    of the invoice, having made no storage or mail call yet. *)
Lemma handleInvoicePaymentSucceeded_reaches_save
      env invoice subscriptionId subscription customer
      customerEmail customerName customerPhone w :
  nonEmpty (Invoice.subscription invoice) = Some subscriptionId ->
  subscriptionsRetrieve env subscriptionId = Fulfilled subscription ->
  customersRetrieve env (Invoice.customer invoice) = Fulfilled customer ->
  customerDetails invoice subscription customer
    = Some (customerEmail, customerName, customerPhone) ->
  exists data params es0,
    handleInvoicePaymentSucceeded env invoice w
    = bind (recordAndNotify env data params) (fun _ => ret received) (addEffects es0 w) /\
    storageCalls es0 = [] /\ mailCalls es0 = [] /\
    DonationData.email data = customerEmail /\
    DonationData.amount data = (inject_Z (Invoice.amount_paid invoice) / 100)%Q /\
    DonationData.isRecurring data = true /\
    DonationEmailParams.to params = customerEmail.
Proof.
  intros Hsub Hsubs Hcust Hdetails.
  unfold handleInvoicePaymentSucceeded. rewrite Hsub.
  rewrite !bind_perform, Hsubs, bind_await_fulfilled, Hcust, bind_await_fulfilled, Hdetails.
  cbv zeta.
  match goal with
  | |- context [bind (lookupPaymentMethod env ?pid) _ ?w1] =>
      destruct (lookupPaymentMethod_world env pid w1)
        as (paymentMethod & es2 & Hpm & Hs2 & Hm2)
  end.
  rewrite (bind_normal _ _ _ _ _ Hpm), !addEffects_app.
  do 3 eexists. split; [reflexivity|].
  rewrite !storageCalls_app, !mailCalls_app, Hs2, Hm2. repeat split.
Qed.

(** With its charge looked up and a donor email resolved,
    [handlePaymentIntentSucceeded] comes to its [try] block with the data
    of the payment, having made no storage or mail call yet. *)
Lemma handlePaymentIntentSucceeded_reaches_save env paymentIntent charge w :
  belongsToSubscription paymentIntent = false ->
  chargeLookedUp env paymentIntent charge ->
  oneTimeDonorEmail paymentIntent charge <> "" ->
  exists data params es0,
    handlePaymentIntentSucceeded env paymentIntent w
    = bind (recordAndNotify env data params) (fun _ => ret received) (addEffects es0 w) /\
    storageCalls es0 = [] /\ mailCalls es0 = [] /\
    DonationData.email data = oneTimeDonorEmail paymentIntent charge /\
    DonationData.amount data = (inject_Z (PaymentIntent.amount paymentIntent) / 100)%Q /\
    DonationData.created data = PaymentIntent.created paymentIntent * 1000 /\
    DonationData.isRecurring data = false /\
    DonationData.stripePaymentIntentId data = Some (PaymentIntent.id paymentIntent) /\
    DonationData.paymentMethod data = getPaymentMethodType charge /\
    DonationEmailParams.to params = oneTimeDonorEmail paymentIntent charge.
Proof.
  unfold belongsToSubscription, chargeLookedUp. intros Hskip Hcharge Hemail.
  unfold handlePaymentIntentSucceeded. cbv zeta. rewrite Hskip.
  apply String.eqb_neq in Hemail.
  destruct (nonEmpty (PaymentIntent.latest_charge paymentIntent)) as [chargeId|].
  - destruct Hcharge as (c & Hc & ->).
    rewrite bind_bind, bind_perform, bind_bind, Hc, bind_await_fulfilled, bind_ret.
    unfold oneTimeDonorEmail in Hemail. cbv beta iota in *. rewrite Hemail.
    do 2 eexists. exists [ChargesRetrieve chargeId]. split; [reflexivity|].
    repeat split.
  - subst charge. rewrite bind_ret.
    unfold oneTimeDonorEmail in Hemail. cbv beta iota in *. rewrite Hemail.
    do 2 eexists. exists []. rewrite addEffects_nil. split; [reflexivity|].
    repeat split.
Qed.

(** X15: a one-time payment for which no donor email can be resolved
    (neither in the metadata nor on the charge) is acknowledged with
    [{ received: true, error: 'Missing email' }]: nothing is written,
    nothing is mailed, the metrics are as before. *)
Theorem one_time_payment_without_email env req paymentIntent charge w :
  verifies env req (paymentIntentSucceeded paymentIntent) ->
  belongsToSubscription paymentIntent = false ->
  chargeLookedUp env paymentIntent charge ->
  oneTimeDonorEmail paymentIntent charge = "" ->
  let r := POST env req w in
  fst r = Normal missingEmail /\ status missingEmail = 200 /\
  donors (snd r) = donors w /\ donations (snd r) = donations w /\
  emailMetrics (snd r) = emailMetrics w /\
  exists es,
    effects (snd r) = (effects w ++ es)%list /\
    storageCalls es = [] /\ mailCalls es = [].
Proof.
  unfold belongsToSubscription, chargeLookedUp. intros Hver Hskip Hcharge Hemail.
  cbv zeta. rewrite (POST_verified _ _ _ _ Hver).
  change (processEvent env (paymentIntentSucceeded paymentIntent) w)
    with (tryCatch (handlePaymentIntentSucceeded env paymentIntent)
                   (fun _ => ret (jsonWithStatus (Failure "Failed to process webhook") 500))
                   w).
  unfold tryCatch, handlePaymentIntentSucceeded. cbv zeta. rewrite Hskip.
  apply String.eqb_eq in Hemail.
  destruct (nonEmpty (PaymentIntent.latest_charge paymentIntent)) as [chargeId|].
  - destruct Hcharge as (c & Hc & ->).
    rewrite bind_bind, bind_perform, bind_bind, Hc, bind_await_fulfilled, bind_ret.
    unfold oneTimeDonorEmail in Hemail. cbv beta iota in *. rewrite Hemail.
    repeat split. now exists [ChargesRetrieve chargeId].
  - subst charge. rewrite bind_ret.
    unfold oneTimeDonorEmail in Hemail. cbv beta iota in *. rewrite Hemail.
    repeat split. exists []. now rewrite app_nil_r.
Qed.

Lemma bind_normal_inv {A B} (c : Js A) (k : A -> Js B) w b w1 :
  bind c k w = (Normal b, w1) ->
  exists a w', c w = (Normal a, w') /\ k a w' = (Normal b, w1).
Proof.
  unfold bind. destruct (c w) as [[a|e|] w']; intros H;
    [now exists a, w' | discriminate | discriminate].
Qed.

Lemma tryCatch_normal_inv {A} (body : Js A) handler w a w1 :
  tryCatch body handler w = (Normal a, w1) ->
  body w = (Normal a, w1) \/
  exists e w', body w = (Thrown e, w') /\ handler e w' = (Normal a, w1).
Proof.
  unfold tryCatch. destruct (body w) as [[a'|e|] w']; intros H;
    [now left | right; now exists e, w' | discriminate].
Qed.

Lemma donationsCreate_inv env r w x w1 :
  donationsCreate env r w = (Normal x, w1) ->
  x = Some r /\ donations w1 = (donations w ++ [r])%list.
Proof.
  unfold donationsCreate, storageCall. rewrite bind_bind, bind_perform.
  destruct (storageFault env OpDonationsCreate); [discriminate|].
  intros H. injection H as <- <-. now split.
Qed.

(** Whenever [saveDonationRecord] returns, the donation it returns is the
    one it appended last, and it copies the data of the payment, marked
    as succeeded. *)
Lemma saveDonationRecord_returns env data w donor donation w1 :
  saveDonationRecord env data w = (Normal (donor, donation), w1) ->
  donation =
    {| amount := DonationData.amount data;
       currency := DonationData.currency data;
       donationType := DonationData.donationType data;
       frequency := DonationData.frequency data;
       donorName := DonationData.name data;
       donorEmail := DonationData.email data;
       donorPhone := DonationData.phone data;
       paymentMethod := DonationData.paymentMethod data;
       paymentStatus := "succeeded";
       isRecurring := DonationData.isRecurring data;
       stripePaymentIntentId := DonationData.stripePaymentIntentId data;
       stripeChargeId := DonationData.stripeChargeId data;
       stripeSubscriptionId := DonationData.stripeSubscriptionId data;
       receiptUrl := DonationData.receiptUrl data;
       date := DonationData.created data |} /\
  exists earlier, donations w1 = (earlier ++ [donation])%list.
Proof.
  unfold saveDonationRecord.
  destruct (String.eqb (DonationData.email data) ""
            || falsyNumber (DonationData.amount data))%bool; [discriminate|].
  intros H. apply tryCatch_normal_inv in H as [H | (e & w' & _ & H)]; [|discriminate H].
  apply bind_normal_inv in H as (found & w2 & _ & H).
  apply bind_normal_inv in H as (saved & w3 & _ & H).
  destruct saved as [saved|]; [|discriminate H].
  apply bind_normal_inv in H as (created & w4 & Hcreate & H).
  apply donationsCreate_inv in Hcreate as [-> Hdonations].
  injection H as <- <- <-. split; [reflexivity|]. eexists. exact Hdonations.
Qed.

Lemma saveDonationRecord_sameMetrics env data w :
  emailMetrics (snd (saveDonationRecord env data w)) = emailMetrics w.
Proof.
  apply (respects_saveDonationRecord sameMetrics); unfold sameMetrics;
    intros; simpl; congruence.
Qed.

(** X16: a one-time payment with a resolved donor email, a non-zero amount
    and a working database is acknowledged and recorded: the donor row is
    updated in place (lifetime total [previousTotal + amount / 100]) or
    created, and exactly one donation is added, not recurring, marked
    succeeded, bearing the payment intent's id; whether the receipt can be
    delivered does not matter. *)
Theorem one_time_payment_recorded env req paymentIntent charge w :
  verifies env req (paymentIntentSucceeded paymentIntent) ->
  belongsToSubscription paymentIntent = false ->
  chargeLookedUp env paymentIntent charge ->
  oneTimeDonorEmail paymentIntent charge <> "" ->
  PaymentIntent.amount paymentIntent <> 0 ->
  (forall op, storageFault env op = None) ->
  keyedByEmail (donors w) ->
  fst (POST env req w) = Normal received /\
  oneTimeDonationRecorded paymentIntent (oneTimeDonorEmail paymentIntent charge)
                          w (snd (POST env req w)).
Proof.
  intros Hver Hskip Hcharge Hemail Hpaid Hfault Hkeyed.
  rewrite (POST_verified _ _ _ _ Hver).
  change (processEvent env (paymentIntentSucceeded paymentIntent) w)
    with (tryCatch (handlePaymentIntentSucceeded env paymentIntent)
                   (fun _ => ret (jsonWithStatus (Failure "Failed to process webhook") 500))
                   w).
  destruct (handlePaymentIntentSucceeded_reaches_save
              env paymentIntent charge w Hskip Hcharge Hemail)
    as (data & params & es0 & Hhandle & Hs0 & _ & Hdemail & Hdamount & Hdcreated
        & Hdrec & Hdpi & _ & _).
  destruct (saveDonationRecord_saves env data (addEffects es0 w) Hfault)
    as (donor & donation & w3 & Hsave & Hd3 & Hn3 & He3 & Hkey & Htotal & Hdate
        & _ & Hrec & Hamount & Hdonor);
    [now rewrite Hdemail | rewrite Hdamount; now apply falsyNumber_cents | exact Hkeyed |].
  destruct (saveDonationRecord_returns _ _ _ _ _ _ Hsave) as [Hdonation _].
  destruct (recordAndNotify_after_save env data params _ donor donation w3 Hsave)
    as (w4 & Hnotify & Hd4 & Hn4 & es4 & He4 & Hs4).
  unfold tryCatch. rewrite Hhandle, (bind_normal _ _ _ _ _ Hnotify).
  split; [reflexivity|].
  rewrite Hdemail, Hdamount, Hdcreated in *. simpl donors in *. simpl donations in *.
  exists donor, donation. cbn [snd ret]. rewrite Hd4, Hd3, Hn4, Hn3.
  repeat split; try assumption.
  - now rewrite Hrec.
  - rewrite Hdonation. simpl. exact Hdpi.
  - now rewrite Hdonation.
  - eexists. split.
    + rewrite He4, He3. simpl effects. rewrite <- !app_assoc. reflexivity.
    + rewrite !storageCalls_app, Hs0, Hs4. simpl.
      now destruct (donors w !! oneTimeDonorEmail paymentIntent charge).
Qed.

Lemma storageCall_fault env op e w err :
  storageFault env op = Some err ->
  storageCall env op e w = (Thrown err, addEffects [e] w).
Proof. intros H. unfold storageCall. rewrite bind_perform, H. reflexivity. Qed.

Lemma donationsCreate_fault env r w err :
  storageFault env OpDonationsCreate = Some err ->
  donationsCreate env r w = (Thrown err, addEffects [DonationsCreate r] w).
Proof.
  intros H. unfold donationsCreate.
  now rewrite (bind_thrown _ _ _ _ _ (storageCall_fault _ _ _ _ _ H)).
Qed.

(** When only the creation of the donation is refused, the donor row has
    already been written and stays written. *)
Lemma saveDonationRecord_donation_fault env data w err :
  storageFault env OpDonorsGetFirst = None ->
  storageFault env OpDonorsUpdate = None ->
  storageFault env OpDonorsCreate = None ->
  storageFault env OpDonationsCreate = Some err ->
  DonationData.email data <> "" ->
  falsyNumber (DonationData.amount data) = false ->
  keyedByEmail (donors w) ->
  let previous := donors w !! DonationData.email data in
  exists donor es w',
    saveDonationRecord env data w
    = (Thrown (JsError ("Failed to save donation record: " ++ toString err)), w') /\
    donors w' = <[DonationData.email data := donor]> (donors w) /\
    donations w' = donations w /\
    emailMetrics w' = emailMetrics w /\
    effects w' = (effects w ++ es)%list /\ mailCalls es = [] /\
    email donor = DonationData.email data /\
    totalDonations donor =
      Some (numberOrZero (match previous with
                          | Some d => totalDonations d
                          | None => None
                          end) + DonationData.amount data)%Q.
Proof.
  intros Hget Hupdate Hcreate Hdonation Hemail Hamount Hkeyed. cbv zeta.
  unfold saveDonationRecord.
  apply String.eqb_neq in Hemail. rewrite Hemail, Hamount. cbn [orb].
  unfold tryCatch.
  rewrite (bind_normal _ _ _ _ _ (donorsGetFirst_ok _ _ _ Hget)).
  destruct (donors w !! DonationData.email data) as [d|] eqn:Hd.
  - pose proof (Hkeyed _ _ Hd) as Hkey. rewrite Hkey.
    erewrite bind_normal; [|apply donorsUpdate_ok; [exact Hupdate | exact Hd]].
    cbv beta iota.
    erewrite bind_thrown; [|apply donationsCreate_fault; exact Hdonation].
    do 3 eexists. split; [reflexivity|]. simpl.
    rewrite <- !app_assoc. repeat split; assumption.
  - erewrite bind_normal; [|apply donorsCreate_ok; [exact Hcreate | exact Hd]].
    cbv beta iota.
    erewrite bind_thrown; [|apply donationsCreate_fault; exact Hdonation].
    do 3 eexists. split; [reflexivity|]. simpl.
    rewrite <- !app_assoc. repeat split.
Qed.

(** X17: the donor write is not undone when the donation cannot be
    created: for a recurring invoice whose lookups succeed, if the database
    accepts the donor calls but refuses [donations.create], the event is
    still acknowledged with 200, the donor's lifetime total already counts
    the payment, no donation exists for it, and no receipt is sent. *)
Theorem donor_total_counts_unrecorded_donation
        env req invoice subscriptionId subscription customer
        customerEmail customerName customerPhone err w :
  verifies env req (invoicePaymentSucceeded invoice) ->
  nonEmpty (Invoice.subscription invoice) = Some subscriptionId ->
  subscriptionsRetrieve env subscriptionId = Fulfilled subscription ->
  customersRetrieve env (Invoice.customer invoice) = Fulfilled customer ->
  customerDetails invoice subscription customer
    = Some (customerEmail, customerName, customerPhone) ->
  customerEmail <> "" ->
  Invoice.amount_paid invoice <> 0 ->
  storageFault env OpDonorsGetFirst = None ->
  storageFault env OpDonorsUpdate = None ->
  storageFault env OpDonorsCreate = None ->
  storageFault env OpDonationsCreate = Some err ->
  keyedByEmail (donors w) ->
  let r := POST env req w in
  fst r = Normal received /\
  donations (snd r) = donations w /\
  emailMetrics (snd r) = emailMetrics w /\
  (exists donor,
      donors (snd r) = <[customerEmail := donor]> (donors w) /\
      totalDonations donor =
        Some (numberOrZero (match donors w !! customerEmail with
                            | Some d => totalDonations d
                            | None => None
                            end)
              + inject_Z (Invoice.amount_paid invoice) / 100)%Q) /\
  exists es, effects (snd r) = (effects w ++ es)%list /\ mailCalls es = [].
Proof.
  intros Hver Hsub Hsubs Hcust Hdetails Hemail Hpaid Hget Hupdate Hcreate Hdonation Hkeyed.
  cbv zeta. rewrite (POST_verified _ _ _ _ Hver).
  change (processEvent env (invoicePaymentSucceeded invoice) w)
    with (tryCatch (handleInvoicePaymentSucceeded env invoice)
                   (fun _ => ret (jsonWithStatus (Failure "Failed to process webhook") 500))
                   w).
  destruct (handleInvoicePaymentSucceeded_reaches_save
              env invoice subscriptionId subscription customer
              customerEmail customerName customerPhone w Hsub Hsubs Hcust Hdetails)
    as (data & params & es0 & Hhandle & _ & Hm0 & Hdemail & Hdamount & _).
  destruct (saveDonationRecord_donation_fault env data (addEffects es0 w) err
              Hget Hupdate Hcreate Hdonation)
    as (donor & es1 & w3 & Hsave & Hd3 & Hn3 & Hmetrics & He3 & Hm1 & _ & Htotal);
    [now rewrite Hdemail | rewrite Hdamount; now apply falsyNumber_cents | exact Hkeyed |].
  assert (Hnotify : recordAndNotify env data params (addEffects es0 w) = (Normal tt, w3)).
  { unfold recordAndNotify, tryCatch. now rewrite (bind_thrown _ _ _ _ _ Hsave). }
  unfold tryCatch. rewrite Hhandle, (bind_normal _ _ _ _ _ Hnotify). cbn [fst snd ret].
  rewrite Hdemail, Hdamount in *. simpl in Hd3, Hn3, Hmetrics, He3, Htotal.
  split; [reflexivity|]. split; [exact Hn3|]. split; [exact Hmetrics|].
  split; [now exists donor|].
  exists (es0 ++ es1)%list. split.
  - now rewrite He3, app_assoc.
  - now rewrite mailCalls_app, Hm0, Hm1.
Qed.

(** X18: an [invoice.payment_succeeded] event whose invoice has no
    subscription is acknowledged and skipped: the world is exactly as
    before (no lookup, no write, no mail). *)
Theorem invoice_without_subscription_skipped env req invoice w :
  verifies env req (invoicePaymentSucceeded invoice) ->
  nonEmpty (Invoice.subscription invoice) = None ->
  POST env req w = (Normal received, w).
Proof.
  intros Hver Hsub. rewrite (POST_verified _ _ _ _ Hver).
  change (processEvent env (invoicePaymentSucceeded invoice) w)
    with (tryCatch (handleInvoicePaymentSucceeded env invoice)
                   (fun _ => ret (jsonWithStatus (Failure "Failed to process webhook") 500))
                   w).
  unfold tryCatch, handleInvoicePaymentSucceeded. now rewrite Hsub.
Qed.

(** X19: a recurring invoice of a deleted customer that carries no
    customer email is acknowledged with
    [{ received: true, error: 'Missing email' }] after the two lookups:
    nothing is written and nothing is mailed. *)
Theorem invoice_of_deleted_customer_without_email
        env req invoice subscriptionId subscription w :
  verifies env req (invoicePaymentSucceeded invoice) ->
  nonEmpty (Invoice.subscription invoice) = Some subscriptionId ->
  subscriptionsRetrieve env subscriptionId = Fulfilled subscription ->
  customersRetrieve env (Invoice.customer invoice) = Fulfilled DeletedCustomer ->
  nonEmpty (Invoice.customer_email invoice) = None ->
  POST env req w
  = (Normal missingEmail,
     addEffects [SubscriptionsRetrieve subscriptionId;
                 CustomersRetrieve (Invoice.customer invoice)] w).
Proof.
  intros Hver Hsub Hsubs Hcust Hemail. rewrite (POST_verified _ _ _ _ Hver).
  change (processEvent env (invoicePaymentSucceeded invoice) w)
    with (tryCatch (handleInvoicePaymentSucceeded env invoice)
                   (fun _ => ret (jsonWithStatus (Failure "Failed to process webhook") 500))
                   w).
  unfold tryCatch, handleInvoicePaymentSucceeded. rewrite Hsub.
  rewrite !bind_perform, Hsubs, bind_await_fulfilled, Hcust, bind_await_fulfilled.
  unfold customerDetails. rewrite Hemail, addEffects_app. reflexivity.
Qed.

Lemma recordAndNotify_after_save_world env data params w donor donation w1 :
  saveDonationRecord env data w = (Normal (donor, donation), w1) ->
  recordAndNotify env data params w = (Normal tt, snd (sendDonationEmail env params w1)).
Proof.
  intros Hsave.
  pose proof (completes_sendDonationEmail env params w1) as Hdone.
  unfold recordAndNotify, tryCatch.
  rewrite (bind_normal _ _ _ _ _ Hsave). unfold bind.
  destruct (sendDonationEmail env params w1) as [[result|exn|] w2]; simpl in *;
    [reflexivity | reflexivity | congruence].
Qed.

(** X20: a receipt that cannot be delivered costs nothing but the receipt:
    for a recurring invoice that is recorded (lookups, data and database
    in order), when the receipt is rendered but the transport rejects all
    three attempts, the event is still acknowledged with 200 and the
    records stay; the failure shows in the metrics only ([totalFailed] one
    more, snapshot labelled "donation-receipt" for the customer's email). *)
Theorem undelivered_receipt_keeps_records
        env req invoice subscriptionId subscription customer
        customerEmail customerName customerPhone pdfBytes rendered w :
  verifies env req (invoicePaymentSucceeded invoice) ->
  nonEmpty (Invoice.subscription invoice) = Some subscriptionId ->
  subscriptionsRetrieve env subscriptionId = Fulfilled subscription ->
  customersRetrieve env (Invoice.customer invoice) = Fulfilled customer ->
  customerDetails invoice subscription customer
    = Some (customerEmail, customerName, customerPhone) ->
  customerEmail <> "" ->
  Invoice.amount_paid invoice <> 0 ->
  (forall op, storageFault env op = None) ->
  keyedByEmail (donors w) ->
  generateDonationReceiptPDF env = Fulfilled pdfBytes ->
  renderTemplate env "donation-receipt" = Fulfilled rendered ->
  (forall i, 0 <= i < 3 -> isRejected (sendMail (mail env) i) = true) ->
  let r := POST env req w in
  fst r = Normal received /\
  recurringDonationRecorded invoice subscription customerEmail w (snd r) /\
  totalFailed (emailMetrics (snd r)) = totalFailed (emailMetrics w) + 1 /\
  totalSent (emailMetrics (snd r)) = totalSent (emailMetrics w) /\
  exists lastError,
    lastFailed (emailMetrics (snd r))
    = Some {| emailType := "donation-receipt"; recipient := customerEmail;
              error := lastError; timestamp := now (mail env) |}.
Proof.
  intros Hver Hsub Hsubs Hcust Hdetails Hemail Hpaid Hfault Hkeyed Hpdf Htemplate Hrej.
  cbv zeta. rewrite (POST_verified _ _ _ _ Hver).
  change (processEvent env (invoicePaymentSucceeded invoice) w)
    with (tryCatch (handleInvoicePaymentSucceeded env invoice)
                   (fun _ => ret (jsonWithStatus (Failure "Failed to process webhook") 500))
                   w).
  destruct (handleInvoicePaymentSucceeded_records
              env invoice subscriptionId subscription customer
              customerEmail customerName customerPhone w
              Hsub Hsubs Hcust Hdetails Hemail Hpaid Hfault Hkeyed)
    as (w' & Hhandle' & Hrecorded).
  destruct (handleInvoicePaymentSucceeded_reaches_save
              env invoice subscriptionId subscription customer
              customerEmail customerName customerPhone w Hsub Hsubs Hcust Hdetails)
    as (data & params & es0 & Hhandle & _ & _ & Hdemail & Hdamount & _ & Hto).
  destruct (saveDonationRecord_saves env data (addEffects es0 w) Hfault)
    as (donor & donation & w3 & Hsave & _);
    [now rewrite Hdemail | rewrite Hdamount; now apply falsyNumber_cents | exact Hkeyed |].
  pose proof (saveDonationRecord_sameMetrics env data (addEffects es0 w)) as Hmetrics.
  rewrite Hsave in Hmetrics. simpl in Hmetrics.
  rewrite (bind_normal _ _ _ _ _
             (recordAndNotify_after_save_world env data params _ _ _ _ Hsave)) in Hhandle.
  destruct (runMailer_prepared env (DonationMail params) w3)
    as (mailOptions & es1 & Hrecipient & _ & _ & Hmail).
  { unfold preparationError. simpl. now rewrite Hpdf, Htemplate. }
  cbn [runMailer mailerLabel mailerRecipient] in Hmail, Hrecipient.
  rewrite Hmail in Hhandle.
  destruct (sendWithRetry_run (mail env) mailOptions "donation-receipt"
              defaultMaxRetries defaultBaseDelay (addEffects es1 w3))
    as [(k & info & Hk & _ & Hinfo & _) | (lastError & _ & Hrun)].
  { unfold defaultMaxRetries in Hk.
    specialize (Hrej (Z.of_nat k) ltac:(lia)). rewrite Hinfo in Hrej. discriminate. }
  rewrite Hrun in Hhandle. cbn [snd ret] in Hhandle.
  rewrite Hhandle in Hhandle'. injection Hhandle' as <-.
  unfold tryCatch. rewrite Hhandle. cbn [fst snd].
  split; [reflexivity|]. split; [exact Hrecorded|].
  simpl. rewrite Hmetrics, Hrecipient, Hto.
  split; [reflexivity|]. split; [reflexivity|]. now exists lastError.
Qed.

(** ** The handlers that only log or notify *)

Lemma lookupCustomerForLog_world env subscription w :
  lookupCustomerForLog env subscription w
  = (Normal tt, addEffects [CustomersRetrieve (Subscription.customer subscription)] w).
Proof.
  unfold lookupCustomerForLog, tryCatch. rewrite bind_perform.
  destruct (customersRetrieve env (Subscription.customer subscription)) as [customer|err].
  - now rewrite bind_await_fulfilled.
  - now rewrite bind_await_rejected.
Qed.

(** X21: the subscription lifecycle events, [invoice.payment_action_required]
    and every unlisted type are acknowledged with 200 and only log: at
    most one customer lookup is made, whose failure changes nothing, and
    the storage, the metrics and the mail are not touched. *)
Theorem logging_events_change_nothing env req event w :
  verifies env req event ->
  onlyLogs (route (type event)) = true ->
  exists es,
    POST env req w = (Normal received, addEffects es w) /\
    (es = [] \/ exists customerId, es = [CustomersRetrieve customerId]).
Proof.
  intros Hver Hlogs. rewrite (POST_verified _ _ _ _ Hver). clear Hver.
  unfold processEvent, tryCatch. destruct event as [ty obj]. simpl in *.
  revert obj Hlogs. generalize (route ty) as h. intros h obj Hlogs.
  assert (Hlookup : forall (subscription : Subscription.t) (k : Js Response),
             k = (lookupCustomerForLog env subscription ;; ret received) ->
             exists es,
               tryCatch k (fun _ => ret (jsonWithStatus (Failure "Failed to process webhook") 500)) w
               = (Normal received, addEffects es w) /\
               (es = [] \/ exists customerId, es = [CustomersRetrieve customerId])).
  { intros subscription k ->.
    exists [CustomersRetrieve (Subscription.customer subscription)].
    unfold tryCatch at 1.
    rewrite (bind_normal _ _ _ _ _ (lookupCustomerForLog_world env subscription w)).
    split; [reflexivity | right; now eexists]. }
  assert (Hnothing : exists es,
             tryCatch (ret received)
                      (fun _ => ret (jsonWithStatus (Failure "Failed to process webhook") 500)) w
             = (Normal received, addEffects es w) /\
             (es = [] \/ exists customerId, es = [CustomersRetrieve customerId])).
  { exists (@nil Effect). rewrite addEffects_nil. split; [reflexivity | now left]. }
  destruct h; try discriminate Hlogs; cbn [dispatch].
  - now apply (Hlookup obj).
  - exact Hnothing.
  - now apply (Hlookup obj).
  - exact Hnothing.
  - now apply (Hlookup obj).
  - now apply (Hlookup obj).
  - exact Hnothing.
Qed.

Lemma failedPaymentLookup_world env invoice w :
  tryCatch
    (perform (CustomersRetrieve (Invoice.customer invoice)) ;;
     let* customer := await (customersRetrieve env (Invoice.customer invoice)) in
     match customer with
     | LiveCustomer c => ret (Customer.email c, orElse (Customer.name c) "Donor")
     | DeletedCustomer => ret (None, "Donor")
     end)
    (fun error => ret (None, "Donor")) w
  = (Normal match customersRetrieve env (Invoice.customer invoice) with
            | Fulfilled (LiveCustomer c) => (Customer.email c, orElse (Customer.name c) "Donor")
            | _ => (None, "Donor")
            end,
     addEffects [CustomersRetrieve (Invoice.customer invoice)] w).
Proof.
  unfold tryCatch. rewrite bind_perform.
  destruct (customersRetrieve env (Invoice.customer invoice)) as [[c|]|err].
  - now rewrite bind_await_fulfilled.
  - now rewrite bind_await_fulfilled.
  - now rewrite bind_await_rejected.
Qed.

Lemma handlePaymentFailed_without_recipient env invoice w :
  failedPaymentRecipient env invoice = None
  \/ nonEmpty (Invoice.subscription invoice) = None ->
  handlePaymentFailed env invoice w
  = (Normal received, addEffects [CustomersRetrieve (Invoice.customer invoice)] w).
Proof.
  intros Hnone. unfold failedPaymentRecipient in Hnone.
  unfold handlePaymentFailed. cbv zeta.
  rewrite (bind_normal _ _ _ _ _ (failedPaymentLookup_world env invoice w)).
  cbv beta.
  destruct (customersRetrieve env (Invoice.customer invoice)) as [[c|]|err];
    cbn [fst snd]; try reflexivity.
  destruct (nonEmpty (Customer.email c)) as [customerEmail|];
    [destruct (nonEmpty (Invoice.subscription invoice)) as [subscriptionId|]|];
    try reflexivity.
  destruct Hnone; discriminate.
Qed.

(** X22: no payment-failure notice is sent without an address or without a
    subscription: when the customer lookup fails, or the customer is
    deleted or has no email, or the invoice has no subscription, the
    event is acknowledged with 200 after that one lookup and nothing else
    happens. *)
Theorem payment_failed_without_recipient env req invoice w :
  verifies env req (invoicePaymentFailed invoice) ->
  failedPaymentRecipient env invoice = None
  \/ nonEmpty (Invoice.subscription invoice) = None ->
  POST env req w
  = (Normal received, addEffects [CustomersRetrieve (Invoice.customer invoice)] w).
Proof.
  intros Hver Hnone. rewrite (POST_verified _ _ _ _ Hver).
  change (processEvent env (invoicePaymentFailed invoice) w)
    with (tryCatch (handlePaymentFailed env invoice)
                   (fun _ => ret (jsonWithStatus (Failure "Failed to process webhook") 500))
                   w).
  unfold tryCatch.
  now rewrite (handlePaymentFailed_without_recipient env invoice w Hnone).
Qed.

Lemma runMailer_keeps_storage env m w :
  donors (snd (runMailer env m w)) = donors w /\
  donations (snd (runMailer env m w)) = donations w.
Proof.
  apply (respects_runMailer
           (fun w w' => donors w' = donors w /\ donations w' = donations w)).
  - now intros.
  - intros w1 w2 w3 [-> ->] [-> ->]. now split.
  - now intros.
  - now intros.
  - now intros.
Qed.

Lemma tryCatch_swallow (body : Js unit) w :
  fst (body w) <> OutOfFuel ->
  tryCatch body (fun _ => ret tt) w = (Normal tt, snd (body w)).
Proof.
  unfold tryCatch. destruct (body w) as [[[]|exn|] w']; simpl; intros H;
    try reflexivity. now destruct H.
Qed.

Lemma bind_then_ret {A B} (c : Js A) (b : B) w :
  snd (bind c (fun _ => ret b) w) = snd (c w) /\
  (fst (c w) <> OutOfFuel -> fst (bind c (fun _ => ret b) w) <> OutOfFuel).
Proof.
  unfold bind. destruct (c w) as [[a|exn|] w']; simpl; split;
    try reflexivity; intros H; try discriminate. now destruct H.
Qed.

Lemma handlePaymentFailed_with_recipient env invoice customerEmail subscriptionId w :
  failedPaymentRecipient env invoice = Some customerEmail ->
  nonEmpty (Invoice.subscription invoice) = Some subscriptionId ->
  let looked := addEffects [CustomersRetrieve (Invoice.customer invoice);
                            SubscriptionsRetrieve subscriptionId] w in
  exists w',
    handlePaymentFailed env invoice w = (Normal received, w') /\
    match subscriptionsRetrieve env subscriptionId with
    | Fulfilled _ =>
        exists params,
          PaymentFailedEmailParams.to params = customerEmail /\
          PaymentFailedEmailParams.updatePaymentUrl params
          = siteUrl env ++ "/donations/update-payment?customer_id="
                    ++ Invoice.customer invoice /\
          w' = snd (runMailer env (PaymentFailedMail params) looked)
    | Rejected _ => w' = looked
    end.
Proof.
  intros Hrecipient Hsub. cbv zeta.
  unfold failedPaymentRecipient in Hrecipient.
  unfold handlePaymentFailed. cbv zeta.
  rewrite (bind_normal _ _ _ _ _ (failedPaymentLookup_world env invoice w)). cbv beta.
  destruct (customersRetrieve env (Invoice.customer invoice)) as [[c|]|err];
    try discriminate Hrecipient.
  cbn [fst snd]. rewrite Hrecipient, Hsub. cbv beta iota.
  match goal with
  | |- context [bind (tryCatch ?body _) _ ?w0] =>
      assert (Hbody : fst (body w0) <> OutOfFuel
                      /\ match subscriptionsRetrieve env subscriptionId with
                         | Fulfilled _ =>
                             exists params,
                               PaymentFailedEmailParams.to params = customerEmail /\
                               PaymentFailedEmailParams.updatePaymentUrl params
                               = siteUrl env ++ "/donations/update-payment?customer_id="
                                         ++ Invoice.customer invoice /\
                               snd (body w0)
                               = snd (runMailer env (PaymentFailedMail params)
                                        (addEffects [SubscriptionsRetrieve subscriptionId] w0))
                         | Rejected _ =>
                             snd (body w0)
                             = addEffects [SubscriptionsRetrieve subscriptionId] w0
                         end);
      [| destruct Hbody as [Hdone Hworld];
         rewrite (bind_normal _ _ _ _ _ (tryCatch_swallow body w0 Hdone));
         exists (snd (body w0)); split; [reflexivity|];
         rewrite addEffects_app in Hworld; exact Hworld ]
  end.
  rewrite bind_perform.
  destruct (subscriptionsRetrieve env subscriptionId) as [subscription|err].
  - rewrite bind_await_fulfilled.
    match goal with
    | |- context [bind (sendPaymentFailedEmail env ?p) _ ?w0] =>
        destruct (bind_then_ret (sendPaymentFailedEmail env p) tt w0) as [Hsnd Hfst];
        split; [apply Hfst, completes_sendPaymentFailedEmail|];
        exists p; repeat split; exact Hsnd
    end.
  - rewrite bind_await_rejected. split; [discriminate | reflexivity].
Qed.


(** ** The [redirect] callback *)

(** X24: [redirect] never leaves the site.  Let [baseUrl] be an origin
    for the URL parser: it is its own origin, and so is every address made
    of it and a path that starts with a slash.  Then every address that
    [redirect] returns has the origin [baseUrl]: it is [baseUrl] followed
    by the requested path, the requested URL itself when its origin is
    [baseUrl], or [baseUrl]; the callback throws only for an address that
    is neither a path nor a URL that parses. *)
Theorem redirect_stays_on_site origin url baseUrl :
  origin baseUrl = Some baseUrl ->
  (forall path, String.prefix "/" path = true -> origin (baseUrl ++ path) = Some baseUrl) ->
  match redirect origin url baseUrl with
  | Normal r =>
      origin r = Some baseUrl /\
      ((String.prefix "/" url = true /\ r = baseUrl ++ url) \/
       (String.prefix "/" url = false /\ r = url) \/
       (String.prefix "/" url = false /\ origin url <> Some baseUrl /\ r = baseUrl))
  | Thrown _ => String.prefix "/" url = false /\ origin url = None
  | OutOfFuel => False
  end.
Proof.
  intros Hbase Hpath. unfold redirect.
  destruct (String.prefix "/" url) eqn:Hslash.
  - split; [now apply Hpath | left; now split].
  - destruct (origin url) as [o|] eqn:Horigin; [|now split].
    destruct (String.eqb_spec o baseUrl) as [->|Hne].
    + split; [exact Horigin | right; left; now split].
    + split; [exact Hbase|]. right. right. split; [reflexivity|].
      split; [congruence | reflexivity].
Qed.

(** ** The further properties on concrete inputs *)

Lemma signedRequest_verifies_of event faults charges customers transport :
  verifies (exampleEnvOf event faults charges customers transport) signedRequest event.
Proof. exists "{}", (Some validSignature), validSignature. repeat split. Defined.

(** A reminder whose template cannot be read is not sent. *)
Lemma mailer_rethrows_preparation_error_witness :
  preparationError brokenTemplatesEnv (ReminderMail reminderParams)
  = Some (JsError "ENOENT: no such file or directory") /\
  fst (runMailer brokenTemplatesEnv (ReminderMail reminderParams) worldWithAda)
  = Thrown (JsError "ENOENT: no such file or directory") /\
  emailMetrics (snd (runMailer brokenTemplatesEnv (ReminderMail reminderParams) worldWithAda))
  = emailMetrics worldWithAda.
Proof.
  split; [reflexivity|].
  destruct (mailer_rethrows_preparation_error
              brokenTemplatesEnv (ReminderMail reminderParams)
              (JsError "ENOENT: no such file or directory") worldWithAda eq_refl)
    as (Hthrown & Hmetrics & _).
  split; [exact Hthrown | exact Hmetrics].
Defined.

(** A reminder through the transport that times out twice. *)
Lemma mailer_is_one_delivery_sequence_witness :
  preparationError recurringEnv (ReminderMail reminderParams) = None /\
  exists mailOptions es n,
    to mailOptions = "bob@example.org" /\
    effects (snd (runMailer recurringEnv (ReminderMail reminderParams) worldWithAda))
    = (effects worldWithAda ++ es)%list /\
    transportCalls es = repeat (TransporterSendMail mailOptions) n /\
    (1 <= n <= 3)%nat.
Proof.
  split; [reflexivity|].
  exact (proj1 (mailer_is_one_delivery_sequence
                  recurringEnv (ReminderMail reminderParams) worldWithAda eq_refl)).
Defined.

(** Donation data without an email is refused. *)
Lemma saveDonationRecord_rejects_invalid_witness :
  DonationData.email (exampleDonationData "" 4000) = "" /\
  saveDonationRecord recurringEnv (exampleDonationData "" 4000) worldWithAda
  = (Thrown (JsError "Missing required donation data: email or amount"), worldWithAda).
Proof.
  split; [reflexivity|].
  apply (saveDonationRecord_rejects_invalid recurringEnv (exampleDonationData "" 4000)
           worldWithAda).
  left. reflexivity.
Defined.


(** A one-time payment by a card without billing email. *)
Lemma one_time_payment_without_email_witness :
  oneTimeDonorEmail oneTimePaymentIntent (Some (cardCharge None)) = "" /\
  fst (POST (oneTimeEnv None) signedRequest worldWithAda) = Normal missingEmail /\
  donors (snd (POST (oneTimeEnv None) signedRequest worldWithAda)) = donors worldWithAda /\
  donations (snd (POST (oneTimeEnv None) signedRequest worldWithAda)) = [].
Proof.
  split; [reflexivity|].
  assert (Hlooked : chargeLookedUp (oneTimeEnv None) oneTimePaymentIntent
                                   (Some (cardCharge None))).
  { exists (cardCharge None). split; reflexivity. }
  destruct (one_time_payment_without_email
              (oneTimeEnv None) signedRequest oneTimePaymentIntent (Some (cardCharge None))
              worldWithAda (signedRequest_verifies_of _ _ _ _ _) eq_refl Hlooked eq_refl)
    as (Hresponse & _ & Hdonors & Hdonations & _).
  split; [exact Hresponse|]. split; [exact Hdonors | exact Hdonations].
Defined.

(** A one-time payment of 40.00 by Ada. *)
Lemma one_time_payment_recorded_witness :
  oneTimeDonorEmail oneTimePaymentIntent (Some (cardCharge (Some "ada@example.org")))
  = "ada@example.org" /\
  fst (POST (oneTimeEnv (Some "ada@example.org")) signedRequest worldWithAda)
  = Normal received /\
  oneTimeDonationRecorded
    oneTimePaymentIntent "ada@example.org" worldWithAda
    (snd (POST (oneTimeEnv (Some "ada@example.org")) signedRequest worldWithAda)).
Proof.
  split; [reflexivity|].
  assert (Hlooked : chargeLookedUp (oneTimeEnv (Some "ada@example.org")) oneTimePaymentIntent
                                   (Some (cardCharge (Some "ada@example.org")))).
  { exists (cardCharge (Some "ada@example.org")). split; reflexivity. }
  apply (one_time_payment_recorded
           (oneTimeEnv (Some "ada@example.org")) signedRequest oneTimePaymentIntent
           (Some (cardCharge (Some "ada@example.org"))) worldWithAda
           (signedRequest_verifies_of _ _ _ _ _) eq_refl Hlooked);
    try discriminate; try reflexivity.
  apply worldWithAda_keyed.
Defined.

(** Ada's recurring invoice of 25.00 while donations cannot be created:
    her total becomes 125 and no donation exists. *)
Lemma donor_total_counts_unrecorded_donation_witness :
  storageFault donationsDownEnv OpDonationsCreate = Some (JsError "table unavailable") /\
  fst (POST donationsDownEnv signedRequest worldWithAda) = Normal received /\
  donations (snd (POST donationsDownEnv signedRequest worldWithAda)) = [] /\
  exists donor,
    donors (snd (POST donationsDownEnv signedRequest worldWithAda))
    = <["ada@example.org" := donor]> (donors worldWithAda) /\
    totalDonations donor = Some (100 + 2500 / 100)%Q.
Proof.
  split; [reflexivity|].
  destruct (donor_total_counts_unrecorded_donation
              donationsDownEnv signedRequest (recurringInvoice 2500) "sub_1"
              (weeklySubscription "sub_1")
              (LiveCustomer {| Customer.email := Some "ada@example.org";
                               Customer.name := Some "Ada";
                               Customer.phone := None |})
              "ada@example.org" "Ada" None (JsError "table unavailable") worldWithAda
              (signedRequest_verifies_of _ _ _ _ _) eq_refl eq_refl eq_refl eq_refl
              ltac:(discriminate) ltac:(discriminate) eq_refl eq_refl eq_refl eq_refl
              worldWithAda_keyed)
    as (Hresponse & Hdonations & _ & Hdonor & _).
  split; [exact Hresponse|]. split; [exact Hdonations | exact Hdonor].
Defined.

(** A one-off invoice leaves everything as it was. *)
Lemma invoice_without_subscription_skipped_witness :
  nonEmpty (Invoice.subscription oneOffInvoice) = None /\
  POST oneOffEnv signedRequest worldWithAda = (Normal received, worldWithAda).
Proof.
  split; [reflexivity|].
  apply (invoice_without_subscription_skipped oneOffEnv signedRequest oneOffInvoice
           worldWithAda (signedRequest_verifies_of _ _ _ _ _) eq_refl).
Defined.

(** A recurring invoice without email of a deleted customer. *)
Lemma invoice_of_deleted_customer_without_email_witness :
  customersRetrieve anonymousEnv (Invoice.customer anonymousInvoice)
  = Fulfilled DeletedCustomer /\
  POST anonymousEnv signedRequest worldWithAda
  = (Normal missingEmail,
     addEffects [SubscriptionsRetrieve "sub_1"; CustomersRetrieve "cus_9"] worldWithAda).
Proof.
  split; [reflexivity|].
  apply (invoice_of_deleted_customer_without_email
           anonymousEnv signedRequest anonymousInvoice "sub_1" (weeklySubscription "sub_1")
           worldWithAda (signedRequest_verifies_of _ _ _ _ _) eq_refl eq_refl eq_refl eq_refl).
Defined.

(** Ada's recurring invoice while the transport refuses: recorded, and
    one failure counted. *)
Lemma undelivered_receipt_keeps_records_witness :
  (forall i, 0 <= i < 3 -> isRejected (sendMail (mail undeliverableEnv) i) = true) /\
  fst (POST undeliverableEnv signedRequest worldWithAda) = Normal received /\
  recurringDonationRecorded (recurringInvoice 2500) (weeklySubscription "sub_1")
                            "ada@example.org" worldWithAda
                            (snd (POST undeliverableEnv signedRequest worldWithAda)) /\
  totalFailed (emailMetrics (snd (POST undeliverableEnv signedRequest worldWithAda))) = 1.
Proof.
  split; [intros i _; reflexivity|].
  destruct (undelivered_receipt_keeps_records
              undeliverableEnv signedRequest (recurringInvoice 2500) "sub_1"
              (weeklySubscription "sub_1")
              (LiveCustomer {| Customer.email := Some "ada@example.org";
                               Customer.name := Some "Ada";
                               Customer.phone := None |})
              "ada@example.org" "Ada" None "%PDF-1.7" "<html></html>" worldWithAda
              (signedRequest_verifies_of _ _ _ _ _) eq_refl eq_refl eq_refl eq_refl
              ltac:(discriminate) ltac:(discriminate) (fun _ => eq_refl)
              worldWithAda_keyed eq_refl eq_refl (fun _ _ => eq_refl))
    as (Hresponse & Hrecorded & Hfailed & _).
  split; [exact Hresponse|]. split; [exact Hrecorded | exact Hfailed].
Defined.

(** A deleted subscription is logged after one customer lookup. *)
Lemma logging_events_change_nothing_witness :
  onlyLogs (route (type subscriptionDeletedEvent)) = true /\
  exists es,
    POST (exampleEnv subscriptionDeletedEvent subscriptionsUp) signedRequest worldWithAda
    = (Normal received, addEffects es worldWithAda) /\
    (es = [] \/ exists customerId, es = [CustomersRetrieve customerId]).
Proof.
  split; [reflexivity|].
  apply (logging_events_change_nothing
           (exampleEnv subscriptionDeletedEvent subscriptionsUp) signedRequest
           subscriptionDeletedEvent worldWithAda (signedRequest_verifies _ _) eq_refl).
Defined.

(** A failed payment of a deleted customer: no notice. *)
Lemma payment_failed_without_recipient_witness :
  failedPaymentRecipient (failedPaymentEnv customerDeleted) (recurringInvoice 2500) = None /\
  POST (failedPaymentEnv customerDeleted) signedRequest worldWithAda
  = (Normal received, addEffects [CustomersRetrieve "cus_1"] worldWithAda).
Proof.
  split; [reflexivity|].
  apply (payment_failed_without_recipient
           (failedPaymentEnv customerDeleted) signedRequest (recurringInvoice 2500)
           worldWithAda (signedRequest_verifies_of _ _ _ _ _) (or_introl eq_refl)).
Defined.


Lemma exampleOrigin_of_path path :
  String.prefix "/" path = true ->
  exampleOrigin ("https://fgssl.example.org" ++ path) = Some "https://fgssl.example.org".
Proof.
  destruct path as [|c path]; [discriminate|].
  intros H. destruct (Ascii.ascii_dec "/" c) as [<-|Hne]; [now destruct path|].
  cbn [String.prefix] in H.
  destruct (Ascii.ascii_dec "/" c); [contradiction | discriminate].
Qed.

(** A path is appended to the site's address; a foreign URL is replaced by
    the site's address. *)
Lemma redirect_stays_on_site_witness :
  redirect exampleOrigin "/auth/login" "https://fgssl.example.org"
  = Normal "https://fgssl.example.org/auth/login" /\
  redirect exampleOrigin "https://evil.example.com/login" "https://fgssl.example.org"
  = Normal "https://fgssl.example.org" /\
  match redirect exampleOrigin "https://evil.example.com/login" "https://fgssl.example.org" with
  | Normal r => exampleOrigin r = Some "https://fgssl.example.org"
  | _ => False
  end.
Proof.
  split; [reflexivity|]. split; [reflexivity|].
  exact (proj1 (redirect_stays_on_site
                  exampleOrigin "https://evil.example.com/login" "https://fgssl.example.org"
                  eq_refl exampleOrigin_of_path)).
Defined.
